(** * flagged / genflagged: a shallow embedding and its verified properties

    The development follows the two parts of the repository:

    - [flagged]: the bit-flags runtime ([flagged.go]), four fixed-width
      unsigned containers with bounds-checked, index-addressed operations;
    - [genflagged]: the generator ([cmd/genflagged]), which scans the type
      declarations of a package, keeps the boolean fields of the requested
      struct types, sizes the output type and plans one output file per
      package variant.

    Go's [int] is a 64-bit signed integer; every integer the modelled code
    manipulates (indexes, lengths, widths) stays far inside that range, so
    [int] values are modelled by [Z] without wrap-around.  The fixed-width
    unsigned types are modelled by [Z] with the wrap-around written out.
    Go strings and byte slices are byte sequences: [string] (a list of
    8-bit [ascii]) is used for both. *)

From Stdlib Require Import ZArith String Ascii Lia.
From stdpp Require Import base list gmap strings pretty.

Local Open Scope Z_scope.
Set Warnings "-register-all".

(** * The syntax and type information the generator reads

    [go/ast], [go/token] and [go/types] are libraries the generator
    consumes; they are modelled as far as the generator looks at them. *)

Module ast.

Inductive Token := IMPORT | CONST | TYPE | VAR.

(** An [*ast.Ident].  Identifiers are keys of [types.Info.Defs] by pointer:
    [addr] stands for the address of the node. *)
Record Ident := { Name : string; addr : positive }.

(** Type expressions.  A field list entry holds the names declared together
    and their type; an embedded field has no name. *)
Inductive Expr :=
| IdentExpr (id : Ident)
| StructType (Fields : list Field)
| OtherExpr
with Field :=
| mkField (Names : list Ident) (Type_ : Expr).

Definition Names (f : Field) : list Ident :=
  match f with mkField names _ => names end.

Inductive Spec :=
| TypeSpec (Name : Ident) (Type_ : Expr)
| OtherSpec.

(** A syntax node as [ast.Inspect] sees it: either an [*ast.GenDecl] or any
    other node; [below] lists the non-nil children in the order in which
    [ast.Inspect] visits them. *)
Inductive Node :=
| GenDecl (Tok : Token) (Specs : list Spec) (below : list Node)
| OtherNode (below : list Node).

End ast.

Module types.

Inductive BasicKind :=
| Invalid
| Bool | Int | Int8 | Int16 | Int32 | Int64
| Uint | Uint8 | Uint16 | Uint32 | Uint64 | Uintptr
| Float32 | Float64 | Complex64 | Complex128
| String | UnsafePointer
| UntypedBool | UntypedInt | UntypedRune | UntypedFloat | UntypedComplex
| UntypedString | UntypedNil.

(** [types.Type], as far as [genStructDecl] distinguishes types: basic
    types, aliases (which [Unalias] unwinds), defined (named) types and all
    others. *)
Inductive GoType :=
| Basic (kind : BasicKind)
| Alias (name : string) (rhs : GoType)
| Named (name : string) (underlying : GoType)
| Struct
| OtherType.

Record Object := { Name : string; Type_ : GoType }.

Fixpoint Unalias (t : GoType) : GoType :=
  match t with
  | Alias _ rhs => Unalias rhs
  | _ => t
  end.

Fixpoint Underlying (t : GoType) : GoType :=
  match t with
  | Alias _ rhs => Underlying rhs
  | Named _ underlying => underlying
  | _ => t
  end.

(** The [BasicInfo] flags, [1 << iota]. *)
Definition IsBoolean : Z := Z.shiftl 1 0.
Definition IsInteger : Z := Z.shiftl 1 1.
Definition IsUnsigned : Z := Z.shiftl 1 2.
Definition IsFloat : Z := Z.shiftl 1 3.
Definition IsComplex : Z := Z.shiftl 1 4.
Definition IsString : Z := Z.shiftl 1 5.
Definition IsUntyped : Z := Z.shiftl 1 6.

Definition Info (k : BasicKind) : Z :=
  match k with
  | Invalid => 0
  | Bool => IsBoolean
  | Int | Int8 | Int16 | Int32 | Int64 => IsInteger
  | Uint | Uint8 | Uint16 | Uint32 | Uint64 | Uintptr =>
      Z.lor IsInteger IsUnsigned
  | Float32 | Float64 => IsFloat
  | Complex64 | Complex128 => IsComplex
  | String => IsString
  | UnsafePointer => 0
  | UntypedBool => Z.lor IsBoolean IsUntyped
  | UntypedInt | UntypedRune => Z.lor IsInteger IsUntyped
  | UntypedFloat => Z.lor IsFloat IsUntyped
  | UntypedComplex => Z.lor IsComplex IsUntyped
  | UntypedString => Z.lor IsString IsUntyped
  | UntypedNil => IsUntyped
  end.

End types.

(** ** Outcomes of a Go call

    A call either returns, panics (a run-time panic unwinds the current
    operation and can be recovered by a caller), or ends the process through
    [log.Fatalf], whose format string and arguments are kept as they are
    passed ([%s], [%d] and [%q] arguments as strings, integers and types). *)

Inductive Arg :=
| AStr (s : string)
| AInt (z : Z)
| AType (t : types.GoType).

Inductive Result (A : Type) :=
| Ok (a : A)
| Panic (msg : string)
| Fatal (format : string) (args : list Arg).

Arguments Ok {A} a.
Arguments Panic {A} msg.
Arguments Fatal {A} format args.

Global Instance Result_ret : MRet Result := fun A a => Ok a.

Global Instance Result_bind : MBind Result := fun A B k r =>
  match r with
  | Ok a => k a
  | Panic m => Panic m
  | Fatal f a => Fatal f a
  end.

Definition panics {A} (r : Result A) : Prop := exists msg, r = Panic msg.
Definition returns {A} (r : Result A) : Prop := exists a, r = Ok a.

(** ** Byte strings *)

Definition len (s : string) : Z := Z.of_nat (String.length s).

(** [s[lo:hi]]: a slice expression panics when its bounds are out of range. *)
Definition slice (s : string) (lo hi : Z) : Result string :=
  if (0 <=? lo) && (lo <=? hi) && (hi <=? len s)
  then Ok (substring (Z.to_nat lo) (Z.to_nat (hi - lo)) s)
  else Panic "slice bounds out of range".

Definition byteZ (c : ascii) : Z := Z.of_N (N_of_ascii c).
Definition uint8 (z : Z) : ascii := ascii_of_N (Z.to_N (z mod 256)).

(** * The bit-flags runtime ([flagged.go]) *)

Module flagged.

(** The four instances of the type parameter [T bitFlags]. *)
Inductive Width := BitFlags8 | BitFlags16 | BitFlags32 | BitFlags64.

Definition Size (T : Width) : Z :=
  match T with
  | BitFlags8 => 8
  | BitFlags16 => 16
  | BitFlags32 => 32
  | BitFlags64 => 64
  end.

(** Conversion to the unsigned type [T]: the low [Size T] bits. *)
Definition wrap (T : Width) (z : Z) : Z := z mod 2 ^ Size T.

(** [1 << idx] computed in type [T]; a negative shift count panics. *)
Definition bit (T : Width) (idx : Z) : Result Z :=
  if idx <? 0 then Panic "negative shift amount"
  else Ok (wrap T (Z.shiftl 1 idx)).

Definition nSmalls : Z := 100.

Definition smallsString : string :=
  "00010203040506070809" +:+
  "10111213141516171819" +:+
  "20212223242526272829" +:+
  "30313233343536373839" +:+
  "40414243444546474849" +:+
  "50515253545556575859" +:+
  "60616263646566676869" +:+
  "70717273747576777879" +:+
  "80818283848586878889" +:+
  "90919293949596979899".

Definition digits : string := "0123456789abcdefghijklmnopqrstuvwxyz".

Definition small (i : Z) : Result string :=
  if i <? 10 then slice digits i (i + 1)
  else slice smallsString (i * 2) (i * 2 + 2).

Definition sizeIndexString (size : Z) : string :=
  if size =? 8 then "7"
  else if size =? 16 then "15"
  else if size =? 32 then "31"
  else "63".

Definition validateBitIndex (size idx : Z) : Result unit :=
  if (idx <? 0) || (idx >=? size) then
    let panicStr := "index " in
    panicStr ←
      (if (- nSmalls <? idx) && (idx <? nSmalls) then
         let '(idx, panicStr) :=
           if idx <? 0 then (- idx, panicStr +:+ "-") else (idx, panicStr) in
         s ← small idx;
         Ok (panicStr +:+ s +:+ " ")
       else Ok panicStr);
    let panicStr := panicStr +:+ "out of range [0.." in
    let panicStr := panicStr +:+ sizeIndexString size in
    let panicStr := panicStr +:+ "]" in
    Panic panicStr
  else Ok tt.

Definition is_ (T : Width) (f : Z) (idx : Z) : Result bool :=
  _ ← validateBitIndex (Size T) idx;
  m ← bit T idx;
  Ok (negb (Z.land f m =? 0)).

(** [set] works through a pointer: the model returns the old bit together
    with the updated flags. *)
Definition set (T : Width) (f : Z) (idx : Z) (new : bool) : Result (bool * Z) :=
  _ ← validateBitIndex (Size T) idx;
  m ← bit T idx;
  let old := negb (Z.land f m =? 0) in
  Ok (old, if new then Z.lor f m else Z.ldiff f m).

Definition toggle (T : Width) (f : Z) (idx : Z) : Result (bool * Z) :=
  _ ← validateBitIndex (Size T) idx;
  m ← bit T idx;
  let f := Z.lxor f m in
  Ok (negb (Z.land f m =? 0), f).

Definition allOnes (T : Width) : Z := wrap T (Z.lnot 0).

Definition setAll (T : Width) (f : Z) : Z := allOnes T.
Definition resetAll (T : Width) (f : Z) : Z := 0.

(** The loops of [anySet] and [allSet] validate every index: they do not
    stop at the first set (or unset) bit. *)
Fixpoint anySet_loop (T : Width) (f : Z) (size : Z) (idx : list Z)
    (foundSet : bool) : Result bool :=
  match idx with
  | [] => Ok foundSet
  | bi :: rest =>
      _ ← validateBitIndex size bi;
      m ← bit T bi;
      anySet_loop T f size rest
        (if negb (Z.land f m =? 0) then true else foundSet)
  end.

Definition anySet (T : Width) (f : Z) (idx : list Z) : Result bool :=
  if Z.of_nat (length idx) =? 0 then Ok (negb (f =? 0))
  else anySet_loop T f (Size T) idx false.

Fixpoint allSet_loop (T : Width) (f : Z) (size : Z) (idx : list Z)
    (foundUnset : bool) : Result bool :=
  match idx with
  | [] => Ok foundUnset
  | bi :: rest =>
      _ ← validateBitIndex size bi;
      m ← bit T bi;
      allSet_loop T f size rest
        (if Z.land f m =? 0 then false else foundUnset)
  end.

Definition allSet (T : Width) (f : Z) (idx : list Z) : Result bool :=
  if Z.of_nat (length idx) =? 0 then Ok (f =? allOnes T)
  else allSet_loop T f (Size T) idx true.

(** The exported methods; [Set], [Reset], [SetTo] and [Toggle] have pointer
    receivers. *)
Definition Is (T : Width) (f idx : Z) : Result bool := is_ T f idx.
Definition Set_ (T : Width) (f idx : Z) : Result (bool * Z) := set T f idx true.
Definition Reset (T : Width) (f idx : Z) : Result (bool * Z) := set T f idx false.
Definition SetTo (T : Width) (f idx : Z) (new : bool) : Result (bool * Z) :=
  set T f idx new.
Definition Toggle (T : Width) (f idx : Z) : Result (bool * Z) := toggle T f idx.
Definition AnySet (T : Width) (f : Z) : Result bool := anySet T f [].
Definition AllSet (T : Width) (f : Z) : Result bool := allSet T f [].
Definition AnyOf (T : Width) (f : Z) (idx : list Z) : Result bool := anySet T f idx.
Definition AllOf (T : Width) (f : Z) (idx : list Z) : Result bool := allSet T f idx.

End flagged.

(** ** Library functions on byte strings *)

Definition HasPrefix (s prefix : string) : bool :=
  (len s >=? len prefix) &&
  bool_decide (substring 0 (String.length prefix) s = prefix).

Definition TrimPrefix (s prefix : string) : string :=
  if HasPrefix s prefix
  then substring (String.length prefix) (String.length s - String.length prefix) s
  else s.

Definition HasSuffix (s suffix : string) : bool :=
  (len s >=? len suffix) &&
  bool_decide (substring (String.length s - String.length suffix)
                 (String.length suffix) s = suffix).

Definition TrimSuffix (s suffix : string) : string :=
  if HasSuffix s suffix
  then substring 0 (String.length s - String.length suffix) s
  else s.

(** [unicode.ToUpper] on the code points [U+0000..U+00FF], the only ones a
    single byte converts to: the ASCII fast path, then the rows of the case
    table that lie in this range (micro sign, [U+00E0..U+00F6],
    [U+00F8..U+00FE], and y with diaeresis). *)
Definition unicode_ToUpper (r : Z) : Z :=
  if r <=? 127 then
    if (97 <=? r) && (r <=? 122) then r - 32 else r
  else if r =? 181 then r + 743
  else if (224 <=? r) && (r <=? 246) then r - 32
  else if (248 <=? r) && (r <=? 254) then r - 32
  else if r =? 255 then r + 121
  else r.

(** The code point that the UTF-8 sequence at the start of [s] encodes: the
    first character of [s]. *)
Definition continuationByte (c : ascii) : option Z :=
  let x := byteZ c in
  if (128 <=? x) && (x <? 192) then Some (x - 128) else None.

Definition firstRune (s : string) : option Z :=
  match s with
  | EmptyString => None
  | String.String b0 rest =>
      let x := byteZ b0 in
      if x <? 128 then Some x
      else if (192 <=? x) && (x <? 224) then
        match rest with
        | String.String b1 _ =>
            y1 ← continuationByte b1; Some ((x - 192) * 64 + y1)
        | _ => None
        end
      else if (224 <=? x) && (x <? 240) then
        match rest with
        | String.String b1 (String.String b2 _) =>
            y1 ← continuationByte b1; y2 ← continuationByte b2;
            Some ((x - 224) * 4096 + y1 * 64 + y2)
        | _ => None
        end
      else if (240 <=? x) && (x <? 248) then
        match rest with
        | String.String b1 (String.String b2 (String.String b3 _)) =>
            y1 ← continuationByte b1; y2 ← continuationByte b2;
            y3 ← continuationByte b3;
            Some ((x - 240) * 262144 + y1 * 4096 + y2 * 64 + y3)
        | _ => None
        end
      else None
  end.

(** The two bytes of the escape sequences [\n\t]. *)
Definition newline_tab : string :=
  String.String (uint8 10) (String.String (uint8 9) EmptyString).

Fixpoint strings_Join (elems : list string) (sep : string) : string :=
  match elems with
  | [] => ""
  | [e] => e
  | e :: rest => e +:+ sep +:+ strings_Join rest sep
  end.

(** [strings.Split] for a separator of one byte, which is how
    [validateFlags] calls it: the substrings between the separators. *)
Fixpoint strings_Split_from (s : string) (sep : ascii) (cur : string)
    : list string :=
  match s with
  | EmptyString => [cur]
  | String.String c s =>
      if Ascii.eqb c sep then cur :: strings_Split_from s sep ""
      else strings_Split_from s sep (cur +:+ String.String c EmptyString)
  end.

Definition strings_Split (s : string) (sep : ascii) : list string :=
  strings_Split_from s sep "".

(** * The printing functions of the runtime ([flagged.go]) *)

Module flagged_strings.
Import flagged.

(** [stringBuilder] is a byte slice; its methods append. *)
Definition WriteByte (sb : string) (b : ascii) : string :=
  sb +:+ String.String b EmptyString.

Definition WriteString (sb : string) (s : string) : string := sb +:+ s.

(** The loop [for i := range size] of [getBinaryString], over the values of
    [i] that are left. *)
Fixpoint getBinaryString_loop (T : Width) (f : Z) (size : Z) (left : list Z)
    (str : string) : Result string :=
  match left with
  | [] => Ok str
  | i :: rest =>
      m ← bit T (size - i - 1);
      getBinaryString_loop T f size rest
        (if negb (Z.land f m =? 0) then WriteByte str "1" else WriteByte str "0")
  end.

Definition getBinaryString (T : Width) (f : Z) : Result string :=
  let size := Size T in
  getBinaryString_loop T f size (seqZ 0 size) "".

(** The loop of [getPrettyString]. *)
Fixpoint getPrettyString_loop (T : Width) (f : Z) (size : Z) (left : list Z)
    (str : string) : Result string :=
  match left with
  | [] => Ok str
  | i :: rest =>
      m ← bit T (size - i - 1);
      getPrettyString_loop T f size rest
        (if negb (Z.land f m =? 0) then
           if i =? size - 1 then WriteString str "I"
           else if (Z.rem (i + 1) 8 =? 0) && negb (i =? 0) then WriteString str "I_"
           else WriteString str "I|"
         else
           if i =? size - 1 then WriteString str "O"
           else if (Z.rem (i + 1) 8 =? 0) && negb (i =? 0) then WriteString str "O_"
           else WriteString str "O|")
  end.

Definition getPrettyString (T : Width) (f : Z) : Result string :=
  let size := Size T in
  getPrettyString_loop T f size (seqZ 0 size) "".

(** The methods [String] and [PrettyString]. *)
Definition String_ (T : Width) (f : Z) : Result string := getBinaryString T f.
Definition PrettyString (T : Width) (f : Z) : Result string := getPrettyString T f.

End flagged_strings.

(** * The generator ([cmd/genflagged]) *)

Module genflagged.

Record flagValue := { Field : string; Flag : string }.

(** [File]: a parsed file and the fields that are reset for each type being
    generated.  The back pointer [File.pkg] is passed as an argument. *)
Record File := {
  file : ast.Node;
  sourceTypeName : string;
  foundSourceType : option types.Object;
  flagValues : list flagValue;
  flagsSize : Z
}.

(** [Package.flagsSize], the size requested on the command line, is
    [wantSize] here: [File] has a field of the same name. *)
Record Package := {
  name : string;
  defs : gmap positive types.Object;
  files : list File;
  hasTestFiles : bool;
  trimPrefix : string;
  trimSuffix : string;
  wantSize : Z
}.

(** The fields of [input] that [main] reads once the packages are loaded. *)
Record input := {
  sourceTypeNames : list string;
  outTypeNames : list string;
  outFile : string;
  outDir : string
}.

Definition defaultOutTypeName (sourceTypeName : string) : string :=
  sourceTypeName +:+ "BitFlags".

Definition flagName (fieldName trimPrefix trimSuffix : string) : Result string :=
  let fn := fieldName in
  let fn := if len trimPrefix >? 0 then TrimPrefix fn trimPrefix else fn in
  let fn := if len trimSuffix >? 0 then TrimSuffix fn trimSuffix else fn in
  match fn with
  | EmptyString => Panic "index out of range [0] with length 0"
  | String.String c rest =>
      Ok (String.String (uint8 (unicode_ToUpper (byteZ c))) rest)
  end.

Definition flagSize (numFields : Z) : Z :=
  if (0 <? numFields) && (numFields <=? 8) then 8
  else if (8 <? numFields) && (numFields <=? 16) then 16
  else if (16 <? numFields) && (numFields <=? 32) then 32
  else if (32 <? numFields) && (numFields <=? 64) then 64
  else numFields.

Definition isValidStructFile (f : File) : bool :=
  negb (Z.of_nat (length (flagValues f)) =? 0).

(** The loop over the names of one field declaration. *)
Fixpoint genStructDecl_names (pkg : Package) (tspecName : string)
    (names : list ast.Ident) (fvs : list flagValue) : Result (list flagValue) :=
  match names with
  | [] => Ok fvs
  | name :: rest =>
      if bool_decide (ast.Name name = "_") then
        genStructDecl_names pkg tspecName rest fvs
      else
        match defs pkg !! ast.addr name with
        | None =>
            Fatal "error: no field definition found for field %s from type %s"
              [AStr (ast.Name name); AStr tspecName]
        | Some obj =>
            let actualType := types.Unalias (types.Type_ obj) in
            match actualType with
            | types.Basic basicType =>
                let info := types.Info basicType in
                if Z.land info types.IsBoolean =? 0 then
                  genStructDecl_names pkg tspecName rest fvs
                else
                  flag ← flagName (ast.Name name) (trimPrefix pkg) (trimSuffix pkg);
                  let fv := {| Field := ast.Name name; Flag := flag |} in
                  genStructDecl_names pkg tspecName rest (fvs ++ [fv])
            | _ => genStructDecl_names pkg tspecName rest fvs
            end
        end
  end.

(** The loop over the field declarations of the struct type. *)
Fixpoint genStructDecl_fields (pkg : Package) (tspecName : string)
    (fields : list ast.Field) (fvs : list flagValue) : Result (list flagValue) :=
  match fields with
  | [] => Ok fvs
  | field :: rest =>
      if Z.of_nat (length (ast.Names field)) =? 0 then
        genStructDecl_fields pkg tspecName rest fvs
      else
        fvs ← genStructDecl_names pkg tspecName (ast.Names field) fvs;
        genStructDecl_fields pkg tspecName rest fvs
  end.

(** The loop over the specs of a [type] declaration. *)
Fixpoint genStructDecl_specs (pkg : Package) (f : File)
    (specs : list ast.Spec) : Result File :=
  match specs with
  | [] => Ok f
  | spec :: rest =>
      match spec with
      | ast.OtherSpec => Panic "interface conversion: not *ast.TypeSpec"
      | ast.TypeSpec tname ttype =>
          if negb (bool_decide (sourceTypeName f = ast.Name tname)) then
            genStructDecl_specs pkg f rest
          else
            match defs pkg !! ast.addr tname with
            | None =>
                Fatal "error: no type definition found for type %s"
                  [AStr (ast.Name tname)]
            | Some found =>
                let f := {| file := file f;
                            sourceTypeName := sourceTypeName f;
                            foundSourceType := Some found;
                            flagValues := flagValues f;
                            flagsSize := flagsSize f |} in
                match ttype with
                | ast.StructType fields =>
                    fvs ← genStructDecl_fields pkg (ast.Name tname) fields [];
                    genStructDecl_specs pkg
                      {| file := file f;
                         sourceTypeName := sourceTypeName f;
                         foundSourceType := foundSourceType f;
                         flagValues := fvs;
                         flagsSize := flagsSize f |} rest
                | _ => genStructDecl_specs pkg f rest
                end
            end
      end
  end.

(** [genStructDecl] is the function [ast.Inspect] calls on each node, and on
    [nil] after the children of a node. *)
Definition genStructDecl (pkg : Package) (f : File) (node : option ast.Node)
    : Result (File * bool) :=
  match node with
  | Some (ast.GenDecl ast.TYPE specs _) =>
      f ← genStructDecl_specs pkg f specs;
      Ok ({| file := file f;
             sourceTypeName := sourceTypeName f;
             foundSourceType := foundSourceType f;
             flagValues := flagValues f;
             flagsSize := flagSize (Z.of_nat (length (flagValues f))) |}, false)
  | _ => Ok (f, true)
  end.

(** [ast.Inspect(node, f.genStructDecl)]: depth first; the children of a node
    are visited when the function returns [true], and the function is then
    called on [nil]. *)
Fixpoint Inspect (pkg : Package) (node : ast.Node) (f : File) : Result File :=
  '(f, descend) ← genStructDecl pkg f (Some node);
  if descend : bool then
    let below :=
      match node with
      | ast.GenDecl _ _ below => below
      | ast.OtherNode below => below
      end in
    f ← (fix children (l : list ast.Node) (f : File) : Result File :=
           match l with
           | [] => Ok f
           | c :: l => f ← Inspect pkg c f; children l f
           end) below f;
    '(f, _) ← genStructDecl pkg f None;
    Ok f
  else Ok f.

Fixpoint findStructTypeFile_loop (pkg : Package) (sourceTypeName : string)
    (files : list File) : Result (option File) :=
  match files with
  | [] => Ok None
  | f :: rest =>
      let f := {| file := file f;
                  sourceTypeName := sourceTypeName;
                  foundSourceType := None;
                  flagValues := [];
                  flagsSize := 0 |} in
      f ← Inspect pkg (file f) f;
      match foundSourceType f with
      | Some _ => Ok (Some f)
      | None => findStructTypeFile_loop pkg sourceTypeName rest
      end
  end.

Definition findStructTypeFile (pkg : Package) (sourceTypeName : string)
    : Result (option File) :=
  findStructTypeFile_loop pkg sourceTypeName (files pkg).

(** ** Emission

    The templates and [format.Source] are outside the model: the buffer of a
    [Generator] holds the inputs given to the templates, in order. *)

Record templateTypeInput := {
  SourceTypeName : string;
  OutTypeName : string;
  OutTypeSize : Z;
  OutInterfaceName : string;
  FlagValues : list flagValue
}.

Inductive Chunk :=
| Header (PackageName : string)
| Body (tmplInput : templateTypeInput).

Record Generator := { buf : list Chunk; pkg : Package }.

Definition generateHeader (g : Generator) : Generator :=
  {| buf := buf g ++ [Header (name (pkg g))]; pkg := pkg g |}.

Definition generateForStruct (g : Generator) (sourceTypeName outTypeName : string)
    (structFile : File) : Result Generator :=
  let size := flagsSize structFile in
  if size >? 64 then
    Fatal "error: type %s contains %d bool fields which is more than supported; maximum supported is 64"
      [AStr sourceTypeName; AInt size]
  else
    size ←
      (if negb (wantSize (pkg g) =? 0) then
         if wantSize (pkg g) <? size then
           Fatal "error: type %s flags size is too small; required at least %d, requested %d"
             [AStr sourceTypeName; AInt size; AInt (wantSize (pkg g))]
         else Ok (wantSize (pkg g))
       else Ok size);
    let tmplInput := {| SourceTypeName := sourceTypeName;
                        OutTypeName := outTypeName;
                        OutTypeSize := size;
                        OutInterfaceName := outTypeName +:+ "Interface";
                        FlagValues := flagValues structFile |} in
    Ok {| buf := buf g ++ [Body tmplInput]; pkg := pkg g |}.

(** The name of the output file: the [-outFile] argument, or
    [filepath.Join(outDir, defaultFileName(pkg, foundTypes[0]))], kept as
    the arguments of that call. *)
Inductive OutFileName :=
| Explicit (outFile : string)
| Default (outDir : string) (hasTestFiles : bool) (sourceTypeName : string).

Record Written := { outFileName : OutFileName; src : list Chunk }.

(** The first part of the body of the loop over [in.sourceTypeNames]: the
    name of the generated type for the source type at index [idx]. *)
Definition chooseOutTypeName (in_ : input) (idx : nat) (sourceTypeName : string)
    : Result string :=
  outTypeName ←
    (if Z.of_nat (length (outTypeNames in_)) >? 0 then
       match outTypeNames in_ !! idx with
       | None => Panic "index out of range"
       | Some outTypeName =>
           if bool_decide (outTypeName = "_") then Ok "" else Ok outTypeName
       end
     else Ok "");
  if Z.of_nat (String.length outTypeName) =? 0
  then Ok (defaultOutTypeName sourceTypeName) else Ok outTypeName.

(** The loop of [main] over [in.sourceTypeNames] for one package. *)
Fixpoint main_types (in_ : input) (p : Package) (g : Generator) (idx : nat)
    (names : list string) (foundTypes remainingTypes : list string)
    : Result (Generator * list string * list string) :=
  match names with
  | [] => Ok (g, foundTypes, remainingTypes)
  | sourceTypeName :: rest =>
      outTypeName ← chooseOutTypeName in_ idx sourceTypeName;
      found ← findStructTypeFile p sourceTypeName;
      match found with
      | Some f =>
          if negb (isValidStructFile f) then
            match foundSourceType f with
            | None => Panic "invalid memory address or nil pointer dereference"
            | Some o =>
                Fatal ("error: found unsupported type %s (%s) for name %s in package %s." +:+
                       newline_tab +:+ "supported types are struct types with bool fields.")
                  [AStr (types.Name o); AType (types.Underlying (types.Type_ o));
                   AStr sourceTypeName; AStr (name p)]
            end
          else
            g ← generateForStruct g sourceTypeName outTypeName f;
            main_types in_ p g (S idx) rest (foundTypes ++ [sourceTypeName])
              remainingTypes
      | None =>
          main_types in_ p g (S idx) rest foundTypes
            (remainingTypes ++ [sourceTypeName])
      end
  end.

(** The loop of [main] over the sorted packages.  Files already written stay
    written when a later package ends the run. *)
Fixpoint main_pkgs (in_ : input) (pkgs : list Package) (disk : list Written)
    : list Written * Result input :=
  match pkgs with
  | [] => (disk, Ok in_)
  | p :: rest =>
      let g := generateHeader {| buf := []; pkg := p |} in
      match main_types in_ p g 0 (sourceTypeNames in_) [] [] with
      | Panic m => (disk, Panic m)
      | Fatal fmt args => (disk, Fatal fmt args)
      | Ok (g, foundTypes, remainingTypes) =>
          match foundTypes with
          | [] => main_pkgs in_ rest disk
          | first :: _ =>
              if (Z.of_nat (length remainingTypes) >? 0) &&
                 negb (bool_decide (outFile in_ = ""))
              then
                (disk,
                 Fatal "error: cannot write to single file (-outFile=%q) when matching types are found in multiple packages"
                   [AStr (outFile in_)])
              else
                let in_ := {| sourceTypeNames := remainingTypes;
                              outTypeNames := outTypeNames in_;
                              outFile := outFile in_;
                              outDir := outDir in_ |} in
                let outFileName :=
                  if bool_decide (outFile in_ = "")
                  then Default (outDir in_) (hasTestFiles p) first
                  else Explicit (outFile in_) in
                main_pkgs in_ rest
                  (disk ++ [{| outFileName := outFileName; src := buf g |}])
          end
      end
  end.

(** The comparison given to [sort.Slice]. *)
Definition pkgLess (pi pj : Package) : bool :=
  let iTest := HasSuffix (name pi) "_test" in
  let jTest := HasSuffix (name pj) "_test" in
  if negb (Bool.eqb iTest jTest) then negb iTest
  else Z.of_nat (length (files pi)) <? Z.of_nat (length (files pj)).

(** [sort.Slice] promises a permutation ordered by [less] and nothing about
    elements that compare equal.  It is modelled by insertion; the results
    about the order of packages are stated for package lists without ties,
    on which every ordered permutation is the same list. *)
Fixpoint sort_insert (less : Package -> Package -> bool) (p : Package)
    (sorted : list Package) : list Package :=
  match sorted with
  | [] => [p]
  | q :: rest =>
      if less q p then q :: sort_insert less p rest else p :: q :: rest
  end.

Fixpoint sort_Slice (pkgs : list Package)
    (less : Package -> Package -> bool) : list Package :=
  match pkgs with
  | [] => []
  | p :: rest => sort_insert less p (sort_Slice rest less)
  end.

(** [main], from the loaded packages on. *)
Definition main (in_ : input) (pkgs : list Package) : list Written * Result unit :=
  let pkgs := sort_Slice pkgs pkgLess in
  let '(disk, r) := main_pkgs in_ pkgs [] in
  (disk,
   in_ ← r;
   if Z.of_nat (length (sourceTypeNames in_)) >? 0 then
     Fatal "error: no matching types found for names: %s"
       [AStr (strings_Join (sourceTypeNames in_) ",")]
   else Ok tt).

End genflagged.

(** * The command line ([cmd/genflagged/validate.go]) *)

Module validate.

(** The flags of the command and the arguments left after them. *)
Record flags := {
  typeFlag : string;
  outTypeFlag : string;
  outFileFlag : string;
  sizeFlag : Z;
  trimprefixFlag : string;
  trimsuffixFlag : string;
  buildTagsFlag : string;
  Args : list string
}.

Record input := {
  sourceTypeNames : list string;
  outTypeNames : list string;
  trimPrefix : string;
  trimSuffix : string;
  flagsSize : Z;
  outFile : string;
  outDir : string;
  buildTags : string;
  patterns : list string
}.

(** An error value: one made by [fmt.Errorf], or one of the system. *)
Inductive error :=
| Errorf (format : string) (arg : string)
| OSError (msg : string).

Inductive Value :=
| VStr (s : string)
| VInt (z : Z)
| VErr (e : error).

(** The ways in which the validation ends: it returns, it calls
    [os.Exit], [log.Fatalf] or [log.Fatal], or it panics. *)
Inductive Outcome (A : Type) :=
| Return (a : A)
| Exit (code : Z)
| LogFatalf (format : string) (args : list Value)
| LogFatal (v : Value)
| Panics (msg : string).

Arguments Return {A} a.
Arguments Exit {A} code.
Arguments LogFatalf {A} format args.
Arguments LogFatal {A} v.
Arguments Panics {A} msg.

#[global] Instance Outcome_bind : MBind Outcome := fun A B k r =>
  match r with
  | Return a => k a
  | Exit c => Exit c
  | LogFatalf f a => LogFatalf f a
  | LogFatal v => LogFatal v
  | Panics m => Panics m
  end.

(** [args[0]] *)
Definition index0 (args : list string) : Outcome string :=
  match args with
  | a :: _ => Return a
  | [] => Panics "index out of range [0] with length 0"
  end.

Section validateFlags.

(** [token.IsIdentifier], [os.Stat] (the error, or whether the name is a
    directory) and [filepath.Dir]. *)
Variable IsIdentifier : string -> bool.
Variable Stat : string -> string + bool.
Variable Dir : string -> string.

Fixpoint validateTypeNames (typeNames : list string) : option error :=
  match typeNames with
  | [] => None
  | typeName :: rest =>
      if negb (IsIdentifier typeName)
      then Some (Errorf "invalid type identifier %q" typeName)
      else validateTypeNames rest
  end.

Definition isDirectory (name : string) : Outcome bool :=
  match Stat name with
  | inl err => LogFatal (VErr (OSError err))
  | inr isDir => Return isDir
  end.

Definition getDirFromArgs (args : list string) (tags : string) : Outcome string :=
  single ←
    (if Z.of_nat (length args) =? 1
     then a0 ← index0 args; isDirectory a0
     else Return false);
  if single : bool then index0 args
  else if negb (len tags =? 0) then
    LogFatal
      (VStr "error: -tags option applies only to directories, not when files are specified")
  else a0 ← index0 args; Return (Dir a0).

Definition validateFlags (fl : flags) : Outcome input :=
  if len (typeFlag fl) =? 0 then Exit 2
  else
    let sourceTypeNames := strings_Split (typeFlag fl) "," in
    match validateTypeNames sourceTypeNames with
    | Some err => LogFatalf "error: invalid type argument: %s" [VErr err]
    | None =>
        outTypeNames ←
          (if negb (len (outTypeFlag fl) =? 0) then
             let outTypeNames := strings_Split (outTypeFlag fl) "," in
             match validateTypeNames outTypeNames with
             | Some err => LogFatalf "error: invalid outType argument: %s" [VErr err]
             | None =>
                 if negb (Z.of_nat (length outTypeNames)
                          =? Z.of_nat (length sourceTypeNames))
                 then LogFatalf "error: type argument doesn't match outType argument: %s"
                        [VStr (outTypeFlag fl)]
                 else Return outTypeNames
             end
           else Return []);
        _ ←
          (if negb (sizeFlag fl =? 0) then
             if (sizeFlag fl =? 8) || (sizeFlag fl =? 16) ||
                (sizeFlag fl =? 32) || (sizeFlag fl =? 64)
             then Return tt
             else LogFatalf "error: invalid size argument %d; supported values are 8,16,32,64"
                    [VInt (sizeFlag fl)]
           else Return tt);
        let args := Args fl in
        let args := if Z.of_nat (length args) =? 0 then ["."] else args in
        outputDir ← getDirFromArgs args (buildTagsFlag fl);
        Return {| sourceTypeNames := sourceTypeNames;
                  outTypeNames := outTypeNames;
                  trimPrefix := trimprefixFlag fl;
                  trimSuffix := trimsuffixFlag fl;
                  flagsSize := sizeFlag fl;
                  outFile := outFileFlag fl;
                  outDir := outputDir;
                  buildTags := buildTagsFlag fl;
                  patterns := args |}
    end.

End validateFlags.

End validate.

(** * Sample packages

    The declarations of [testdata/mix_options] and of the package
    documentation, and a few more, as the parser and the type checker hand
    them to the generator. *)

Module testdata.
Import genflagged.

Definition ident (name : string) (a : positive) : ast.Ident :=
  {| ast.Name := name; ast.addr := a |}.

Definition boolType : types.GoType := types.Basic types.Bool.
Definition intType : types.GoType := types.Basic types.Int.
Definition stringType : types.GoType := types.Basic types.String.

Definition object (name : string) (t : types.GoType) : types.Object :=
  {| types.Name := name; types.Type_ := t |}.

(** The object of a type declaration [type name underlying]. *)
Definition typeName (name : string) (underlying : types.GoType) : types.Object :=
  object name (types.Named name underlying).

Definition typeRef (name : string) : ast.Expr := ast.IdentExpr (ident name 1).

Definition newFile (root : ast.Node) : File :=
  {| file := root; sourceTypeName := ""; foundSourceType := None;
     flagValues := []; flagsSize := 0 |}.

(** A file: the [*ast.File] node, its package name and its declarations. *)
Definition fileNode (decls : list ast.Node) : ast.Node :=
  ast.OtherNode (ast.OtherNode [] :: decls).

Definition typeDecl (specs : list ast.Spec) : ast.Node :=
  ast.GenDecl ast.TYPE specs [].

Definition funcDecl (body : list ast.Node) : ast.Node :=
  ast.OtherNode [ast.OtherNode []; ast.OtherNode [];
                 ast.OtherNode (map (fun d => ast.OtherNode [d]) body)].

Definition newPackage (pkgName : string) (objs : list (positive * types.Object))
    (roots : list ast.Node) (tests : bool) (prefix suffix : string) (size : Z)
    : Package :=
  {| name := pkgName; defs := list_to_map objs; files := map newFile roots;
     hasTestFiles := tests; trimPrefix := prefix; trimSuffix := suffix;
     wantSize := size |}.

(** [type MixOptions struct { Flag1 bool; Field2 int; Field3 string;
    Field4 struct { Flag2 bool }; Flag2 bool }] *)
Definition mixOptionsFields : list ast.Field :=
  [ ast.mkField [ident "Flag1" 11] (typeRef "bool");
    ast.mkField [ident "Field2" 12] (typeRef "int");
    ast.mkField [ident "Field3" 13] (typeRef "string");
    ast.mkField [ident "Field4" 14]
      (ast.StructType [ast.mkField [ident "Flag2" 15] (typeRef "bool")]);
    ast.mkField [ident "Flag2" 16] (typeRef "bool") ].

Definition mixOptionsDecl : ast.Node :=
  typeDecl [ast.TypeSpec (ident "MixOptions" 10) (ast.StructType mixOptionsFields)].

Definition mixOptionsObjects : list (positive * types.Object) :=
  [ (10%positive, typeName "MixOptions" types.Struct);
    (11%positive, object "Flag1" boolType);
    (12%positive, object "Field2" intType);
    (13%positive, object "Field3" stringType);
    (14%positive, object "Field4" types.Struct);
    (15%positive, object "Flag2" boolType);
    (16%positive, object "Flag2" boolType) ].

Definition mixOptionsPackage : Package :=
  newPackage "mix_options" mixOptionsObjects [fileNode [mixOptionsDecl]]
    false "" "" 0.

(** [type Flag = bool], [type MyBool bool] and
    [type Opts struct { Base; _ bool; A, B bool; C Flag; D MyBool; E int }] *)
Definition optsFields : list ast.Field :=
  [ ast.mkField [] (typeRef "Base");
    ast.mkField [ident "_" 21] (typeRef "bool");
    ast.mkField [ident "A" 22; ident "B" 23] (typeRef "bool");
    ast.mkField [ident "C" 24] (typeRef "Flag");
    ast.mkField [ident "D" 25] (typeRef "MyBool");
    ast.mkField [ident "E" 26] (typeRef "int") ].

Definition optsDecl : ast.Node :=
  typeDecl [ ast.TypeSpec (ident "Flag" 27) (typeRef "bool");
             ast.TypeSpec (ident "Opts" 20) (ast.StructType optsFields);
             ast.TypeSpec (ident "MyBool" 28) (typeRef "bool") ].

Definition optsObjects : list (positive * types.Object) :=
  [ (20%positive, typeName "Opts" types.Struct);
    (21%positive, object "_" boolType);
    (22%positive, object "A" boolType);
    (23%positive, object "B" boolType);
    (24%positive, object "C" (types.Alias "Flag" boolType));
    (25%positive, object "D" (types.Named "MyBool" boolType));
    (26%positive, object "E" intType);
    (27%positive, object "Flag" (types.Alias "Flag" boolType));
    (28%positive, typeName "MyBool" boolType) ].

Definition optsPackage : Package :=
  newPackage "opts" optsObjects [fileNode [optsDecl]] false "" "" 0.

(** A struct type whose fields are all [bool], one name per declaration;
    the identifiers take the addresses after [base]. *)
Definition boolFields (base : positive) (names : list string) : list ast.Field :=
  imap (fun i n => ast.mkField [ident n (base + Pos.of_succ_nat i)] (typeRef "bool"))
    names.

Definition boolStructDecl (base : positive) (tname : string) (names : list string)
    : ast.Node :=
  typeDecl [ast.TypeSpec (ident tname base) (ast.StructType (boolFields base names))].

Definition boolStructObjects (base : positive) (tname : string)
    (names : list string) : list (positive * types.Object) :=
  (base, typeName tname types.Struct) ::
  imap (fun i n => ((base + Pos.of_succ_nat i)%positive, object n boolType)) names.

Definition flagNames (count : nat) : list string :=
  map (fun i => "Flag" +:+ pretty i) (seq 0 count).

(** A package with one file declaring [type tname struct] with [count]
    boolean fields [Flag0], [Flag1], ... *)
Definition boolStructPackage (tname : string) (count : nat) (size : Z) : Package :=
  newPackage "p" (boolStructObjects 100 tname (flagNames count))
    [fileNode [boolStructDecl 100 tname (flagNames count)]] false "" "" size.

(** [type Options struct { optFlagEnabled bool; opt bool }], generated with
    [-trimprefix] and [-trimsuffix]. *)
Definition trimmedPackage (prefix suffix : string) : Package :=
  newPackage "options"
    (boolStructObjects 30 "Options" ["optFlagEnabled"; "opt"])
    [fileNode [boolStructDecl 30 "Options" ["optFlagEnabled"; "opt"]]]
    false prefix suffix 0.

(** The three variants of a package [x]:
    - [x], with the file [t.go] declaring [type T struct { A bool }];
    - [x] compiled for its tests, with [t.go] and [u_test.go], which
      declares [type U struct { B bool }];
    - [x_test], with [v_test.go], which declares [type T struct { A bool }]
      again and [type V struct { C bool }]. *)
Definition tFile : ast.Node := fileNode [boolStructDecl 40 "T" ["A"]].
Definition uTestFile : ast.Node := fileNode [boolStructDecl 50 "U" ["B"]].
Definition vTestFile : ast.Node :=
  fileNode [boolStructDecl 60 "T" ["A"]; boolStructDecl 70 "V" ["C"]].

Definition xObjects : list (positive * types.Object) :=
  boolStructObjects 40 "T" ["A"].
Definition xTestObjects : list (positive * types.Object) :=
  boolStructObjects 40 "T" ["A"] ++ boolStructObjects 50 "U" ["B"].
Definition xExternalObjects : list (positive * types.Object) :=
  boolStructObjects 60 "T" ["A"] ++ boolStructObjects 70 "V" ["C"].

Definition x : Package := newPackage "x" xObjects [tFile] false "" "" 0.
Definition xForTests : Package :=
  newPackage "x" xTestObjects [tFile; uTestFile] true "" "" 0.
Definition xExternal : Package :=
  newPackage "x_test" xExternalObjects [vTestFile] true "" "" 0.

(** A file with [type T int] at package level and, in the body of a
    function, [type T struct { A bool }]. *)
Definition shadowedFile : ast.Node :=
  fileNode
    [ typeDecl [ast.TypeSpec (ident "T" 80) (typeRef "int")];
      funcDecl [boolStructDecl 81 "T" ["A"]] ].

Definition shadowedPackage : Package :=
  newPackage "shadow"
    ((80%positive, typeName "T" intType) :: boolStructObjects 81 "T" ["A"])
    [shadowedFile] false "" "" 0.

(** A file with [type T int] and nothing else. *)
Definition intFile : ast.Node :=
  fileNode [typeDecl [ast.TypeSpec (ident "T" 80) (typeRef "int")]].

Definition intPackage : Package :=
  newPackage "ints" [(80%positive, typeName "T" intType)] [intFile] false "" "" 0.

Definition ofBytes (l : list Z) : string :=
  fold_right (fun b s => String.String (uint8 b) s) EmptyString l.

(** The file in which [findStructTypeFile] finds [T], as it leaves it. *)
Definition scanned (p : Package) (T : string) : File :=
  match findStructTypeFile p T with
  | Ok (Some f) => f
  | _ => newFile (ast.OtherNode [])
  end.

Definition newGenerator (p : Package) : Generator :=
  generateHeader {| buf := []; pkg := p |}.

Definition newInput (types outTypes : list string) (out : string) : input :=
  {| sourceTypeNames := types; outTypeNames := outTypes;
     outFile := out; outDir := "." |}.

End testdata.

(** * Specification vocabulary

    The predicates and functions in which the properties below are stated:
    they follow the words of the specification, not the code. *)

Module flagged_spec.
Import flagged.

(** [idx < 0 || idx >= Size()] *)
Definition out_of_range (T : Width) (idx : Z) : Prop :=
  idx < 0 \/ idx >= Size T.

(** The allowed range [[0, Size()-1]]. *)
Definition in_range (T : Width) (idx : Z) : Prop :=
  0 <= idx <= Size T - 1.

(** The call [r] panics exactly when [bad] holds, and returns otherwise. *)
Definition fails_exactly_when {A} (r : Result A) (bad : Prop) : Prop :=
  (panics r <-> bad) /\ (returns r <-> ~ bad).

End flagged_spec.

Module bytes_spec.

(** [r] is [s] without the prefix [p], when [s] starts with [p], and [s]
    otherwise. *)
Definition withoutPrefix (s p r : string) : Prop :=
  s = p +:+ r \/ (forall rest, s <> p +:+ rest) /\ r = s.

(** [r] is [s] without the suffix [p], when [s] ends with [p], and [s]
    otherwise. *)
Definition withoutSuffix (s p r : string) : Prop :=
  s = r +:+ p \/ (forall rest, s <> rest +:+ p) /\ r = s.

End bytes_spec.

Module genflagged_spec.
Import genflagged.

(** The bit widths of the four flags types. *)
Definition supportedWidths : list Z := [8; 16; 32; 64].

(** The children loop of [Inspect], named. *)
Definition Inspect_children (pkg : Package)
    : list ast.Node -> File -> Result File :=
  fix children (l : list ast.Node) (f : File) : Result File :=
    match l with
    | [] => Ok f
    | c :: l => f ← Inspect pkg c f; children l f
    end.

(** The children of a node. *)
Definition below (n : ast.Node) : list ast.Node :=
  match n with
  | ast.GenDecl _ _ below => below
  | ast.OtherNode below => below
  end.

(** The size of the file is the one its number of flags asks for. *)
Definition sized (f : File) : Prop :=
  flagsSize f = flagSize (Z.of_nat (length (flagValues f))).

(** The generator after the type [out] of width [size] has been emitted for
    the source type [T] found in [f]. *)
Definition emit (g : Generator) (T out : string) (size : Z) (f : File)
    : Generator :=
  {| buf := buf g ++
            [Body {| SourceTypeName := T; OutTypeName := out;
                     OutTypeSize := size;
                     OutInterfaceName := out +:+ "Interface";
                     FlagValues := flagValues f |}];
     pkg := pkg g |}.

(** The boolean basic types of the type checker: [bool], and the type of
    untyped boolean constants (which no field has). *)
Definition builtinBoolean (t : types.GoType) : bool :=
  match t with
  | types.Basic types.Bool | types.Basic types.UntypedBool => true
  | _ => false
  end.

(** A field name qualifies when it is not the blank identifier and the type
    of its object, with aliases unwound, is a builtin boolean. *)
Definition qualifies (pkg : Package) (id : ast.Ident) : bool :=
  negb (bool_decide (ast.Name id = "_")) &&
  match defs pkg !! ast.addr id with
  | Some obj => builtinBoolean (types.Unalias (types.Type_ obj))
  | None => false
  end.

(** The qualifying names of the top-level field declarations, in order.  An
    embedded field declares no name and contributes nothing; the fields of
    a struct type nested in a field's type are not looked at. *)
Definition fieldCandidates (pkg : Package) (fields : list ast.Field)
    : list ast.Ident :=
  flat_map (fun fld => List.filter (qualifies pkg) (ast.Names fld)) fields.

(** [fv] is the flag value of the field name [id]. *)
Definition candidate (pkg : Package) (fv : flagValue) (id : ast.Ident) : Prop :=
  Field fv = ast.Name id /\
  flagName (ast.Name id) (trimPrefix pkg) (trimSuffix pkg) = Ok (Flag fv).

(** The type checker has recorded an object for the field name [id] (the
    generator does not look up blank names). *)
Definition declared (pkg : Package) (id : ast.Ident) : Prop :=
  ast.Name id = "_" \/ is_Some (defs pkg !! ast.addr id).

(** The spec declares a type whose name is not [T]. *)
Definition declaresOther (T : string) (spec : ast.Spec) : Prop :=
  exists tname ttype, spec = ast.TypeSpec tname ttype /\ ast.Name tname <> T.

(** [T] is found in package [p]. *)
Definition foundIn (p : Package) (T : string) : bool :=
  match findStructTypeFile p T with
  | Ok (Some _) => true
  | _ => false
  end.

Definition notFoundIn (p : Package) (T : string) : bool := negb (foundIn p T).

(** The locator as the specification words it: the packages are taken in
    order; each one resolves the still unresolved names it declares, and
    hands the others to the next one.  [locate] lists, package by package,
    the names resolved there; [unresolved] is what is left at the end. *)
Fixpoint locate (pkgs : list Package) (names : list string) : list (list string) :=
  match pkgs with
  | [] => []
  | p :: rest =>
      List.filter (foundIn p) names :: locate rest (List.filter (notFoundIn p) names)
  end.

Fixpoint unresolved (pkgs : list Package) (names : list string) : list string :=
  match pkgs with
  | [] => names
  | p :: rest => unresolved rest (List.filter (notFoundIn p) names)
  end.

(** The source types emitted into a buffer, and into a written file. *)
Definition bodies (cs : list Chunk) : list string :=
  flat_map (fun c => match c with
                     | Body t => [SourceTypeName t]
                     | Header _ => []
                     end) cs.

Definition emittedNames (w : Written) : list string := bodies (src w).

Definition nonEmpty (l : list string) : bool :=
  match l with [] => false | _ => true end.

(** The scan of one file for [T], from the reset state. *)
Definition scanFile (p : Package) (T : string) (f : File) : Result File :=
  Inspect p (file f)
    {| file := file f; sourceTypeName := T; foundSourceType := None;
       flagValues := []; flagsSize := 0 |}.

(** The [type] declarations that the walk of [Inspect] reaches, in order,
    each one as its list of specs.  The walk does not go below a [type]
    declaration. *)
Fixpoint typeDecls (n : ast.Node) : list (list ast.Spec) :=
  match n with
  | ast.GenDecl ast.TYPE specs _ => [specs]
  | ast.GenDecl _ _ below => flat_map typeDecls below
  | ast.OtherNode below => flat_map typeDecls below
  end.

(** What [genStructDecl] does on a [type] declaration, and on a sequence of
    them. *)
Definition visitDecl (pkg : Package) (f : File) (specs : list ast.Spec)
    : Result File :=
  f ← genStructDecl_specs pkg f specs;
  Ok {| file := file f;
        sourceTypeName := sourceTypeName f;
        foundSourceType := foundSourceType f;
        flagValues := flagValues f;
        flagsSize := flagSize (Z.of_nat (length (flagValues f))) |}.

Fixpoint visitDecls (pkg : Package) (decls : list (list ast.Spec)) (f : File)
    : Result File :=
  match decls with
  | [] => Ok f
  | specs :: decls => f ← visitDecl pkg f specs; visitDecls pkg decls f
  end.


(** The spec declares the name [T]. *)
Definition declares (T : string) (spec : ast.Spec) : Prop :=
  exists tname ttype, spec = ast.TypeSpec tname ttype /\ ast.Name tname = T.

(** The source types of a written file with the names of the types generated
    for them. *)
Definition pairings (w : Written) : list (string * string) :=
  flat_map (fun c => match c with
                     | Body t => [(SourceTypeName t, OutTypeName t)]
                     | Header _ => []
                     end) (src w).

End genflagged_spec.

Module flagged_strings_spec.

(** The values of the type [T]. *)
Definition valueOf (T : flagged.Width) (f : Z) : Prop := 0 <= f < 2 ^ flagged.Size T.

(** The binary digits of [f] for the bit indexes [size - i - 1], [i] in [l]. *)
Definition binaryDigit (b : bool) : ascii := if b then "1"%char else "0"%char.

Fixpoint binaryDigits (f size : Z) (l : list Z) : string :=
  match l with
  | [] => EmptyString
  | i :: l =>
      String.String (binaryDigit (Z.testbit f (size - i - 1))) (binaryDigits f size l)
  end.

(** The number that a string of binary digits denotes, most significant
    digit first. *)
Fixpoint parseBinary (s : string) (acc : Z) : Z :=
  match s with
  | EmptyString => acc
  | String.String c s =>
      parseBinary s (2 * acc + (if Ascii.eqb c "1" then 1 else 0))
  end.

(** The pretty form: [I] or [O] for each bit, each but the last followed by
    a separator, [_] after every eighth bit and [|] elsewhere. *)
Definition prettyDigit (b : bool) : ascii := if b then "I"%char else "O"%char.

Definition separator (size i : Z) : string :=
  if i =? size - 1 then ""
  else if (i + 1) mod 8 =? 0 then "_"
  else "|".

Fixpoint prettyDigits (f size : Z) (l : list Z) : string :=
  match l with
  | [] => EmptyString
  | i :: l =>
      String.String (prettyDigit (Z.testbit f (size - i - 1)))
        (separator size i +:+ prettyDigits f size l)
  end.

(** A pretty string without its separators and with binary digits. *)
Fixpoint plain (s : string) : string :=
  match s with
  | EmptyString => EmptyString
  | String.String c s =>
      if Ascii.eqb c "I" then String.String "1" (plain s)
      else if Ascii.eqb c "O" then String.String "0" (plain s)
      else if Ascii.eqb c "|" || Ascii.eqb c "_" then plain s
      else String.String c (plain s)
  end.

(** The panic message of an index operation: the index in decimal when it
    has at most two digits, then the valid range. *)
Definition panicMessage (T : flagged.Width) (idx : Z) : string :=
  "index " +:+
  (if (-100 <? idx) && (idx <? 100) then pretty idx +:+ " " else "") +:+
  "out of range [0.." +:+ pretty (flagged.Size T - 1) +:+ "]".

Definition panicMessage_check (T : flagged.Width) (idx : Z) : bool :=
  if (idx <? 0) || (idx >=? flagged.Size T) then
    match flagged.validateBitIndex (flagged.Size T) idx with
    | Panic m => String.eqb m (panicMessage T idx) && (len m <=? 30)
    | _ => false
    end
  else true.

End flagged_strings_spec.

(** * Vocabulary for the runs of the generator *)

Module genflagged_run_spec.
Import genflagged genflagged_spec.

(** An emitted type has one of the four widths, at least one flag and no
    more flags than bits; its interface is named after it. *)
Definition wellFormedBody (t : templateTypeInput) : Prop :=
  In (OutTypeSize t) supportedWidths /\
  1 <= Z.of_nat (length (FlagValues t)) <= OutTypeSize t /\
  OutInterfaceName t = OutTypeName t +:+ "Interface".

Definition isBody (c : Chunk) : Prop :=
  match c with
  | Body t => wellFormedBody t
  | Header _ => False
  end.

(** A written file: the header of one of the packages, then one emitted
    type or more. *)
Definition wellFormedFile (pkgs : list Package) (w : Written) : Prop :=
  exists p c cs,
    In p pkgs /\ src w = Header (name p) :: c :: cs /\ Forall isBody (c :: cs).

(** The [-size] argument that [validateFlags] lets through. *)
Definition supportedSize (p : Package) : Prop :=
  wantSize p = 0 \/ In (wantSize p) supportedWidths.

(** No package declares [T]. *)
Definition declaredNowhere (pkgs : list Package) (T : string) : bool :=
  forallb (fun p => notFoundIn p T) pkgs.

(** The name of the type generated for the source type [T] requested at the
    position [idx]: the name at that position of [-outType], unless it is
    absent, empty or [_]. *)
Definition outTypeNameFor (outs : list string) (idx : nat) (T : string) : string :=
  match outs !! idx with
  | Some o =>
      if bool_decide (o = "_") || bool_decide (o = "") then T +:+ "BitFlags" else o
  | None => T +:+ "BitFlags"
  end.

(** The requested names from the position [idx] on, each with the name of
    its generated type. *)
Fixpoint requestedPairs (outs : list string) (idx : nat) (names : list string)
    : list (string * string) :=
  match names with
  | [] => []
  | T :: names => (T, outTypeNameFor outs idx T) :: requestedPairs outs (S idx) names
  end.

Definition chunkPairs (cs : list Chunk) : list (string * string) :=
  flat_map (fun c => match c with
                     | Body t => [(SourceTypeName t, OutTypeName t)]
                     | Header _ => []
                     end) cs.

(** A file of [p] in which the walk reaches a declaration of a type named
    [T], at package level or in the body of a function. *)
Definition declaredIn (T : string) (f : File) : Prop :=
  Exists (Exists (declares T)) (typeDecls (file f)).

(** The packages [x_test]. *)
Definition isTest (p : Package) : bool := HasSuffix (name p) "_test".

(** What [sort.Slice] promises of its result: no element is less than one
    before it. *)
Fixpoint ordered (less : Package -> Package -> bool) (l : list Package) : Prop :=
  match l with
  | [] => True
  | a :: l => Forall (fun b => less b a = false) l /\ ordered less l
  end.

(** The upper-case letter of an ASCII lower-case letter. *)
Definition asciiUpper (c : ascii) : ascii :=
  if (97 <=? byteZ c) && (byteZ c <=? 122) then uint8 (byteZ c - 32) else c.

End genflagged_run_spec.

(** * Properties of the runtime *)

Module flagged_props.
Import flagged flagged_spec.

Lemma panics_not_returns {A} (r : Result A) : panics r -> ~ returns r.
Proof. intros [m ->] [a Ha]. discriminate. Qed.

Lemma in_range_not_out T idx : in_range T idx <-> ~ out_of_range T idx.
Proof. unfold in_range, out_of_range. lia. Qed.

Lemma small_returns i : 0 <= i < nSmalls -> returns (small i).
Proof.
  unfold nSmalls, small, slice. intros Hi.
  change (len digits) with 36. change (len smallsString) with 200.
  destruct (i <? 10) eqn:E; [apply Z.ltb_lt in E | apply Z.ltb_ge in E].
  - replace ((0 <=? i) && (i <=? i + 1) && (i + 1 <=? 36)) with true;
      [eexists; reflexivity |].
    symmetry. repeat (apply andb_true_intro; split); apply Z.leb_le; lia.
  - replace ((0 <=? i * 2) && (i * 2 <=? i * 2 + 2) && (i * 2 + 2 <=? 200))
      with true; [eexists; reflexivity |].
    symmetry. repeat (apply andb_true_intro; split); apply Z.leb_le; lia.
Qed.

Lemma validateBitIndex_in size idx :
  0 <= idx < size -> validateBitIndex size idx = Ok tt.
Proof.
  intros H. unfold validateBitIndex.
  replace ((idx <? 0) || (idx >=? size)) with false; [reflexivity |].
  symmetry. apply orb_false_intro; [apply Z.ltb_ge | rewrite Z.geb_leb; apply Z.leb_gt]; lia.
Qed.

Lemma validateBitIndex_out size idx :
  idx < 0 \/ idx >= size -> panics (validateBitIndex size idx).
Proof.
  intros H. unfold validateBitIndex.
  replace ((idx <? 0) || (idx >=? size)) with true.
  2:{ symmetry. apply orb_true_iff. rewrite Z.ltb_lt, Z.geb_leb, Z.leb_le. lia. }
  destruct ((- nSmalls <? idx) && (idx <? nSmalls)) eqn:E.
  - apply andb_true_iff in E as [E1 E2].
    apply Z.ltb_lt in E1, E2.
    destruct (idx <? 0) eqn:En; [apply Z.ltb_lt in En | apply Z.ltb_ge in En].
    + destruct (small_returns (- idx)) as [s Hs]; [lia |].
      rewrite Hs. eexists; reflexivity.
    + destruct (small_returns idx) as [s Hs]; [lia |].
      rewrite Hs. eexists; reflexivity.
  - eexists; reflexivity.
Qed.

Lemma bit_returns T idx : 0 <= idx -> exists m, bit T idx = Ok m.
Proof.
  intros H. unfold bit.
  replace (idx <? 0) with false by (symmetry; apply Z.ltb_ge; lia).
  eexists; reflexivity.
Qed.

Lemma panics_bind {A B} (r : Result A) (k : A -> Result B) :
  panics r -> panics (r ≫= k).
Proof. intros [m ->]. exists m. reflexivity. Qed.

Section single_index.
Context (T : Width) (f idx : Z).

Lemma is_out : out_of_range T idx -> panics (is_ T f idx).
Proof. intros H. apply panics_bind, validateBitIndex_out, H. Qed.

Lemma set_out new : out_of_range T idx -> panics (set T f idx new).
Proof. intros H. apply panics_bind, validateBitIndex_out, H. Qed.

Lemma toggle_out : out_of_range T idx -> panics (toggle T f idx).
Proof. intros H. apply panics_bind, validateBitIndex_out, H. Qed.

Hypothesis Hin : in_range T idx.

Lemma is_in : returns (is_ T f idx).
Proof.
  unfold is_. rewrite validateBitIndex_in by (unfold in_range in Hin; lia).
  destruct (bit_returns T idx) as [m Hm]; [unfold in_range in Hin; lia |].
  cbn. rewrite Hm. eexists; reflexivity.
Qed.

Lemma set_in new : returns (set T f idx new).
Proof.
  unfold set. rewrite validateBitIndex_in by (unfold in_range in Hin; lia).
  destruct (bit_returns T idx) as [m Hm]; [unfold in_range in Hin; lia |].
  cbn. rewrite Hm. eexists; reflexivity.
Qed.

Lemma toggle_in : returns (toggle T f idx).
Proof.
  unfold toggle. rewrite validateBitIndex_in by (unfold in_range in Hin; lia).
  destruct (bit_returns T idx) as [m Hm]; [unfold in_range in Hin; lia |].
  cbn. rewrite Hm. eexists; reflexivity.
Qed.
End single_index.

Lemma in_range_dec T idx : {in_range T idx} + {out_of_range T idx}.
Proof.
  unfold in_range, out_of_range.
  destruct (Z_lt_dec idx 0); [right; lia |].
  destruct (Z_ge_dec idx (Size T)); [right; lia | left; lia].
Qed.

Lemma anySet_loop_in T f idx : forall acc,
  Forall (in_range T) idx -> returns (anySet_loop T f (Size T) idx acc).
Proof.
  induction idx as [| bi rest IH]; intros acc H.
  - eexists; reflexivity.
  - inversion H as [| ? ? Hbi Hrest]; subst. cbn [anySet_loop].
    rewrite validateBitIndex_in by (unfold in_range in Hbi; lia).
    destruct (bit_returns T bi) as [m Hm]; [unfold in_range in Hbi; lia |].
    cbn. rewrite Hm. apply IH, Hrest.
Qed.

Lemma anySet_loop_out T f idx : forall acc,
  Exists (out_of_range T) idx -> panics (anySet_loop T f (Size T) idx acc).
Proof.
  induction idx as [| bi rest IH]; intros acc H.
  - inversion H.
  - cbn [anySet_loop]. destruct (in_range_dec T bi) as [Hbi | Hbi].
    + rewrite validateBitIndex_in by (unfold in_range in Hbi; lia).
      destruct (bit_returns T bi) as [m Hm]; [unfold in_range in Hbi; lia |].
      cbn. rewrite Hm. apply IH.
      inversion H as [? ? Hb | ? ? Hr]; subst; [| exact Hr].
      apply in_range_not_out in Hbi. contradiction.
    + apply panics_bind, validateBitIndex_out, Hbi.
Qed.

Lemma allSet_loop_in T f idx : forall acc,
  Forall (in_range T) idx -> returns (allSet_loop T f (Size T) idx acc).
Proof.
  induction idx as [| bi rest IH]; intros acc H.
  - eexists; reflexivity.
  - inversion H as [| ? ? Hbi Hrest]; subst. cbn [allSet_loop].
    rewrite validateBitIndex_in by (unfold in_range in Hbi; lia).
    destruct (bit_returns T bi) as [m Hm]; [unfold in_range in Hbi; lia |].
    cbn. rewrite Hm. apply IH, Hrest.
Qed.

Lemma allSet_loop_out T f idx : forall acc,
  Exists (out_of_range T) idx -> panics (allSet_loop T f (Size T) idx acc).
Proof.
  induction idx as [| bi rest IH]; intros acc H.
  - inversion H.
  - cbn [allSet_loop]. destruct (in_range_dec T bi) as [Hbi | Hbi].
    + rewrite validateBitIndex_in by (unfold in_range in Hbi; lia).
      destruct (bit_returns T bi) as [m Hm]; [unfold in_range in Hbi; lia |].
      cbn. rewrite Hm. apply IH.
      inversion H as [? ? Hb | ? ? Hr]; subst; [| exact Hr].
      apply in_range_not_out in Hbi. contradiction.
    + apply panics_bind, validateBitIndex_out, Hbi.
Qed.

Lemma anySet_in T f idx : Forall (in_range T) idx -> returns (anySet T f idx).
Proof.
  intros H. unfold anySet. destruct idx; [eexists; reflexivity |].
  cbn [length]. replace (Z.of_nat (S (length idx)) =? 0) with false
    by (symmetry; apply Z.eqb_neq; lia).
  apply anySet_loop_in, H.
Qed.

Lemma anySet_out T f idx : Exists (out_of_range T) idx -> panics (anySet T f idx).
Proof.
  intros H. unfold anySet. destruct idx; [inversion H |].
  cbn [length]. replace (Z.of_nat (S (length idx)) =? 0) with false
    by (symmetry; apply Z.eqb_neq; lia).
  apply anySet_loop_out, H.
Qed.

Lemma allSet_in T f idx : Forall (in_range T) idx -> returns (allSet T f idx).
Proof.
  intros H. unfold allSet. destruct idx; [eexists; reflexivity |].
  cbn [length]. replace (Z.of_nat (S (length idx)) =? 0) with false
    by (symmetry; apply Z.eqb_neq; lia).
  apply allSet_loop_in, H.
Qed.

Lemma allSet_out T f idx : Exists (out_of_range T) idx -> panics (allSet T f idx).
Proof.
  intros H. unfold allSet. destruct idx; [inversion H |].
  cbn [length]. replace (Z.of_nat (S (length idx)) =? 0) with false
    by (symmetry; apply Z.eqb_neq; lia).
  apply allSet_loop_out, H.
Qed.

Lemma fails_exactly_when_intro {A} (r : Result A) (bad : Prop) :
  {bad} + {~ bad} -> (bad -> panics r) -> (~ bad -> returns r) ->
  fails_exactly_when r bad.
Proof.
  intros Hdec Hp Hr. split; split; auto.
  - intros Hpanics. destruct Hdec as [Hb | Hb]; [exact Hb |].
    destruct (panics_not_returns r Hpanics (Hr Hb)).
  - intros Hreturns Hb. exact (panics_not_returns r (Hp Hb) Hreturns).
Qed.

Lemma out_of_range_dec T idx : {out_of_range T idx} + {~ out_of_range T idx}.
Proof.
  destruct (in_range_dec T idx) as [H | H]; [right | left; exact H].
  apply in_range_not_out, H.
Qed.

Lemma Exists_out_of_range_dec T idxs :
  {Exists (out_of_range T) idxs} + {~ Exists (out_of_range T) idxs}.
Proof. apply Exists_dec, out_of_range_dec. Qed.

Lemma not_Exists_out_of_range T idxs :
  ~ Exists (out_of_range T) idxs <-> Forall (in_range T) idxs.
Proof.
  rewrite <- Forall_Exists_neg. apply Forall_iff. intros idx.
  symmetry. apply in_range_not_out.
Qed.

(** C9.  For each of the four widths, every flags value and every index, the
    index-taking operations [Is], [Set], [Reset], [SetTo] and [Toggle] panic
    exactly when [idx < 0 || idx >= Size()], and return otherwise, that is
    for every index in [[0, Size()-1]]; [AnyOf] and [AllOf] panic exactly
    when one of the given indexes is out of range.  A panic is the [Panic]
    outcome, which a caller can recover; it is not the end of the process. *)
Theorem index_operations_panic_exactly_out_of_range
    (T : Width) (f idx : Z) (new : bool) (idxs : list Z) :
  (in_range T idx <-> ~ out_of_range T idx) /\
  fails_exactly_when (Is T f idx) (out_of_range T idx) /\
  fails_exactly_when (Set_ T f idx) (out_of_range T idx) /\
  fails_exactly_when (Reset T f idx) (out_of_range T idx) /\
  fails_exactly_when (SetTo T f idx new) (out_of_range T idx) /\
  fails_exactly_when (Toggle T f idx) (out_of_range T idx) /\
  fails_exactly_when (AnyOf T f idxs) (Exists (out_of_range T) idxs) /\
  fails_exactly_when (AllOf T f idxs) (Exists (out_of_range T) idxs).
Proof.
  unfold Is, Set_, Reset, SetTo, Toggle, AnyOf, AllOf.
  assert (Hone : forall A (r : Result A),
            (out_of_range T idx -> panics r) -> (in_range T idx -> returns r) ->
            fails_exactly_when r (out_of_range T idx)).
  { intros A r Hp Hr. apply fails_exactly_when_intro;
      [apply out_of_range_dec | exact Hp |].
    intros H. apply Hr, in_range_not_out, H. }
  assert (Hmany : forall A (r : Result A),
            (Exists (out_of_range T) idxs -> panics r) ->
            (Forall (in_range T) idxs -> returns r) ->
            fails_exactly_when r (Exists (out_of_range T) idxs)).
  { intros A r Hp Hr. apply fails_exactly_when_intro;
      [apply Exists_out_of_range_dec | exact Hp |].
    intros H. apply Hr, not_Exists_out_of_range, H. }
  split; [apply in_range_not_out |].
  split; [apply Hone; [apply is_out | apply is_in] |].
  split; [apply Hone; [apply set_out | intros H; apply set_in, H] |].
  split; [apply Hone; [apply set_out | intros H; apply set_in, H] |].
  split; [apply Hone; [apply set_out | intros H; apply set_in, H] |].
  split; [apply Hone; [apply toggle_out | apply toggle_in] |].
  split; [apply Hmany; [apply anySet_out | apply anySet_in] |].
  apply Hmany; [apply allSet_out | apply allSet_in].
Qed.

(** The theorem at [BitFlags8]: index 8 is refused, index 7 is served, and
    one bad index among good ones makes [AnyOf] panic. *)
Lemma index_operations_witness :
  (out_of_range BitFlags8 8 /\ ~ out_of_range BitFlags8 7 /\
   Exists (out_of_range BitFlags8) [0; -1; 3] /\
   ~ Exists (out_of_range BitFlags8) [0; 7]) /\
  (panics (Is BitFlags8 5 8) /\ returns (Toggle BitFlags8 5 7) /\
   panics (AnyOf BitFlags8 5 [0; -1; 3]) /\ returns (AllOf BitFlags8 5 [0; 7])).
Proof.
  assert (H1 : out_of_range BitFlags8 8) by (right; cbn; lia).
  assert (H2 : ~ out_of_range BitFlags8 7) by (unfold out_of_range; cbn; lia).
  assert (H3 : Exists (out_of_range BitFlags8) [0; -1; 3])
    by (apply Exists_cons_tl, Exists_cons_hd; left; lia).
  assert (H4 : ~ Exists (out_of_range BitFlags8) [0; 7]).
  { apply not_Exists_out_of_range. repeat constructor; cbn; lia. }
  split; [auto |].
  destruct (index_operations_panic_exactly_out_of_range BitFlags8 5 8 true [0; -1; 3])
    as (_ & [Ha _] & _ & _ & _ & _ & [Hc _] & _).
  destruct (index_operations_panic_exactly_out_of_range BitFlags8 5 7 true [0; 7])
    as (_ & _ & _ & _ & _ & [_ Hb] & _ & [_ Hd]).
  split; [apply Ha, H1 |].
  split; [apply Hb, H2 |].
  split; [apply Hc, H3 | apply Hd, H4].
Defined.

Example Is_out_of_range_message :
  Is BitFlags8 5 8 = Panic "index 8 out of range [0..7]" /\
  Is BitFlags16 0 (-42) = Panic "index -42 out of range [0..15]" /\
  Is BitFlags64 0 1000 = Panic "index out of range [0..63]".
Proof. repeat split. Qed.

Example Set_then_Is :
  Set_ BitFlags8 0 3 = Ok (false, 8) /\ Is BitFlags8 8 3 = Ok true /\
  Reset BitFlags8 8 3 = Ok (true, 0) /\ Toggle BitFlags8 8 3 = Ok (false, 0).
Proof. repeat split. Qed.

End flagged_props.

(** * Properties of the byte-string functions *)

Module bytes_props.
Import bytes_spec.

Lemma byteZ_range c : 0 <= byteZ c < 256.
Proof.
  unfold byteZ. pose proof (N_ascii_bounded c) as H. lia.
Qed.

Lemma uint8_byteZ c : uint8 (byteZ c) = c.
Proof.
  unfold uint8. pose proof (byteZ_range c) as H.
  rewrite Z.mod_small by lia. unfold byteZ.
  rewrite N2Z.id. apply ascii_N_embedding.
Qed.

Lemma str_app_cons (c : ascii) (s t : string) :
  String.String c s +:+ t = String.String c (s +:+ t).
Proof. reflexivity. Qed.

Lemma str_app_nil_l (t : string) : "" +:+ t = t.
Proof. reflexivity. Qed.

Lemma str_length_app (s t : string) :
  String.length (s +:+ t) = (String.length s + String.length t)%nat.
Proof. induction s as [| c s IH]; simpl; [reflexivity | f_equal; exact IH]. Qed.

Lemma substring_all (s : string) : substring 0 (String.length s) s = s.
Proof. induction s as [| c s IH]; simpl; [reflexivity | f_equal; exact IH]. Qed.

Lemma substring_none (n : nat) (s : string) : substring n 0 s = "".
Proof.
  revert n. induction s as [| c s IH]; intros [| n]; simpl; try reflexivity.
  apply IH.
Qed.

Lemma substring_app_l (s t : string) : substring 0 (String.length s) (s +:+ t) = s.
Proof.
  induction s as [| c s IH]; simpl; [apply substring_none |].
  f_equal. exact IH.
Qed.

Lemma substring_app_r (s t : string) (m : nat) :
  substring (String.length s) m (s +:+ t) = substring 0 m t.
Proof. induction s as [| c s IH]; simpl; [reflexivity | exact IH]. Qed.

(** A string is its first [n] bytes followed by the others. *)
Lemma substring_split (s : string) : forall n,
  (n <= String.length s)%nat ->
  s = substring 0 n s +:+ substring n (String.length s - n) s.
Proof.
  induction s as [| c s IH]; intros [| n] Hn; simpl in *; try reflexivity.
  - rewrite substring_all. reflexivity.
  - change (String.String c s
            = String.String c (substring 0 n s +:+ substring n (String.length s - n) s)).
    rewrite <- IH by lia. reflexivity.
Qed.

Lemma str_app_inv_head (p s t : string) : p +:+ s = p +:+ t -> s = t.
Proof.
  induction p as [| c p IH]; rewrite ?str_app_nil_l, ?str_app_cons; [auto |].
  intros H. injection H. exact IH.
Qed.

Lemma str_app_nil_r (s : string) : s +:+ "" = s.
Proof.
  induction s as [| c s IH]; [reflexivity |].
  rewrite str_app_cons, IH. reflexivity.
Qed.

Lemma str_app_inv_tail (p : string) : forall s t, s +:+ p = t +:+ p -> s = t.
Proof.
  intros s. induction s as [| c s IH]; intros [| d t] H.
  - reflexivity.
  - apply (f_equal String.length) in H. rewrite !str_length_app in H. simpl in H. lia.
  - apply (f_equal String.length) in H. rewrite !str_length_app in H. simpl in H. lia.
  - rewrite !str_app_cons in H. injection H as -> H. rewrite (IH t H). reflexivity.
Qed.

Lemma HasPrefix_iff (s p : string) :
  HasPrefix s p = true <-> exists rest, s = p +:+ rest.
Proof.
  unfold HasPrefix, len. rewrite andb_true_iff, bool_decide_eq_true, Z.geb_leb, Z.leb_le.
  split.
  - intros [Hlen Hsub]. eexists.
    rewrite <- Hsub at 1. apply substring_split. lia.
  - intros [rest ->]. rewrite str_length_app, substring_app_l. split; [lia | reflexivity].
Qed.

Lemma HasSuffix_iff (s p : string) :
  HasSuffix s p = true <-> exists rest, s = rest +:+ p.
Proof.
  unfold HasSuffix, len. rewrite andb_true_iff, bool_decide_eq_true, Z.geb_leb, Z.leb_le.
  split.
  - intros [Hlen Hsub].
    exists (substring 0 (String.length s - String.length p) s).
    pose proof (substring_split s (String.length s - String.length p)
                  ltac:(lia)) as Hs.
    replace (String.length s - (String.length s - String.length p))%nat
      with (String.length p) in Hs by lia.
    rewrite Hsub in Hs. exact Hs.
  - intros [rest ->]. rewrite str_length_app.
    replace (String.length rest + String.length p - String.length p)%nat
      with (String.length rest) by lia.
    rewrite substring_app_r, substring_all. split; [lia | reflexivity].
Qed.

Lemma TrimPrefix_iff (s p r : string) : TrimPrefix s p = r <-> withoutPrefix s p r.
Proof.
  unfold TrimPrefix, withoutPrefix.
  destruct (HasPrefix s p) eqn:H.
  - apply HasPrefix_iff in H as [rest ->]. rewrite str_length_app.
    replace (String.length p + String.length rest - String.length p)%nat
      with (String.length rest) by lia.
    rewrite substring_app_r, substring_all. split.
    + intros <-. left. reflexivity.
    + intros [Heq | [Hno _]]; [apply str_app_inv_head in Heq; exact Heq |].
      destruct (Hno rest). reflexivity.
  - split.
    + intros <-. right. split; [| reflexivity]. intros rest ->.
      assert (Ht : HasPrefix (p +:+ rest) p = true) by (apply HasPrefix_iff; eauto).
      congruence.
    + intros [-> | [_ ->]]; [| reflexivity].
      assert (Ht : HasPrefix (p +:+ r) p = true) by (apply HasPrefix_iff; eauto).
      congruence.
Qed.

Lemma TrimSuffix_iff (s p r : string) : TrimSuffix s p = r <-> withoutSuffix s p r.
Proof.
  unfold TrimSuffix, withoutSuffix.
  destruct (HasSuffix s p) eqn:H.
  - apply HasSuffix_iff in H as [rest ->]. rewrite str_length_app.
    replace (String.length rest + String.length p - String.length p)%nat
      with (String.length rest) by lia.
    rewrite substring_app_l. split.
    + intros <-. left. reflexivity.
    + intros [Heq | [Hno _]]; [apply str_app_inv_tail in Heq; exact Heq |].
      destruct (Hno rest). reflexivity.
  - split.
    + intros <-. right. split; [| reflexivity]. intros rest ->.
      assert (Ht : HasSuffix (rest +:+ p) p = true) by (apply HasSuffix_iff; eauto).
      congruence.
    + intros [-> | [_ ->]]; [| reflexivity].
      assert (Ht : HasSuffix (r +:+ p) p = true) by (apply HasSuffix_iff; eauto).
      congruence.
Qed.

Lemma TrimPrefix_empty (s : string) : TrimPrefix s "" = s.
Proof. apply TrimPrefix_iff. left. reflexivity. Qed.

Lemma TrimSuffix_empty (s : string) : TrimSuffix s "" = s.
Proof. apply TrimSuffix_iff. left. rewrite str_app_nil_r. reflexivity. Qed.

(** Upper-casing a byte of the ASCII range: the letters [a..z] move to
    [A..Z] and every other byte is kept. *)
Lemma ToUpper_ascii (c : ascii) :
  byteZ c < 128 ->
  uint8 (unicode_ToUpper (byteZ c)) =
  if (97 <=? byteZ c) && (byteZ c <=? 122) then uint8 (byteZ c - 32) else c.
Proof.
  intros H. unfold unicode_ToUpper.
  replace (byteZ c <=? 127) with true by (symmetry; apply Z.leb_le; lia).
  destruct ((97 <=? byteZ c) && (byteZ c <=? 122)); [reflexivity |].
  apply uint8_byteZ.
Qed.

End bytes_props.

(** * Properties of the generator *)

Module genflagged_props.
Import genflagged bytes_spec genflagged_spec.

(** Case analysis on the integer comparisons of the goal. *)
Ltac zcmp :=
  repeat match goal with
  | |- context [?a >? ?b] => rewrite (Z.gtb_ltb a b)
  | |- context [?a >=? ?b] => rewrite (Z.geb_leb a b)
  | |- context [?a <? ?b] => destruct (Z.ltb_spec a b)
  | |- context [?a <=? ?b] => destruct (Z.leb_spec a b)
  | |- context [?a =? ?b] => destruct (Z.eqb_spec a b)
  end; cbn [andb orb negb].

(** ** Sizing policy *)

Lemma flagSize_cases n :
  (1 <= n <= 8 -> flagSize n = 8) /\
  (9 <= n <= 16 -> flagSize n = 16) /\
  (17 <= n <= 32 -> flagSize n = 32) /\
  (33 <= n <= 64 -> flagSize n = 64) /\
  (n <= 0 \/ 64 < n -> flagSize n = n).
Proof. unfold flagSize. repeat split; intros H; zcmp; lia. Qed.

Lemma flagSize_supported n :
  1 <= n <= 64 -> In (flagSize n) supportedWidths.
Proof.
  intros Hn. destruct (flagSize_cases n) as (H8 & H16 & H32 & H64 & _).
  unfold supportedWidths. cbn [In].
  assert (Hc : n <= 8 \/ 9 <= n <= 16 \/ 17 <= n <= 32 \/ 33 <= n) by lia.
  destruct Hc as [Hc | [Hc | [Hc | Hc]]];
    [rewrite H8 by lia | rewrite H16 by lia | rewrite H32 by lia | rewrite H64 by lia];
    auto.
Qed.

(** C2.  For a field count [n] with [1 <= n <= 64], [flagSize n] is the
    smallest of the widths 8, 16, 32 and 64 that is at least [n]: 8 for
    1..8, 16 for 9..16, 32 for 17..32 and 64 for 33..64. *)
Theorem flagSize_smallest_width (n : Z) :
  1 <= n <= 64 ->
  In (flagSize n) supportedWidths /\
  n <= flagSize n /\
  (forall w, In w supportedWidths -> n <= w -> flagSize n <= w) /\
  (n <= 8 -> flagSize n = 8) /\
  (9 <= n <= 16 -> flagSize n = 16) /\
  (17 <= n <= 32 -> flagSize n = 32) /\
  (33 <= n -> flagSize n = 64).
Proof.
  intros Hn. destruct (flagSize_cases n) as (H8 & H16 & H32 & H64 & _).
  unfold supportedWidths. cbn [In].
  assert (Hc : n <= 8 \/ 9 <= n <= 16 \/ 17 <= n <= 32 \/ 33 <= n) by lia.
  destruct Hc as [Hc | [Hc | [Hc | Hc]]].
  - rewrite H8 by lia. repeat split; intros; lia.
  - rewrite H16 by lia. repeat split; intros; lia.
  - rewrite H32 by lia. repeat split; intros; lia.
  - rewrite H64 by lia. repeat split; intros; lia.
Qed.

Lemma flagSize_smallest_width_witness :
  1 <= 9 <= 64 /\ flagSize 9 = 16 /\
  (forall w, In w supportedWidths -> 9 <= w -> 16 <= w).
Proof.
  split; [lia |].
  destruct (flagSize_smallest_width 9 ltac:(lia)) as (_ & _ & Hmin & _).
  split; [reflexivity | exact Hmin].
Defined.

(** ** The walk over a file *)

(** Induction on syntax trees, with the hypothesis on all children. *)
Fixpoint Node_forall_ind (P : ast.Node -> Prop)
    (Hgen : forall tok specs below,
        Forall P below -> P (ast.GenDecl tok specs below))
    (Hother : forall below, Forall P below -> P (ast.OtherNode below))
    (n : ast.Node) : P n :=
  let children :=
    fix children (l : list ast.Node) : Forall P l :=
      match l with
      | [] => List.Forall_nil P
      | c :: l' =>
          List.Forall_cons P c l' (Node_forall_ind P Hgen Hother c) (children l')
      end in
  match n with
  | ast.GenDecl tok specs below => Hgen tok specs below (children below)
  | ast.OtherNode below => Hother below (children below)
  end.

Lemma Inspect_unfold pkg node f :
  Inspect pkg node f =
  '(f, descend) ← genStructDecl pkg f (Some node);
  if descend : bool then
    f ← Inspect_children pkg (below node) f;
    '(f, _) ← genStructDecl pkg f None;
    Ok f
  else Ok f.
Proof. destruct node; reflexivity. Qed.

Lemma genStructDecl_nil pkg f : genStructDecl pkg f None = Ok (f, true).
Proof. reflexivity. Qed.

Lemma bind_Ok_inv {A B} (r : Result A) (k : A -> Result B) b :
  r ≫= k = Ok b -> exists a, r = Ok a /\ k a = Ok b.
Proof. destruct r; cbn; intros H; [eauto | discriminate..]. Qed.

Section preserved.
Context (pkg : Package) (J : File -> Prop).
Hypothesis Hstep : forall f node f' b,
  J f -> genStructDecl pkg f node = Ok (f', b) -> J f'.

Lemma Inspect_preserves node : forall f f',
  J f -> Inspect pkg node f = Ok f' -> J f'.
Proof.
  induction node as [tok specs bel IH | bel IH] using Node_forall_ind;
    intros f f' HJ; rewrite Inspect_unfold; intros H;
    apply bind_Ok_inv in H as ([f1 d] & H1 & H);
    pose proof (Hstep _ _ _ _ HJ H1) as HJ1;
    (destruct d; [| injection H as <-; exact HJ1]);
    apply bind_Ok_inv in H as (f2 & H2 & H);
    rewrite genStructDecl_nil in H; injection H as <-;
    cbn [below] in H2; clear H1 HJ;
    revert f1 HJ1 H2;
    (induction IH as [| c l Hc _ IHl]; intros f1 HJ1 H2;
     [injection H2 as <-; exact HJ1 |]);
    cbn [Inspect_children] in H2;
    apply bind_Ok_inv in H2 as (f3 & H3 & H2);
    eauto.
Qed.
End preserved.

Lemma genStructDecl_sized pkg f node f' b :
  sized f -> genStructDecl pkg f node = Ok (f', b) -> sized f'.
Proof.
  intros HJ H. destruct node as [[[] specs bel | bel] |]; cbn in H;
    try (injection H as <- _; exact HJ).
  apply bind_Ok_inv in H as (f1 & _ & H). injection H as <- _. reflexivity.
Qed.

Lemma genStructDecl_specs_sourceTypeName pkg specs : forall f f',
  genStructDecl_specs pkg f specs = Ok f' -> sourceTypeName f' = sourceTypeName f.
Proof.
  induction specs as [| spec rest IH]; intros f f' H; cbn in H.
  - injection H as <-. reflexivity.
  - destruct spec as [tname ttype |]; [| discriminate].
    destruct (negb _); [eauto |].
    destruct (defs pkg !! ast.addr tname); [| discriminate].
    destruct ttype; try (apply IH in H; exact H).
    apply bind_Ok_inv in H as (fvs & _ & H). apply IH in H. exact H.
Qed.

Lemma genStructDecl_sourceTypeName pkg T f node f' b :
  sourceTypeName f = T -> genStructDecl pkg f node = Ok (f', b) ->
  sourceTypeName f' = T.
Proof.
  intros HJ H. destruct node as [[[] specs bel | bel] |]; cbn in H;
    try (injection H as <- _; exact HJ).
  apply bind_Ok_inv in H as (f1 & H1 & H). injection H as <- _. cbn.
  apply genStructDecl_specs_sourceTypeName in H1. congruence.
Qed.

(** A file returned by [findStructTypeFile] has a found type, was scanned
    for the requested name, is one of the files of the package, and its
    size is the one [flagSize] gives for its number of flags. *)
Lemma findStructTypeFile_loop_found pkg T fs f :
  findStructTypeFile_loop pkg T fs = Ok (Some f) ->
  is_Some (foundSourceType f) /\ sourceTypeName f = T /\ sized f.
Proof.
  induction fs as [| f0 rest IH]; cbn; [discriminate |].
  intros H. apply bind_Ok_inv in H as (f1 & H1 & H).
  destruct (foundSourceType f1) as [o |] eqn:Ho; [| auto].
  injection H as <-. split; [rewrite Ho; eauto |]. split.
  - eapply (Inspect_preserves pkg (fun f => sourceTypeName f = T));
      [| | exact H1]; [apply genStructDecl_sourceTypeName | reflexivity].
  - eapply (Inspect_preserves pkg sized); [| | exact H1];
      [apply genStructDecl_sized | reflexivity].
Qed.

Lemma findStructTypeFile_found pkg T f :
  findStructTypeFile pkg T = Ok (Some f) ->
  is_Some (foundSourceType f) /\ sourceTypeName f = T /\ sized f.
Proof. apply findStructTypeFile_loop_found. Qed.

(** ** Emission of one type *)

Lemma generateForStruct_too_many g T out f :
  64 < flagsSize f ->
  generateForStruct g T out f =
  Fatal "error: type %s contains %d bool fields which is more than supported; maximum supported is 64"
    [AStr T; AInt (flagsSize f)].
Proof. intros H. unfold generateForStruct. zcmp; try lia; reflexivity. Qed.

Lemma generateForStruct_too_small g T out f :
  flagsSize f <= 64 -> 0 < wantSize (pkg g) < flagsSize f ->
  generateForStruct g T out f =
  Fatal "error: type %s flags size is too small; required at least %d, requested %d"
    [AStr T; AInt (flagsSize f); AInt (wantSize (pkg g))].
Proof. intros H1 H2. unfold generateForStruct. zcmp; try lia; reflexivity. Qed.

Lemma generateForStruct_default g T out f :
  flagsSize f <= 64 -> wantSize (pkg g) = 0 ->
  generateForStruct g T out f = Ok (emit g T out (flagsSize f) f).
Proof.
  intros H1 H2. unfold generateForStruct. rewrite H2. zcmp; try lia; reflexivity.
Qed.

Lemma generateForStruct_override g T out f :
  flagsSize f <= 64 -> wantSize (pkg g) <> 0 -> flagsSize f <= wantSize (pkg g) ->
  generateForStruct g T out f = Ok (emit g T out (wantSize (pkg g)) f).
Proof.
  intros H1 H2 H3. unfold generateForStruct. zcmp; try lia; reflexivity.
Qed.

Lemma generateForStruct_Ok_inv g T out f g' :
  generateForStruct g T out f = Ok g' ->
  exists size, g' = emit g T out size f /\ flagsSize f <= 64 /\
    (wantSize (pkg g) = 0 /\ size = flagsSize f \/
     wantSize (pkg g) <> 0 /\ size = wantSize (pkg g) /\ flagsSize f <= size).
Proof.
  unfold generateForStruct. zcmp; try discriminate; cbn;
    intros Hg; injection Hg as <-; eexists; (split; [reflexivity |]); lia.
Qed.

(** ** The loop over the requested names *)

Lemma main_types_app in_ p pre : forall rest g idx ft rt,
  main_types in_ p g idx (pre ++ rest) ft rt =
  '(g', ft', rt') ← main_types in_ p g idx pre ft rt;
  main_types in_ p g' (idx + length pre)%nat rest ft' rt'.
Proof.
  induction pre as [| T pre IH]; intros rest g idx ft rt.
  - cbn. rewrite Nat.add_0_r. reflexivity.
  - cbn [app main_types length].
    replace (idx + S (length pre))%nat with (S idx + length pre)%nat by lia.
    destruct (chooseOutTypeName in_ idx T) as [out | m | fmt a]; cbn;
      [| reflexivity | reflexivity].
    destruct (findStructTypeFile p T) as [[f |] | m | fmt a]; cbn;
      [| apply IH | reflexivity | reflexivity].
    destruct (negb (isValidStructFile f)).
    + destruct (foundSourceType f); reflexivity.
    + destruct (generateForStruct g T out f) as [g1 | m | fmt a]; cbn;
        [apply IH | reflexivity | reflexivity].
Qed.

Lemma main_types_pkg in_ p names : forall g idx ft rt g' ft' rt',
  main_types in_ p g idx names ft rt = Ok (g', ft', rt') -> pkg g' = pkg g.
Proof.
  induction names as [| T names IH]; intros g idx ft rt g' ft' rt' H; cbn in H.
  - injection H as <- _ _. reflexivity.
  - apply bind_Ok_inv in H as (out & _ & H).
    apply bind_Ok_inv in H as ([f |] & _ & H); [| eauto].
    destruct (negb (isValidStructFile f)).
    + destruct (foundSourceType f); discriminate.
    + apply bind_Ok_inv in H as (g1 & Hg & H). apply IH in H. rewrite H.
      apply generateForStruct_Ok_inv in Hg as (size & -> & _). reflexivity.
Qed.

(** When the requested names before [T] are served in package [p] and the
    emission of [T] ends the run, nothing is written for [p]: the files on
    disk are those of the packages before it. *)
Lemma main_pkgs_aborts_at in_ p rest disk pre T post g ft rt out f fmt args :
  sourceTypeNames in_ = pre ++ T :: post ->
  main_types in_ p (generateHeader {| buf := []; pkg := p |}) 0 pre [] []
    = Ok (g, ft, rt) ->
  chooseOutTypeName in_ (length pre) T = Ok out ->
  findStructTypeFile p T = Ok (Some f) ->
  isValidStructFile f = true ->
  generateForStruct g T out f = Fatal fmt args ->
  main_pkgs in_ (p :: rest) disk = (disk, Fatal fmt args).
Proof.
  intros Hnames Hpre Hout Hfind Hvalid Hgen.
  cbn [main_pkgs]. rewrite Hnames, main_types_app, Hpre. cbn.
  rewrite Hout. cbn. rewrite Hfind. cbn. rewrite Hvalid. cbn.
  rewrite Hgen. reflexivity.
Qed.

Lemma isValidStructFile_true f :
  isValidStructFile f = true <-> 1 <= Z.of_nat (length (flagValues f)).
Proof. unfold isValidStructFile. zcmp; split; intros; (lia || congruence). Qed.

(** C3.  For a resolved type (between 1 and 64 flags) whose minimal width is
    [m = flagSize n], and a size override [s] among 0, 8, 16, 32 and 64:
    with [s = 0] the emitted width is [m]; with [0 < s < m] the emission
    ends the run with the "flags size is too small" message, whose
    arguments are the type name, [m] and [s], and the run stops with the
    files on disk unchanged, so before anything is written for the package
    being processed; with [s >= m] the emitted width is [s]. *)
Theorem size_override_reconciled (g : Generator) (T out : string) (f : File) :
  let n := Z.of_nat (length (flagValues f)) in
  let m := flagsSize f in
  let s := wantSize (pkg g) in
  1 <= n <= 64 -> m = flagSize n -> In s [0; 8; 16; 32; 64] ->
  (s = 0 -> generateForStruct g T out f = Ok (emit g T out m f)) /\
  (0 < s < m ->
     generateForStruct g T out f =
       Fatal "error: type %s flags size is too small; required at least %d, requested %d"
         [AStr T; AInt m; AInt s] /\
     forall in_ rest disk pre post ft rt,
       sourceTypeNames in_ = pre ++ T :: post ->
       main_types in_ (pkg g) (generateHeader {| buf := []; pkg := pkg g |})
         0 pre [] [] = Ok (g, ft, rt) ->
       chooseOutTypeName in_ (length pre) T = Ok out ->
       findStructTypeFile (pkg g) T = Ok (Some f) ->
       main_pkgs in_ (pkg g :: rest) disk =
         (disk,
          Fatal "error: type %s flags size is too small; required at least %d, requested %d"
            [AStr T; AInt m; AInt s])) /\
  (s >= m -> generateForStruct g T out f = Ok (emit g T out s f)).
Proof.
  intros n m s Hn Hm Hs.
  pose proof (flagSize_supported n Hn) as Hw.
  rewrite <- Hm in Hw. unfold supportedWidths in Hw. cbn [In] in Hw, Hs.
  split; [| split].
  - intros H0. apply generateForStruct_default; [fold m; lia | exact H0].
  - intros Hsmall.
    assert (Hgen := generateForStruct_too_small g T out f ltac:(fold m; lia) Hsmall).
    split; [exact Hgen |].
    intros in_ rest disk pre post ft rt Hnames Hpre Hout Hfind.
    eapply main_pkgs_aborts_at; eauto.
    apply isValidStructFile_true. fold n. lia.
  - intros Hge. apply generateForStruct_override; fold m s; lia.
Qed.

(** Ten boolean fields and [-size=8]: the required width is 16 and the run
    stops with nothing written. *)
Lemma size_override_witness :
  let p := testdata.boolStructPackage "T" 10 8 in
  let f := testdata.scanned p "T" in
  let in_ := testdata.newInput ["T"] [] "" in
  (1 <= Z.of_nat (length (flagValues f)) <= 64 /\
   flagsSize f = flagSize (Z.of_nat (length (flagValues f))) /\
   In (wantSize p) [0; 8; 16; 32; 64] /\
   0 < wantSize p < flagsSize f) /\
  main_pkgs in_ [p] [] =
    ([], Fatal "error: type %s flags size is too small; required at least %d, requested %d"
           [AStr "T"; AInt 16; AInt 8]).
Proof.
  intros p f in_.
  assert (Hlen : Z.of_nat (length (flagValues f)) = 10) by (vm_compute; reflexivity).
  assert (Hsize : flagsSize f = 16) by (vm_compute; reflexivity).
  assert (Hwant : wantSize p = 8) by reflexivity.
  assert (H1 : 1 <= Z.of_nat (length (flagValues f)) <= 64) by lia.
  assert (H2 : flagsSize f = flagSize (Z.of_nat (length (flagValues f))))
    by (rewrite Hlen, Hsize; reflexivity).
  assert (H3 : In (wantSize (pkg (testdata.newGenerator p))) [0; 8; 16; 32; 64])
    by (right; left; reflexivity).
  assert (H4 : 0 < wantSize p < flagsSize f) by lia.
  split; [repeat split; try lia; right; left; reflexivity |].
  destruct (size_override_reconciled (testdata.newGenerator p) "T" "TBitFlags" f
              H1 H2 H3) as (_ & Hsmall & _).
  destruct (Hsmall H4) as [_ Hrun].
  assert (Hr := Hrun in_ [] [] [] [] [] [] eq_refl eq_refl
                  ltac:(vm_compute; reflexivity) ltac:(vm_compute; reflexivity)).
  change (pkg (testdata.newGenerator p)) with p in Hr.
  rewrite Hsize, Hwant in Hr. exact Hr.
Defined.

(** C4.  When the type found for a requested name has more than 64
    qualifying boolean fields, its emission ends the run with the
    "more than supported" message: its arguments are the type name and the
    number [n] of fields, and its text names the maximum, 64.  The run stops
    with the files on disk unchanged; the list of flags of the file still
    has its [n] entries and no type with 64 flags is emitted. *)
Theorem too_many_fields_fatal
    (in_ : input) (p : Package) (rest : list Package) (disk : list Written)
    (pre post : list string) (T out : string) (g : Generator)
    (ft rt : list string) (f : File) :
  let n := Z.of_nat (length (flagValues f)) in
  sourceTypeNames in_ = pre ++ T :: post ->
  main_types in_ p (generateHeader {| buf := []; pkg := p |}) 0 pre [] []
    = Ok (g, ft, rt) ->
  chooseOutTypeName in_ (length pre) T = Ok out ->
  findStructTypeFile p T = Ok (Some f) ->
  64 < n ->
  generateForStruct g T out f =
    Fatal "error: type %s contains %d bool fields which is more than supported; maximum supported is 64"
      [AStr T; AInt n] /\
  main_pkgs in_ (p :: rest) disk =
    (disk,
     Fatal "error: type %s contains %d bool fields which is more than supported; maximum supported is 64"
       [AStr T; AInt n]).
Proof.
  intros n Hnames Hpre Hout Hfind Hn.
  destruct (findStructTypeFile_found _ _ _ Hfind) as (_ & _ & Hsized).
  assert (Hsize : flagsSize f = n).
  { unfold sized in Hsized. fold n in Hsized. rewrite Hsized.
    apply flagSize_cases. lia. }
  assert (Hgen := generateForStruct_too_many g T out f ltac:(lia)).
  rewrite Hsize in Hgen. split; [exact Hgen |].
  eapply main_pkgs_aborts_at; eauto.
  apply isValidStructFile_true. fold n. lia.
Qed.

(** Sixty-five boolean fields. *)
Lemma too_many_fields_witness :
  let p := testdata.boolStructPackage "T" 65 0 in
  let f := testdata.scanned p "T" in
  let in_ := testdata.newInput ["T"] [] "" in
  (findStructTypeFile p "T" = Ok (Some f) /\
   64 < Z.of_nat (length (flagValues f))) /\
  main_pkgs in_ [p] [] =
    ([], Fatal "error: type %s contains %d bool fields which is more than supported; maximum supported is 64"
           [AStr "T"; AInt 65]).
Proof.
  intros p f in_.
  assert (Hfind : findStructTypeFile p "T" = Ok (Some f)) by (vm_compute; reflexivity).
  assert (Hlen : Z.of_nat (length (flagValues f)) = 65) by (vm_compute; reflexivity).
  split; [split; [exact Hfind | lia] |].
  assert (Hr := too_many_fields_fatal in_ p [] [] [] [] "T" "TBitFlags"
                  (testdata.newGenerator p) [] [] f eq_refl eq_refl
                  ltac:(vm_compute; reflexivity) Hfind ltac:(lia)).
  destruct Hr as [_ Hrun]. rewrite Hlen in Hrun. exact Hrun.
Defined.

(** ** The fields kept by [genStructDecl] *)

Lemma Info_IsBoolean k :
  (Z.land (types.Info k) types.IsBoolean =? 0)
  = negb (builtinBoolean (types.Basic k)).
Proof. destruct k; reflexivity. Qed.

Lemma qualifies_iff pkg id :
  qualifies pkg id = true <->
  ast.Name id <> "_" /\
  exists obj, defs pkg !! ast.addr id = Some obj /\
    (types.Unalias (types.Type_ obj) = types.Basic types.Bool \/
     types.Unalias (types.Type_ obj) = types.Basic types.UntypedBool).
Proof.
  unfold qualifies. rewrite andb_true_iff, negb_true_iff, bool_decide_eq_false.
  split.
  - intros [Hn Hq]. split; [exact Hn |].
    destruct (defs pkg !! ast.addr id) as [obj |]; [| discriminate].
    exists obj. split; [reflexivity |].
    destruct (types.Unalias (types.Type_ obj)) as [[] | | | |];
      try discriminate; auto.
  - intros [Hn (obj & -> & [-> | ->])]; auto.
Qed.

Lemma genStructDecl_names_spec pkg t names : forall acc,
  Forall (declared pkg) names ->
  Forall (fun id => returns (flagName (ast.Name id) (trimPrefix pkg) (trimSuffix pkg)))
    (List.filter (qualifies pkg) names) ->
  exists fvs,
    genStructDecl_names pkg t names acc = Ok (acc ++ fvs) /\
    Forall2 (candidate pkg) fvs (List.filter (qualifies pkg) names).
Proof.
  induction names as [| id names IH]; intros acc Hdecl Hflag.
  - exists []. rewrite app_nil_r. split; [reflexivity | constructor].
  - apply Forall_cons in Hdecl as [Hid Hdecl].
    cbn [List.filter] in *. cbn [genStructDecl_names].
    destruct (qualifies pkg id) eqn:Hq.
    + apply qualifies_iff in Hq as (Hn & obj & Hobj & Hty).
      rewrite bool_decide_eq_false_2 by exact Hn. rewrite Hobj.
      apply Forall_cons in Hflag as [[flag Hfl] Hflag].
      destruct (IH (acc ++ [{| Field := ast.Name id; Flag := flag |}]) Hdecl Hflag)
        as (fvs & Hrun & Hcands).
      exists ({| Field := ast.Name id; Flag := flag |} :: fvs).
      split; [| constructor; [split; [reflexivity | exact Hfl] | exact Hcands]].
      destruct Hty as [-> | ->]; rewrite Info_IsBoolean; cbn [builtinBoolean negb];
        rewrite Hfl; cbn; rewrite Hrun, <- app_assoc; reflexivity.
    + unfold qualifies in Hq.
      destruct (bool_decide (ast.Name id = "_")) eqn:Hblank;
        [apply IH; assumption |].
      cbn [negb andb] in Hq.
      destruct Hid as [Hid | [obj Hobj]];
        [apply bool_decide_eq_false in Hblank; contradiction |].
      rewrite Hobj in *.
      destruct (types.Unalias (types.Type_ obj)) as [k | | | |] eqn:Hty;
        try (apply IH; assumption).
      rewrite Info_IsBoolean, Hq. cbn [negb]. apply IH; assumption.
Qed.

Lemma genStructDecl_fields_spec pkg t fields : forall acc,
  Forall (fun fld => Forall (declared pkg) (ast.Names fld)) fields ->
  Forall (fun id => returns (flagName (ast.Name id) (trimPrefix pkg) (trimSuffix pkg)))
    (fieldCandidates pkg fields) ->
  exists fvs,
    genStructDecl_fields pkg t fields acc = Ok (acc ++ fvs) /\
    Forall2 (candidate pkg) fvs (fieldCandidates pkg fields).
Proof.
  induction fields as [| fld fields IH]; intros acc Hdecl Hflag.
  - exists []. rewrite app_nil_r. split; [reflexivity | constructor].
  - apply Forall_cons in Hdecl as [Hfld Hdecl].
    unfold fieldCandidates in Hflag. cbn [flat_map] in Hflag.
    apply Forall_app in Hflag as [Hflag1 Hflag2].
    destruct (genStructDecl_names_spec pkg t (ast.Names fld) acc Hfld Hflag1)
      as (fvs1 & Hrun1 & Hc1).
    destruct (IH (acc ++ fvs1) Hdecl Hflag2) as (fvs2 & Hrun2 & Hc2).
    exists (fvs1 ++ fvs2). cbn [genStructDecl_fields].
    assert (Hstep : genStructDecl_names pkg t (ast.Names fld) acc ≫=
                      (fun fvs => genStructDecl_fields pkg t fields fvs)
                    = Ok (acc ++ fvs1 ++ fvs2)).
    { rewrite Hrun1. cbn. rewrite Hrun2, <- app_assoc. reflexivity. }
    split.
    + destruct (ast.Names fld) as [| id ids] eqn:Hnames; [| exact Hstep].
      cbn in Hrun1. injection Hrun1 as Hacc.
      cbn. rewrite <- Hstep. cbn. reflexivity.
    + unfold fieldCandidates. cbn [flat_map]. apply Forall2_app; assumption.
Qed.

Lemma genStructDecl_specs_skip pkg f specs rest :
  Forall (declaresOther (sourceTypeName f)) specs ->
  genStructDecl_specs pkg f (specs ++ rest) = genStructDecl_specs pkg f rest.
Proof.
  induction 1 as [| spec specs (tname & ttype & -> & Hne) _ IH]; [reflexivity |].
  cbn. rewrite bool_decide_eq_false_2 by congruence. exact IH.
Qed.

Lemma genStructDecl_specs_others pkg f specs :
  Forall (declaresOther (sourceTypeName f)) specs ->
  genStructDecl_specs pkg f specs = Ok f.
Proof.
  intros H. rewrite <- (app_nil_r specs), genStructDecl_specs_skip by exact H.
  reflexivity.
Qed.

(** C1.  For a [type] declaration with a spec [tname struct { fields }]
    whose name is the requested one (the other specs of the declaration
    declare other names), [genStructDecl] returns with the object of
    [tname] as the found type and with flag values that are, in field
    declaration order, those of the names of the top-level field
    declarations that are not blank and whose object has, once aliases are
    unwound, a builtin boolean type.  Embedded fields declare no name;
    every other field is passed over without an error; the fields of struct
    types nested in [fields] play no part.  The type checker records an
    object for every field name, and the flag name of each kept field is
    assumed to be derived without a panic. *)
Theorem struct_field_candidates
    (pkg : Package) (f : File) (pre post : list ast.Spec)
    (tname : ast.Ident) (fields : list ast.Field) (bel : list ast.Node)
    (obj : types.Object) :
  sourceTypeName f = ast.Name tname ->
  Forall (declaresOther (sourceTypeName f)) (pre ++ post) ->
  defs pkg !! ast.addr tname = Some obj ->
  Forall (fun fld => Forall (declared pkg) (ast.Names fld)) fields ->
  Forall (fun id => returns (flagName (ast.Name id) (trimPrefix pkg) (trimSuffix pkg)))
    (fieldCandidates pkg fields) ->
  exists fvs,
    genStructDecl pkg f
      (Some (ast.GenDecl ast.TYPE
               (pre ++ ast.TypeSpec tname (ast.StructType fields) :: post) bel))
    = Ok ({| file := file f;
             sourceTypeName := sourceTypeName f;
             foundSourceType := Some obj;
             flagValues := fvs;
             flagsSize := flagSize (Z.of_nat (length fvs)) |}, false) /\
    Forall2 (candidate pkg) fvs (fieldCandidates pkg fields) /\
    map Field fvs = map ast.Name (fieldCandidates pkg fields) /\
    (forall id, In id (fieldCandidates pkg fields) <->
       exists fld, In fld fields /\ In id (ast.Names fld) /\
         ast.Name id <> "_" /\
         exists o, defs pkg !! ast.addr id = Some o /\
           (types.Unalias (types.Type_ o) = types.Basic types.Bool \/
            types.Unalias (types.Type_ o) = types.Basic types.UntypedBool)).
Proof.
  intros Hname Hothers Hobj Hdecl Hflag.
  apply Forall_app in Hothers as [Hpre Hpost].
  destruct (genStructDecl_fields_spec pkg (ast.Name tname) fields [] Hdecl Hflag)
    as (fvs & Hrun & Hcands).
  exists fvs. split; [| split; [exact Hcands | split]].
  - cbn [genStructDecl]. rewrite genStructDecl_specs_skip by exact Hpre.
    cbn [genStructDecl_specs].
    rewrite bool_decide_eq_true_2 by exact Hname. cbn [negb].
    rewrite Hobj, Hrun. cbn.
    rewrite genStructDecl_specs_others by exact Hpost.
    reflexivity.
  - clear -Hcands. induction Hcands as [| fv id fvs ids [Hf _] _ IH];
      [reflexivity |]. cbn. rewrite Hf, IH. reflexivity.
  - intros id. unfold fieldCandidates. rewrite in_flat_map. split.
    + intros (fld & Hfld & Hid). apply filter_In in Hid as [Hid Hq].
      apply qualifies_iff in Hq as (Hn & o & Ho & Hty). eauto 10.
    + intros (fld & Hfld & Hid & Hn & o & Ho & Hty).
      exists fld. split; [exact Hfld |]. apply filter_In. split; [exact Hid |].
      apply qualifies_iff. eauto.
Qed.

(** [MixOptions] of [testdata/mix_options]: of the five field declarations
    [Flag1 bool], [Field2 int], [Field3 string],
    [Field4 struct { Flag2 bool }] and [Flag2 bool], exactly [Flag1] and the
    top-level [Flag2] are kept. *)
Lemma struct_field_candidates_witness :
  let pkg := testdata.mixOptionsPackage in
  let f := {| file := testdata.fileNode [testdata.mixOptionsDecl];
              sourceTypeName := "MixOptions"; foundSourceType := None;
              flagValues := []; flagsSize := 0 |} in
  (Forall (fun fld => Forall (declared pkg) (ast.Names fld)) testdata.mixOptionsFields /\
   Forall (fun id => returns (flagName (ast.Name id) (trimPrefix pkg) (trimSuffix pkg)))
     (fieldCandidates pkg testdata.mixOptionsFields)) /\
  exists o,
    genStructDecl pkg f (Some testdata.mixOptionsDecl)
    = Ok ({| file := file f; sourceTypeName := "MixOptions";
             foundSourceType := Some o;
             flagValues := [ {| Field := "Flag1"; Flag := "Flag1" |};
                             {| Field := "Flag2"; Flag := "Flag2" |} ];
             flagsSize := 8 |}, false).
Proof.
  intros pkg f.
  assert (Hdecl : Forall (fun fld => Forall (declared pkg) (ast.Names fld))
                    testdata.mixOptionsFields).
  { repeat (first [apply List.Forall_nil | apply List.Forall_cons]);
      right; vm_compute; eauto. }
  assert (Hflag : Forall (fun id => returns (flagName (ast.Name id)
                                      (trimPrefix pkg) (trimSuffix pkg)))
                    (fieldCandidates pkg testdata.mixOptionsFields)).
  { vm_compute. repeat constructor; eexists; reflexivity. }
  split; [split; assumption |].
  exists (testdata.typeName "MixOptions" types.Struct).
  destruct (struct_field_candidates pkg f [] [] (testdata.ident "MixOptions" 10)
              testdata.mixOptionsFields [] (testdata.typeName "MixOptions" types.Struct)
              eq_refl (List.Forall_nil _) ltac:(vm_compute; reflexivity) Hdecl Hflag)
    as (fvs & Hrun & Hcands & _).
  assert (Hfvs : fvs = [ {| Field := "Flag1"; Flag := "Flag1" |};
                         {| Field := "Flag2"; Flag := "Flag2" |} ]).
  { assert (Hc : fieldCandidates pkg testdata.mixOptionsFields
                 = [testdata.ident "Flag1" 11; testdata.ident "Flag2" 16])
      by (vm_compute; reflexivity).
    rewrite Hc in Hcands.
    inversion Hcands as [| fv1 id1 l1 l1' [Hf1 Hg1] Hrest]; subst.
    inversion Hrest as [| fv2 id2 l2 l2' [Hf2 Hg2] Hnil]; subst.
    inversion Hnil; subst.
    destruct fv1 as [fld1 flg1], fv2 as [fld2 flg2]. cbn in *.
    vm_compute in Hg1, Hg2. congruence. }
  rewrite Hfvs in Hrun. exact Hrun.
Defined.

(** An embedded field, a blank field, two names declared together, an alias
    of [bool], a defined boolean type and an [int]: the names [A], [B] and
    [C] are kept. *)
Example genStructDecl_Opts :
  flagValues (testdata.scanned testdata.optsPackage "Opts")
  = [ {| Field := "A"; Flag := "A" |}; {| Field := "B"; Flag := "B" |};
      {| Field := "C"; Flag := "C" |} ].
Proof. vm_compute. reflexivity. Qed.

(** The type of the package documentation: [Read], [Write] and [Exec], in
    that order, in 8 bits. *)
Example genStructDecl_Permissions :
  let f := testdata.scanned
             (testdata.newPackage "permissions"
                (testdata.boolStructObjects 1 "Permissions" ["Read"; "Write"; "Exec"])
                [testdata.fileNode
                   [testdata.boolStructDecl 1 "Permissions" ["Read"; "Write"; "Exec"]]]
                false "" "" 0)
             "Permissions" in
  map Field (flagValues f) = ["Read"; "Write"; "Exec"] /\ flagsSize f = 8.
Proof. vm_compute. split; reflexivity. Qed.

(** ** Flag names *)

Import bytes_props.

Lemma flagName_trims name tp ts :
  flagName name tp ts =
  match TrimSuffix (TrimPrefix name tp) ts with
  | EmptyString => Panic "index out of range [0] with length 0"
  | String.String c rest =>
      Ok (String.String (uint8 (unicode_ToUpper (byteZ c))) rest)
  end.
Proof.
  unfold flagName.
  assert (Hp : (if len tp >? 0 then TrimPrefix name tp else name) = TrimPrefix name tp).
  { destruct tp; [rewrite TrimPrefix_empty; reflexivity | reflexivity]. }
  rewrite Hp.
  assert (Hs : (if len ts >? 0 then TrimSuffix (TrimPrefix name tp) ts
                else TrimPrefix name tp) = TrimSuffix (TrimPrefix name tp) ts).
  { destruct ts; [rewrite TrimSuffix_empty; reflexivity | reflexivity]. }
  rewrite Hs. reflexivity.
Qed.

(** The flag name, from the field name without the prefix and then without
    the suffix. *)
Lemma flagName_spec name tp ts r1 r2 :
  withoutPrefix name tp r1 -> withoutSuffix r1 ts r2 ->
  flagName name tp ts =
  match r2 with
  | EmptyString => Panic "index out of range [0] with length 0"
  | String.String c rest =>
      Ok (String.String (uint8 (unicode_ToUpper (byteZ c))) rest)
  end.
Proof.
  intros H1 H2. apply TrimPrefix_iff in H1. apply TrimSuffix_iff in H2.
  rewrite flagName_trims, H1, H2. reflexivity.
Qed.

Lemma genStructDecl_names_app pkg t pre : forall post acc,
  genStructDecl_names pkg t (pre ++ post) acc =
  genStructDecl_names pkg t pre acc ≫= genStructDecl_names pkg t post.
Proof.
  induction pre as [| id pre IH]; intros post acc; [reflexivity |].
  cbn [app genStructDecl_names].
  destruct (bool_decide (ast.Name id = "_")); [apply IH |].
  destruct (defs pkg !! ast.addr id) as [obj |]; [| reflexivity].
  destruct (types.Unalias (types.Type_ obj)); try apply IH.
  destruct (Z.land _ _ =? 0); [apply IH |].
  destruct (flagName _ _ _); cbn; [apply IH | reflexivity..].
Qed.

(** C10.  When the name of a field, without the configured prefix and then
    without the configured suffix, is the empty string, [flagName] indexes
    position 0 of an empty byte slice: it panics, and returns neither a name
    nor a [log.Fatalf] diagnostic.  When the field qualifies, the panic
    leaves the loop over the names of its declaration as soon as the names
    before it are served. *)
Theorem flagName_empty_panics
    (pkg : Package) (t : string) (pre post : list ast.Ident) (id : ast.Ident)
    (acc : list flagValue) (r1 : string) :
  withoutPrefix (ast.Name id) (trimPrefix pkg) r1 ->
  withoutSuffix r1 (trimSuffix pkg) "" ->
  flagName (ast.Name id) (trimPrefix pkg) (trimSuffix pkg)
    = Panic "index out of range [0] with length 0" /\
  (qualifies pkg id = true ->
   Forall (declared pkg) pre ->
   Forall (fun id => returns (flagName (ast.Name id) (trimPrefix pkg) (trimSuffix pkg)))
     (List.filter (qualifies pkg) pre) ->
   genStructDecl_names pkg t (pre ++ id :: post) acc
     = Panic "index out of range [0] with length 0").
Proof.
  intros H1 H2.
  assert (Hpanic := flagName_spec _ _ _ _ _ H1 H2). cbn in Hpanic.
  split; [exact Hpanic |].
  intros Hq Hdecl Hflag.
  destruct (genStructDecl_names_spec pkg t pre acc Hdecl Hflag) as (fvs & Hrun & _).
  rewrite genStructDecl_names_app, Hrun. cbn.
  apply qualifies_iff in Hq as (Hn & obj & Hobj & Hty).
  rewrite bool_decide_eq_false_2 by exact Hn. rewrite Hobj.
  destruct Hty as [-> | ->]; rewrite Info_IsBoolean; cbn [builtinBoolean negb];
    rewrite Hpanic; reflexivity.
Qed.

(** A field whose name is the trim prefix itself. *)
Lemma flagName_of_prefix_panics tp ts :
  flagName tp tp ts = Panic "index out of range [0] with length 0".
Proof.
  apply (flagName_spec tp tp ts "" "").
  - left. rewrite str_app_nil_r. reflexivity.
  - destruct ts as [| c ts]; [left; reflexivity |].
    right. split; [| reflexivity]. intros rest H.
    apply (f_equal String.length) in H. rewrite str_length_app in H. cbn in H. lia.
Qed.

(** [type Options struct { optFlagEnabled bool; opt bool }] with
    [-trimprefix=opt]: the name of the second field is the prefix. *)
Lemma flagName_empty_panics_witness :
  let pkg := testdata.trimmedPackage "opt" "" in
  let id := testdata.ident "opt" 32 in
  (withoutPrefix (ast.Name id) (trimPrefix pkg) "" /\
   withoutSuffix "" (trimSuffix pkg) "" /\
   qualifies pkg id = true) /\
  flagName "opt" "opt" "" = Panic "index out of range [0] with length 0" /\
  genStructDecl_names pkg "Options" [id] [] = Panic "index out of range [0] with length 0".
Proof.
  intros pkg id.
  assert (H1 : withoutPrefix (ast.Name id) (trimPrefix pkg) "") by (left; reflexivity).
  assert (H2 : withoutSuffix "" (trimSuffix pkg) "") by (left; reflexivity).
  assert (H3 : qualifies pkg id = true) by (vm_compute; reflexivity).
  split; [auto |].
  destruct (flagName_empty_panics pkg "Options" [] [] id [] "" H1 H2) as [Ha Hb].
  split; [exact Ha |].
  apply Hb; [exact H3 | constructor | constructor].
Defined.

(** The whole run on that package: the panic ends it, nothing is written and
    no diagnostic of the generator is produced. *)
Example main_panics_on_empty_flag_name :
  main (testdata.newInput ["Options"] [] "") [testdata.trimmedPackage "opt" ""]
  = ([], Panic "index out of range [0] with length 0").
Proof. vm_compute. reflexivity. Qed.

(** ** The locator *)

Lemma bodies_app a b : bodies (a ++ b) = bodies a ++ bodies b.
Proof. unfold bodies. apply flat_map_app. Qed.

Lemma main_types_spec in_ p names : forall g idx ft rt g' ft' rt',
  main_types in_ p g idx names ft rt = Ok (g', ft', rt') ->
  ft' = ft ++ List.filter (foundIn p) names /\
  rt' = rt ++ List.filter (notFoundIn p) names /\
  bodies (buf g') = bodies (buf g) ++ List.filter (foundIn p) names.
Proof.
  induction names as [| T names IH]; intros g idx ft rt g' ft' rt' H;
    cbn [main_types] in H.
  - injection H as <- <- <-. cbn. rewrite !app_nil_r. auto.
  - apply bind_Ok_inv in H as (out & _ & H).
    apply bind_Ok_inv in H as (found & Hfind & H).
    assert (Hf : foundIn p T = match found with Some _ => true | None => false end)
      by (unfold foundIn; rewrite Hfind; reflexivity).
    replace (List.filter (foundIn p) (T :: names))
      with (if foundIn p T then T :: List.filter (foundIn p) names
            else List.filter (foundIn p) names) by reflexivity.
    replace (List.filter (notFoundIn p) (T :: names))
      with (if negb (foundIn p T) then T :: List.filter (notFoundIn p) names
            else List.filter (notFoundIn p) names) by reflexivity.
    rewrite Hf. destruct found as [f |]; cbn [negb].
    + destruct (negb (isValidStructFile f));
        [destruct (foundSourceType f); discriminate |].
      apply bind_Ok_inv in H as (g1 & Hgen & H).
      apply IH in H as (-> & -> & ->).
      apply generateForStruct_Ok_inv in Hgen as (size & -> & _).
      cbn [emit buf]. rewrite bodies_app. cbn. rewrite <- !app_assoc. auto.
    + apply IH in H as (-> & -> & ->). rewrite <- !app_assoc. auto.
Qed.

Lemma filter_none_complement {A} (f : A -> bool) (l : list A) :
  List.filter f l = [] -> List.filter (fun x => negb (f x)) l = l.
Proof.
  induction l as [| a l IH]; cbn; [reflexivity |].
  destruct (f a); cbn; [discriminate |]. intros H. rewrite IH by exact H. reflexivity.
Qed.

Lemma filter_partition {A} (f : A -> bool) (l : list A) :
  Permutation l (List.filter f l ++ List.filter (fun x => negb (f x)) l).
Proof.
  induction l as [| a l IH]; cbn; [constructor |].
  destruct (f a); cbn.
  - constructor. exact IH.
  - rewrite IH at 1. apply Permutation_middle.
Qed.

(** The loop over the packages writes what [locate] says. *)
Lemma main_pkgs_spec pkgs : forall in_ disk disk' in',
  main_pkgs in_ pkgs disk = (disk', Ok in') ->
  exists ws,
    disk' = disk ++ ws /\
    map emittedNames ws
      = List.filter nonEmpty (locate pkgs (sourceTypeNames in_)) /\
    sourceTypeNames in' = unresolved pkgs (sourceTypeNames in_).
Proof.
  induction pkgs as [| p pkgs IH]; intros in_ disk disk' in' H; cbn [main_pkgs] in H.
  - injection H as <- <-. exists []. rewrite app_nil_r. auto.
  - destruct (main_types in_ p _ 0 (sourceTypeNames in_) [] [])
      as [[[g ft] rt] | |] eqn:Htypes; try (injection H; discriminate).
    apply main_types_spec in Htypes as (Hft & Hrt & Hbodies).
    cbn in Hft, Hrt, Hbodies. cbn [locate unresolved List.filter].
    rewrite <- Hft, <- Hrt.
    destruct ft as [| first ft].
    + assert (Hrt' : rt = sourceTypeNames in_).
      { rewrite Hrt. apply filter_none_complement. congruence. }
      rewrite Hrt'. cbn [nonEmpty]. apply IH in H. exact H.
    + destruct (_ && _); [injection H; discriminate |].
      apply IH in H as (ws & -> & Hws & Hin'). cbn [sourceTypeNames] in Hws, Hin'.
      eexists (_ :: ws). rewrite <- app_assoc. split; [reflexivity |].
      cbn [map nonEmpty]. unfold emittedNames at 1. cbn [src].
      rewrite Hbodies, <- Hft, Hws, Hin'. auto.
Qed.

Lemma locate_perm pkgs : forall names,
  Permutation names (concat (locate pkgs names) ++ unresolved pkgs names).
Proof.
  induction pkgs as [| p pkgs IH]; intros names; cbn; [reflexivity |].
  rewrite <- app_assoc, <- IH. apply filter_partition.
Qed.

Lemma concat_filter_nonEmpty (ls : list (list string)) :
  concat (List.filter nonEmpty ls) = concat ls.
Proof.
  induction ls as [| [| a l] ls IH]; cbn; [reflexivity | exact IH |].
  rewrite IH. reflexivity.
Qed.

Lemma locate_incl pkgs : forall names,
  Forall (fun l => incl l names) (locate pkgs names) /\
  incl (unresolved pkgs names) names.
Proof.
  induction pkgs as [| p pkgs IH]; intros names; cbn.
  - split; [constructor | apply incl_refl].
  - destruct (IH (List.filter (notFoundIn p) names)) as [Hl Hu].
    assert (Hsub : forall f, incl (List.filter f names) names)
      by (intros f a Ha; apply filter_In in Ha; tauto).
    split.
    + constructor; [apply Hsub |].
      eapply Forall_impl; [exact Hl |]. intros l Hi. cbn in Hi.
      eapply incl_tran; [exact Hi | apply Hsub].
    + eapply incl_tran; [exact Hu | apply Hsub].
Qed.

(** A name is resolved in the first package that declares it, and in no
    other; it is not handed to the packages after that one. *)
Lemma locate_first before : forall p after names T,
  In T names ->
  Forall (fun q => foundIn q T = false) before ->
  foundIn p T = true ->
  exists l1 lp l2,
    locate (before ++ p :: after) names = l1 ++ lp :: l2 /\
    length l1 = length before /\
    In T lp /\
    Forall (fun l => ~ In T l) l1 /\
    Forall (fun l => ~ In T l) l2 /\
    ~ In T (unresolved (before ++ [p]) names).
Proof.
  induction before as [| q before IH]; intros p after names T Hin Hb Hp.
  - exists [], (List.filter (foundIn p) names),
      (locate after (List.filter (notFoundIn p) names)).
    assert (Hgone : ~ In T (List.filter (notFoundIn p) names)).
    { intros H. apply filter_In in H as [_ H]. unfold notFoundIn in H.
      rewrite Hp in H. discriminate. }
    cbn. repeat split; try constructor.
    + apply filter_In. auto.
    + destruct (locate_incl after (List.filter (notFoundIn p) names)) as [Hl _].
      eapply Forall_impl; [exact Hl |]. intros l Hi HT. cbn in Hi. auto.
    + exact Hgone.
  - apply Forall_cons in Hb as [Hq Hb].
    assert (Hkept : In T (List.filter (notFoundIn q) names)).
    { apply filter_In. unfold notFoundIn. rewrite Hq. auto. }
    destruct (IH p after _ T Hkept Hb Hp) as (l1 & lp & l2 & Heq & Hlen & HT & H1 & H2 & Hu).
    exists (List.filter (foundIn q) names :: l1), lp, l2. cbn.
    rewrite Heq, Hlen. repeat split; auto.
    constructor; [| exact H1].
    intros H. apply filter_In in H as [_ H]. congruence.
Qed.

(** A file returned for [T] is the first file of the package in which the
    scan finds a declaration named [T]. *)
Lemma findStructTypeFile_first_site p T f :
  findStructTypeFile p T = Ok (Some f) ->
  exists pre f0 post,
    files p = pre ++ f0 :: post /\
    scanFile p T f0 = Ok f /\
    is_Some (foundSourceType f) /\
    Forall (fun g0 => exists g', scanFile p T g0 = Ok g' /\ foundSourceType g' = None)
      pre.
Proof.
  unfold findStructTypeFile. generalize (files p) as fs.
  induction fs as [| f0 fs IH]; cbn; [discriminate |].
  intros H. apply bind_Ok_inv in H as (f1 & H1 & H).
  destruct (foundSourceType f1) as [o |] eqn:Ho.
  - injection H as <-. exists [], f0, fs. rewrite Ho. repeat split; eauto.
  - destruct (IH H) as (pre & f2 & post & -> & Hscan & Hfound & Hpre).
    exists (f0 :: pre), f2, post. repeat split; auto.
    constructor; [| exact Hpre]. exists f1. auto.
Qed.

(** The order [sort.Slice] gives to the three variants of a package. *)
Lemma pkgLess_variants x xt xe :
  HasSuffix (name x) "_test" = false ->
  HasSuffix (name xt) "_test" = false ->
  HasSuffix (name xe) "_test" = true ->
  (length (files x) < length (files xt))%nat ->
  pkgLess x xt = true /\ pkgLess xt x = false /\
  pkgLess x xe = true /\ pkgLess xe x = false /\
  pkgLess xt xe = true /\ pkgLess xe xt = false.
Proof.
  intros Hx Hxt Hxe Hlen. unfold pkgLess. rewrite Hx, Hxt, Hxe. cbn.
  repeat split; zcmp; try reflexivity; lia.
Qed.

Lemma sort_Slice_variants x xt xe pkgs :
  HasSuffix (name x) "_test" = false ->
  HasSuffix (name xt) "_test" = false ->
  HasSuffix (name xe) "_test" = true ->
  (length (files x) < length (files xt))%nat ->
  Permutation [x; xt; xe] pkgs ->
  sort_Slice pkgs pkgLess = [x; xt; xe].
Proof.
  intros Hx Hxt Hxe Hlen Hperm.
  destruct (pkgLess_variants x xt xe Hx Hxt Hxe Hlen)
    as (H1 & H2 & H3 & H4 & H5 & H6).
  apply permutations_Permutation in Hperm. cbn in Hperm.
  repeat (apply elem_of_cons in Hperm as [-> | Hperm]);
    [.. | apply elem_of_nil in Hperm; contradiction];
    cbn [sort_Slice sort_insert];
    rewrite ?H1, ?H2, ?H3, ?H4, ?H5, ?H6; cbn [sort_insert];
    rewrite ?H1, ?H2, ?H3, ?H4, ?H5, ?H6; reflexivity.
Qed.

(** C5.  (1) Whatever the order in which the three variants of a package
    are loaded, they are processed in the order: the package, the package
    compiled with its test files (which has more files), the package
    [_test].  (2) A run that succeeds writes, package by package in that
    order, the types that [locate] resolves there: each package resolves the
    still unresolved names it declares and hands the others on; the
    requested names, counted with repetitions, are the emitted ones, so each
    request is emitted exactly once.  (3) A requested name is resolved in
    the first package that declares it and in no other one, and it is not
    among the names handed to the packages after it: a type declared in the
    package and again in the package [_test] is resolved from the former.
    (4) In a package, the file returned for a name is the first file whose
    scan finds a declaration of that name. *)
Theorem locator_first_match_in_fixed_order :
  (forall x xt xe pkgs,
     HasSuffix (name x) "_test" = false ->
     HasSuffix (name xt) "_test" = false ->
     HasSuffix (name xe) "_test" = true ->
     (length (files x) < length (files xt))%nat ->
     Permutation [x; xt; xe] pkgs ->
     sort_Slice pkgs pkgLess = [x; xt; xe]) /\
  (forall in_ pkgs ws,
     main in_ pkgs = (ws, Ok tt) ->
     map emittedNames ws
       = List.filter nonEmpty
           (locate (sort_Slice pkgs pkgLess) (sourceTypeNames in_)) /\
     unresolved (sort_Slice pkgs pkgLess) (sourceTypeNames in_) = [] /\
     Permutation (sourceTypeNames in_) (concat (map emittedNames ws))) /\
  (forall before p after names T,
     In T names ->
     Forall (fun q => foundIn q T = false) before ->
     foundIn p T = true ->
     exists l1 lp l2,
       locate (before ++ p :: after) names = l1 ++ lp :: l2 /\
       length l1 = length before /\
       In T lp /\
       Forall (fun l => ~ In T l) l1 /\
       Forall (fun l => ~ In T l) l2 /\
       ~ In T (unresolved (before ++ [p]) names)) /\
  (forall p T f,
     findStructTypeFile p T = Ok (Some f) ->
     exists pre f0 post,
       files p = pre ++ f0 :: post /\
       scanFile p T f0 = Ok f /\
       is_Some (foundSourceType f) /\
       Forall (fun g0 => exists g', scanFile p T g0 = Ok g' /\
                                    foundSourceType g' = None) pre).
Proof.
  split; [| split; [| split]].
  - intros x xt xe pkgs. apply sort_Slice_variants.
  - intros in_ pkgs ws Hmain. unfold main in Hmain.
    destruct (main_pkgs in_ (sort_Slice pkgs pkgLess) []) as [disk r] eqn:Hrun.
    injection Hmain as -> Hr.
    destruct r as [in' | |]; try discriminate. cbn in Hr.
    apply main_pkgs_spec in Hrun as (ws' & Hws' & Hemit & Hleft).
    cbn in Hws'. subst ws'.
    assert (Hnone : sourceTypeNames in' = []).
    { destruct (sourceTypeNames in') as [| T l]; [reflexivity |].
      cbn in Hr. discriminate. }
    rewrite Hnone in Hleft. split; [exact Hemit |]. split; [auto |].
    rewrite Hemit, concat_filter_nonEmpty.
    pose proof (locate_perm (sort_Slice pkgs pkgLess) (sourceTypeNames in_)) as Hperm.
    rewrite <- Hleft, app_nil_r in Hperm. exact Hperm.
  - intros before. apply locate_first.
  - apply findStructTypeFile_first_site.
Qed.

(** The three variants of [testdata], loaded in the reverse order, and the
    requests [T], [U] and [V]: [T], which both [x] and [x_test] declare, is
    emitted with [x]; [U] with [x] compiled for its tests; [V] with
    [x_test]. *)
Lemma locator_witness :
  let in_ := testdata.newInput ["T"; "U"; "V"] [] "" in
  let pkgs := [testdata.xExternal; testdata.xForTests; testdata.x] in
  (HasSuffix (name testdata.x) "_test" = false /\
   HasSuffix (name testdata.xForTests) "_test" = false /\
   HasSuffix (name testdata.xExternal) "_test" = true /\
   (length (files testdata.x) < length (files testdata.xForTests))%nat /\
   Permutation [testdata.x; testdata.xForTests; testdata.xExternal] pkgs /\
   foundIn testdata.x "T" = true /\ foundIn testdata.xExternal "T" = true) /\
  sort_Slice pkgs pkgLess = [testdata.x; testdata.xForTests; testdata.xExternal] /\
  exists ws, main in_ pkgs = (ws, Ok tt) /\
             map emittedNames ws = [["T"]; ["U"]; ["V"]].
Proof.
  intros in_ pkgs.
  destruct locator_first_match_in_fixed_order as (Horder & Hrun & _ & _).
  assert (H1 : HasSuffix (name testdata.x) "_test" = false) by reflexivity.
  assert (H2 : HasSuffix (name testdata.xForTests) "_test" = false) by reflexivity.
  assert (H3 : HasSuffix (name testdata.xExternal) "_test" = true) by reflexivity.
  assert (H4 : (length (files testdata.x) < length (files testdata.xForTests))%nat)
    by (cbn; lia).
  assert (H5 : Permutation [testdata.x; testdata.xForTests; testdata.xExternal] pkgs).
  { unfold pkgs. etransitivity; [apply perm_swap |].
    etransitivity; [apply perm_skip, perm_swap |]. etransitivity; [apply perm_swap |].
    reflexivity. }
  assert (H6 : foundIn testdata.x "T" = true) by (vm_compute; reflexivity).
  assert (H7 : foundIn testdata.xExternal "T" = true) by (vm_compute; reflexivity).
  split; [auto 10 |].
  pose proof (Horder _ _ _ pkgs H1 H2 H3 H4 H5) as Hsorted.
  split; [exact Hsorted |].
  destruct (main in_ pkgs) as [ws r] eqn:Hmain.
  assert (Hr : r = Ok tt).
  { assert (Hsnd : snd (main in_ pkgs) = Ok tt) by (vm_compute; reflexivity).
    rewrite Hmain in Hsnd. exact Hsnd. }
  subst r. exists ws. split; [reflexivity |].
  destruct (Hrun in_ pkgs ws Hmain) as (Hemit & _ & _).
  rewrite Hemit, Hsorted. vm_compute. reflexivity.
Defined.

(** When the name without the affixes starts with an ASCII byte, the flag
    name is that name with a first letter [a..z] moved to [A..Z]. *)
Lemma flagName_ascii name tp ts r1 c rest :
  withoutPrefix name tp r1 -> withoutSuffix r1 ts (String.String c rest) ->
  byteZ c < 128 ->
  flagName name tp ts =
  Ok (String.String
        (if (97 <=? byteZ c) && (byteZ c <=? 122) then uint8 (byteZ c - 32) else c)
        rest).
Proof.
  intros H1 H2 Hc. rewrite (flagName_spec _ _ _ _ _ H1 H2), ToUpper_ascii by exact Hc.
  reflexivity.
Qed.

Example flagName_optFlagEnabled : flagName "optFlagEnabled" "opt" "Enabled" = Ok "Flag".
Proof. reflexivity. Qed.

(** C8.  The flag name is the field name without the prefix, then without
    the suffix, with its first BYTE upper-cased as if it were a code point.
    On a name whose first character is not ASCII this is not the first
    character upper-cased.  The field name [U+00E9 t U+00E9] (bytes
    [C3 A9 74 C3 A9]) keeps its first character [U+00E9], whose upper case
    is [U+00C9]: the lead byte [C3] is the code point [U+00C3], already
    upper case.  The field name [U+65E5 U+672C] (bytes [E6 97 A5 E6 9C AC])
    has its lead byte [E6] replaced by [C6], the upper case of the code
    point [U+00E6]: the flag name starts with [U+0197] and is no longer
    well-formed UTF-8 after it. *)
Theorem flagName_upper_cases_first_byte_only :
  let ete := testdata.ofBytes [195; 169; 116; 195; 169] in
  let nihon := testdata.ofBytes [230; 151; 165; 230; 156; 172] in
  (firstRune ete = Some 233 /\ unicode_ToUpper 233 = 201 /\
   flagName ete "" "" = Ok ete) /\
  (firstRune nihon = Some 26085 /\
   flagName nihon "" "" = Ok (testdata.ofBytes [198; 151; 165; 230; 156; 172]) /\
   firstRune (testdata.ofBytes [198; 151; 165; 230; 156; 172]) = Some 407 /\
   firstRune (testdata.ofBytes [165; 230; 156; 172]) = None).
Proof. vm_compute. repeat split; reflexivity. Qed.

(** C6.  [-type=T,U -outType=TFlags,UFlags], with [T] declared in the
    package and [U] only in its test files: [T] is emitted with the package
    as [TFlags]; when the package compiled for its tests is processed, the
    remaining names are [[U]], [U] has index 0 in them, and it is emitted as
    [TFlags], the name at index 0 of [-outType], not as [UFlags]. *)
Theorem outType_index_follows_remaining_names :
  let in_ := testdata.newInput ["T"; "U"] ["TFlags"; "UFlags"] "" in
  let pkgs := [testdata.x; testdata.xForTests; testdata.xExternal] in
  exists wT wU,
    main in_ pkgs = ([wT; wU], Ok tt) /\
    pairings wT = [("T", "TFlags")] /\
    pairings wU = [("U", "TFlags")] /\
    chooseOutTypeName in_ 1 "U" = Ok "UFlags".
Proof.
  intros in_ pkgs.
  destruct (main in_ pkgs) as [ws r] eqn:Hmain.
  assert (Hws : exists wT wU, ws = [wT; wU] /\ pairings wT = [("T", "TFlags")] /\
                              pairings wU = [("U", "TFlags")]).
  { assert (Hfst : fst (main in_ pkgs) = ws) by (rewrite Hmain; reflexivity).
    rewrite <- Hfst. vm_compute. eauto. }
  assert (Hr : r = Ok tt).
  { assert (Hsnd : snd (main in_ pkgs) = r) by (rewrite Hmain; reflexivity).
    rewrite <- Hsnd. vm_compute. reflexivity. }
  destruct Hws as (wT & wU & -> & HT & HU). subst r.
  exists wT, wU. repeat split; assumption || reflexivity.
Qed.

(** ** Declarations that are not supported *)

Lemma bind_Ok_r {A} (r : Result A) : r ≫= Ok = r.
Proof. destruct r; reflexivity. Qed.

Lemma bind_assoc {A B C} (r : Result A) (k : A -> Result B) (h : B -> Result C) :
  (r ≫= k) ≫= h = r ≫= (fun a => k a ≫= h).
Proof. destruct r; reflexivity. Qed.

Lemma visitDecls_app pkg d1 : forall d2 f,
  visitDecls pkg (d1 ++ d2) f = visitDecls pkg d1 f ≫= visitDecls pkg d2.
Proof.
  induction d1 as [| specs d1 IH]; intros d2 f; [reflexivity |].
  cbn [app visitDecls]. rewrite bind_assoc.
  destruct (visitDecl pkg f specs); [apply IH | reflexivity..].
Qed.

(** The walk of a file is the visit, in order, of the [type] declarations it
    reaches. *)
Lemma Inspect_typeDecls pkg node : forall f,
  Inspect pkg node f = visitDecls pkg (typeDecls node) f.
Proof.
  assert (Hchildren : forall l, Forall (fun c => forall f,
              Inspect pkg c f = visitDecls pkg (typeDecls c) f) l ->
            forall f, Inspect_children pkg l f
                      = visitDecls pkg (flat_map typeDecls l) f).
  { induction 1 as [| c l Hc _ IH]; intros f; [reflexivity |].
    cbn [Inspect_children flat_map]. rewrite visitDecls_app, Hc.
    destruct (visitDecls pkg (typeDecls c) f); [apply IH | reflexivity..]. }
  induction node as [tok specs bel IH | bel IH] using Node_forall_ind;
    intros f; rewrite Inspect_unfold.
  - destruct tok; cbn [genStructDecl typeDecls below];
      try (cbn; rewrite (Hchildren _ IH);
           destruct (visitDecls _ _ _); reflexivity).
    cbn [visitDecls]. unfold visitDecl.
    destruct (genStructDecl_specs pkg f specs); reflexivity.
  - cbn [genStructDecl typeDecls below]. cbn.
    rewrite (Hchildren _ IH). destruct (visitDecls _ _ _); reflexivity.
Qed.





(** C7.  A file with [type T int] alone ends the run with the "found
    unsupported type" diagnostic.  With a function after it whose body
    declares [type T struct { A bool }], the walk of the file reaches that
    declaration too: the found type becomes the local one, its field is
    kept, the file is valid, and the run emits [TBitFlags] and succeeds,
    although the file contains a declaration named [T] that is not a
    struct. *)
Theorem shadowed_declaration_is_not_fatal :
  (exists args,
     main (testdata.newInput ["T"] [] "") [testdata.intPackage]
     = ([], Fatal ("error: found unsupported type %s (%s) for name %s in package %s." +:+
                   newline_tab +:+ "supported types are struct types with bool fields.")
              args)) /\
  (exists w,
     main (testdata.newInput ["T"] [] "") [testdata.shadowedPackage] = ([w], Ok tt) /\
     pairings w = [("T", "TBitFlags")]) /\
  flagValues (testdata.scanned testdata.shadowedPackage "T")
    = [{| Field := "A"; Flag := "A" |}].
Proof.
  split; [| split].
  - vm_compute. eauto.
  - destruct (main _ [testdata.shadowedPackage]) as [ws r] eqn:Hmain.
    assert (Hws : exists w, ws = [w] /\ pairings w = [("T", "TBitFlags")]).
    { assert (Hfst : fst (main (testdata.newInput ["T"] [] "")
                            [testdata.shadowedPackage]) = ws)
        by (rewrite Hmain; reflexivity).
      rewrite <- Hfst. vm_compute. eauto. }
    assert (Hr : r = Ok tt).
    { assert (Hsnd : snd (main (testdata.newInput ["T"] [] "")
                            [testdata.shadowedPackage]) = r)
        by (rewrite Hmain; reflexivity).
      rewrite <- Hsnd. vm_compute. reflexivity. }
    destruct Hws as (w & -> & Hw). subst r. eauto.
  - vm_compute. reflexivity.
Qed.

End genflagged_props.

(** * Further properties of the runtime *)

Module flagged_extra.
Import flagged flagged_spec flagged_props flagged_strings flagged_strings_spec.

Lemma Size_pos T : 0 < Size T.
Proof. destruct T; reflexivity. Qed.

Lemma bit_in T idx : in_range T idx -> bit T idx = Ok (2 ^ idx).
Proof.
  intros H. unfold in_range in H. unfold bit, wrap.
  replace (idx <? 0) with false by (symmetry; apply Z.ltb_ge; lia).
  rewrite Z.shiftl_1_l, Z.mod_small; [reflexivity |].
  split; [apply Z.pow_nonneg; lia | apply Z.pow_lt_mono_r; lia].
Qed.

Lemma land_pow2 f i :
  0 <= i -> negb (Z.land f (2 ^ i) =? 0) = Z.testbit f i.
Proof.
  intros Hi.
  assert (H : Z.land f (2 ^ i) = if Z.testbit f i then 2 ^ i else 0).
  { apply Z.bits_inj'. intros n Hn. rewrite Z.land_spec, Z.pow2_bits_eqb by lia.
    destruct (Z.eqb_spec i n) as [-> | Hne].
    - destruct (Z.testbit f n); [rewrite Z.pow2_bits_true by lia | rewrite Z.bits_0];
        reflexivity.
    - rewrite andb_false_r.
      destruct (Z.testbit f i); [rewrite Z.pow2_bits_false by lia | rewrite Z.bits_0];
        reflexivity. }
  rewrite H. destruct (Z.testbit f i).
  - assert (0 < 2 ^ i) by (apply Z.pow_pos_nonneg; lia).
    destruct (Z.eqb_spec (2 ^ i) 0); [lia | reflexivity].
  - reflexivity.
Qed.

(** [Is] reports the bit of the flags at the index. *)
Lemma Is_testbit T f idx : in_range T idx -> Is T f idx = Ok (Z.testbit f idx).
Proof.
  intros H. unfold Is, is_.
  rewrite validateBitIndex_in by (unfold in_range in H; lia).
  cbn. rewrite bit_in by exact H. cbn.
  rewrite land_pow2 by (unfold in_range in H; lia). reflexivity.
Qed.

Lemma set_eq T f idx new :
  in_range T idx ->
  set T f idx new =
  Ok (Z.testbit f idx, if new then Z.lor f (2 ^ idx) else Z.ldiff f (2 ^ idx)).
Proof.
  intros H. unfold set.
  rewrite validateBitIndex_in by (unfold in_range in H; lia).
  cbn. rewrite bit_in by exact H. cbn.
  rewrite land_pow2 by (unfold in_range in H; lia). reflexivity.
Qed.

Lemma toggle_eq T f idx :
  in_range T idx ->
  toggle T f idx = Ok (negb (Z.testbit f idx), Z.lxor f (2 ^ idx)).
Proof.
  intros H. unfold toggle.
  rewrite validateBitIndex_in by (unfold in_range in H; lia).
  cbn. rewrite bit_in by exact H. cbn.
  rewrite land_pow2 by (unfold in_range in H; lia).
  rewrite Z.lxor_spec, Z.pow2_bits_true by (unfold in_range in H; lia).
  rewrite xorb_true_r. reflexivity.
Qed.

(** The bits of the flags after a write at [idx]. *)
Lemma testbit_written f idx new j :
  0 <= idx -> 0 <= j ->
  Z.testbit (if new : bool then Z.lor f (2 ^ idx) else Z.ldiff f (2 ^ idx)) j
  = if j =? idx then new else Z.testbit f j.
Proof.
  intros Hi Hj. destruct new.
  - rewrite Z.lor_spec, Z.pow2_bits_eqb by lia.
    rewrite (Z.eqb_sym idx j). destruct (j =? idx);
      [apply orb_true_r | apply orb_false_r].
  - rewrite Z.ldiff_spec, Z.pow2_bits_eqb by lia.
    rewrite (Z.eqb_sym idx j). destruct (j =? idx); cbn;
      [apply andb_false_r | apply andb_true_r].
Qed.

Lemma testbit_toggled f idx j :
  0 <= idx -> 0 <= j ->
  Z.testbit (Z.lxor f (2 ^ idx)) j
  = if j =? idx then negb (Z.testbit f j) else Z.testbit f j.
Proof.
  intros Hi Hj. rewrite Z.lxor_spec, Z.pow2_bits_eqb by lia.
  rewrite (Z.eqb_sym idx j). destruct (j =? idx);
    [apply xorb_true_r | apply xorb_false_r].
Qed.

(** A value of [T] is a non-negative integer without bit at [Size T] or
    above. *)
Lemma valueOf_bits T f :
  valueOf T f <-> 0 <= f /\ forall j, Size T <= j -> Z.testbit f j = false.
Proof.
  pose proof (Size_pos T) as Hs. unfold valueOf. split.
  - intros H. split; [lia |]. intros j Hj.
    rewrite <- (Z.mod_small f (2 ^ Size T)) by exact H.
    apply Z.mod_pow2_bits_high. lia.
  - intros [H0 Hhigh].
    assert (Hmod : f mod 2 ^ Size T = f).
    { apply Z.bits_inj'. intros n Hn.
      destruct (Z.lt_ge_cases n (Size T)) as [Hlt | Hge].
      - apply Z.mod_pow2_bits_low. exact Hlt.
      - rewrite Z.mod_pow2_bits_high by lia. symmetry. apply Hhigh. exact Hge. }
    rewrite <- Hmod. apply Z.mod_pos_bound. apply Z.pow_pos_nonneg; lia.
Qed.

Lemma valueOf_written T f idx new :
  in_range T idx -> valueOf T f ->
  valueOf T (if new : bool then Z.lor f (2 ^ idx) else Z.ldiff f (2 ^ idx)).
Proof.
  intros Hin Hf. unfold in_range in Hin.
  apply valueOf_bits in Hf as [H0 Hhigh]. apply valueOf_bits. split.
  - destruct new; [apply Z.lor_nonneg; split; [lia | apply Z.pow_nonneg; lia] |].
    apply Z.ldiff_nonneg. left. lia.
  - intros j Hj. rewrite testbit_written by lia.
    destruct (Z.eqb_spec j idx); [lia | apply Hhigh, Hj].
Qed.

Lemma valueOf_toggled T f idx :
  in_range T idx -> valueOf T f -> valueOf T (Z.lxor f (2 ^ idx)).
Proof.
  intros Hin Hf. unfold in_range in Hin.
  apply valueOf_bits in Hf as [H0 Hhigh]. apply valueOf_bits. split.
  - apply Z.lxor_nonneg. split; intros _; [apply Z.pow_nonneg | ]; lia.
  - intros j Hj. rewrite testbit_toggled by lia.
    destruct (Z.eqb_spec j idx); [lia | apply Hhigh, Hj].
Qed.

(** X1.  [SetTo] at an index of the allowed range returns the bit that was
    there, leaves the bit equal to the new value, leaves every other bit as
    it was, and keeps the flags a value of the type; [Set] and [Reset] are
    [SetTo] with [true] and [false]. *)
Theorem SetTo_writes_one_bit (T : Width) (f idx : Z) (new : bool) :
  in_range T idx ->
  exists old f',
    SetTo T f idx new = Ok (old, f') /\
    Is T f idx = Ok old /\
    Is T f' idx = Ok new /\
    (forall j, in_range T j -> j <> idx -> Is T f' j = Is T f j) /\
    (valueOf T f -> valueOf T f') /\
    Set_ T f idx = SetTo T f idx true /\
    Reset T f idx = SetTo T f idx false.
Proof.
  intros Hin. pose proof Hin as Hr. unfold in_range in Hr.
  eexists _, _. unfold SetTo. rewrite set_eq by exact Hin.
  split; [reflexivity |]. split; [apply Is_testbit, Hin |].
  split; [| split; [| split; [| split; reflexivity]]].
  - rewrite Is_testbit, testbit_written, Z.eqb_refl by (exact Hin || lia).
    reflexivity.
  - intros j Hj Hne. unfold in_range in Hj.
    rewrite !Is_testbit, testbit_written by (assumption || lia).
    destruct (Z.eqb_spec j idx); [contradiction | reflexivity].
  - apply valueOf_written, Hin.
Qed.

Lemma SetTo_writes_one_bit_witness :
  in_range BitFlags8 3 /\
  SetTo BitFlags8 5 3 true = Ok (false, 13) /\
  Is BitFlags8 13 3 = Ok true /\ Is BitFlags8 13 2 = Is BitFlags8 5 2.
Proof.
  assert (Hin : in_range BitFlags8 3) by (unfold in_range; cbn; lia).
  split; [exact Hin |].
  destruct (SetTo_writes_one_bit BitFlags8 5 3 true Hin)
    as (old & f' & Hset & Hold & Hnew & Hframe & _).
  assert (Hf : SetTo BitFlags8 5 3 true = Ok (false, 13)) by reflexivity.
  rewrite Hf in Hset. injection Hset as <- <-.
  split; [exact Hf |]. split; [exact Hnew |].
  apply Hframe; [unfold in_range; cbn; lia | lia].
Defined.

(** X2.  [Toggle] at an index of the allowed range returns the new value of
    the bit, which is the negation of the old one, leaves every other bit as
    it was and keeps the flags a value of the type; toggling the same index
    again gives the flags back. *)
Theorem Toggle_flips_one_bit (T : Width) (f idx : Z) :
  in_range T idx ->
  exists new f',
    Toggle T f idx = Ok (new, f') /\
    Is T f idx = Ok (negb new) /\
    Is T f' idx = Ok new /\
    (forall j, in_range T j -> j <> idx -> Is T f' j = Is T f j) /\
    (valueOf T f -> valueOf T f') /\
    Toggle T f' idx = Ok (negb new, f).
Proof.
  intros Hin. pose proof Hin as Hr. unfold in_range in Hr.
  eexists _, _. unfold Toggle. rewrite toggle_eq by exact Hin.
  split; [reflexivity |].
  split; [rewrite negb_involutive; apply Is_testbit, Hin |].
  split; [| split; [| split]].
  - rewrite Is_testbit, testbit_toggled, Z.eqb_refl by (exact Hin || lia).
    reflexivity.
  - intros j Hj Hne. unfold in_range in Hj.
    rewrite !Is_testbit, testbit_toggled by (assumption || lia).
    destruct (Z.eqb_spec j idx); [contradiction | reflexivity].
  - apply valueOf_toggled, Hin.
  - rewrite toggle_eq by exact Hin.
    rewrite testbit_toggled, Z.eqb_refl by lia.
    rewrite Z.lxor_assoc, Z.lxor_nilpotent, Z.lxor_0_r. reflexivity.
Qed.

Lemma Toggle_flips_one_bit_witness :
  in_range BitFlags16 9 /\
  Toggle BitFlags16 5 9 = Ok (true, 517) /\ Toggle BitFlags16 517 9 = Ok (false, 5).
Proof.
  assert (Hin : in_range BitFlags16 9) by (unfold in_range; cbn; lia).
  split; [exact Hin |].
  destruct (Toggle_flips_one_bit BitFlags16 5 9 Hin)
    as (new & f' & Htog & _ & _ & _ & _ & Hback).
  assert (Hf : Toggle BitFlags16 5 9 = Ok (true, 517)) by reflexivity.
  rewrite Hf in Htog. injection Htog as <- <-.
  split; [exact Hf | exact Hback].
Defined.

(** The flags after a write are determined by their bits. *)
Lemma written_written_same f idx a b :
  0 <= idx ->
  (if b : bool then Z.lor (if a : bool then Z.lor f (2 ^ idx) else Z.ldiff f (2 ^ idx)) (2 ^ idx)
   else Z.ldiff (if a then Z.lor f (2 ^ idx) else Z.ldiff f (2 ^ idx)) (2 ^ idx))
  = if b then Z.lor f (2 ^ idx) else Z.ldiff f (2 ^ idx).
Proof.
  intros Hi. apply Z.bits_inj'. intros n Hn.
  rewrite !testbit_written by lia. destruct (n =? idx); reflexivity.
Qed.

Lemma written_written_comm f i j a b :
  0 <= i -> 0 <= j -> i <> j ->
  (if b : bool then Z.lor (if a : bool then Z.lor f (2 ^ i) else Z.ldiff f (2 ^ i)) (2 ^ j)
   else Z.ldiff (if a then Z.lor f (2 ^ i) else Z.ldiff f (2 ^ i)) (2 ^ j))
  = (if a then Z.lor (if b then Z.lor f (2 ^ j) else Z.ldiff f (2 ^ j)) (2 ^ i)
     else Z.ldiff (if b then Z.lor f (2 ^ j) else Z.ldiff f (2 ^ j)) (2 ^ i)).
Proof.
  intros Hi Hj Hne. apply Z.bits_inj'. intros n Hn.
  rewrite !testbit_written by lia.
  destruct (Z.eqb_spec n j), (Z.eqb_spec n i); try reflexivity. lia.
Qed.

(** X3.  Writing the same value twice at an index is writing it once (the
    second write returns that value as the old one), and writes at two
    different indexes can be done in either order: each returns the same old
    bit and the final flags are the same. *)
Theorem SetTo_idempotent_and_commutes (T : Width) (f i j : Z) (a b : bool) :
  in_range T i -> in_range T j ->
  (exists old f1,
     SetTo T f i a = Ok (old, f1) /\ SetTo T f1 i a = Ok (a, f1)) /\
  (i <> j ->
   exists oi oj fi fj fij,
     SetTo T f i a = Ok (oi, fi) /\ SetTo T fi j b = Ok (oj, fij) /\
     SetTo T f j b = Ok (oj, fj) /\ SetTo T fj i a = Ok (oi, fij)).
Proof.
  intros Hi Hj. pose proof Hi as Hri. pose proof Hj as Hrj.
  unfold in_range in Hri, Hrj. unfold SetTo. split.
  - eexists _, _. rewrite !set_eq by exact Hi. split; [reflexivity |].
    rewrite testbit_written, Z.eqb_refl, written_written_same by lia. reflexivity.
  - intros Hne. eexists _, _, _, _, _. rewrite !set_eq by assumption.
    split; [reflexivity |]. split; [| split; [reflexivity |]].
    + rewrite testbit_written by lia.
      destruct (Z.eqb_spec j i); [lia | reflexivity].
    + rewrite testbit_written by lia.
      destruct (Z.eqb_spec i j); [lia |].
      rewrite (written_written_comm f i j a b) by lia. reflexivity.
Qed.

Lemma SetTo_idempotent_and_commutes_witness :
  (in_range BitFlags8 1 /\ in_range BitFlags8 6 /\ 1 <> 6) /\
  exists fi fj fij,
    SetTo BitFlags8 0 1 true = Ok (false, fi) /\
    SetTo BitFlags8 fi 6 true = Ok (false, fij) /\
    SetTo BitFlags8 0 6 true = Ok (false, fj) /\
    SetTo BitFlags8 fj 1 true = Ok (false, fij).
Proof.
  assert (H1 : in_range BitFlags8 1) by (unfold in_range; cbn; lia).
  assert (H6 : in_range BitFlags8 6) by (unfold in_range; cbn; lia).
  assert (Hne : 1 <> 6) by lia.
  split; [auto |].
  destruct (SetTo_idempotent_and_commutes BitFlags8 0 1 6 true true H1 H6)
    as [_ Hcomm].
  destruct (Hcomm Hne) as (oi & oj & fi & fj & fij & Ha & Hb & Hc & Hd).
  assert (Hoi : oi = false).
  { assert (E : SetTo BitFlags8 0 1 true = Ok (false, 2)) by reflexivity.
    rewrite E in Ha. injection Ha as <- _. reflexivity. }
  assert (Hoj : oj = false).
  { assert (E : SetTo BitFlags8 0 6 true = Ok (false, 64)) by reflexivity.
    rewrite E in Hc. injection Hc as <- _. reflexivity. }
  subst oi oj. exists fi, fj, fij. auto.
Defined.

Lemma allOnes_ones T : allOnes T = Z.ones (Size T).
Proof. destruct T; reflexivity. Qed.

Lemma valueOf_allOnes T : valueOf T (allOnes T).
Proof. destruct T; vm_compute; (split; [discriminate | reflexivity]). Qed.

Lemma testbit_allOnes T idx : in_range T idx -> Z.testbit (allOnes T) idx = true.
Proof.
  intros H. unfold in_range in H. rewrite allOnes_ones.
  apply Z.ones_spec_low. lia.
Qed.

(** X4.  After [SetAll] every bit of the allowed range is set, [AllSet] and
    [AnySet] report [true] and the flags are a value of the type; after
    [ResetAll] every bit is unset and [AnySet] and [AllSet] report [false]. *)
Theorem SetAll_ResetAll (T : Width) (f : Z) :
  (valueOf T (setAll T f) /\
   AllSet T (setAll T f) = Ok true /\
   AnySet T (setAll T f) = Ok true /\
   forall idx, in_range T idx -> Is T (setAll T f) idx = Ok true) /\
  (valueOf T (resetAll T f) /\
   AnySet T (resetAll T f) = Ok false /\
   AllSet T (resetAll T f) = Ok false /\
   forall idx, in_range T idx -> Is T (resetAll T f) idx = Ok false).
Proof.
  unfold setAll, resetAll, AllSet, AnySet, allSet, anySet. cbn [length Z.of_nat].
  split.
  - split; [apply valueOf_allOnes |].
    split; [rewrite !Z.eqb_refl; reflexivity |].
    split; [destruct T; reflexivity |].
    intros idx H. rewrite Is_testbit, testbit_allOnes by exact H. reflexivity.
  - split; [pose proof (Size_pos T); unfold valueOf; split;
            [lia | apply Z.pow_pos_nonneg; lia] |].
    split; [reflexivity |].
    split; [destruct T; reflexivity |].
    intros idx H. rewrite Is_testbit, Z.bits_0 by exact H. reflexivity.
Qed.

Lemma SetAll_ResetAll_witness :
  in_range BitFlags32 31 /\
  Is BitFlags32 (setAll BitFlags32 5) 31 = Ok true /\
  Is BitFlags32 (resetAll BitFlags32 5) 31 = Ok false.
Proof.
  assert (Hin : in_range BitFlags32 31) by (unfold in_range; cbn; lia).
  split; [exact Hin |].
  destruct (SetAll_ResetAll BitFlags32 5) as [(_ & _ & _ & Hs) (_ & _ & _ & Hr)].
  split; [apply Hs, Hin | apply Hr, Hin].
Defined.

(** X5.  On a value of the type, [AnySet] reports [true] exactly when [Is]
    does at some index of the allowed range, and [AllSet] exactly when [Is]
    does at every index of the allowed range; both always return. *)
Theorem AnySet_AllSet_meaning (T : Width) (f : Z) :
  valueOf T f ->
  (exists any, AnySet T f = Ok any /\
     (any = true <-> exists idx, in_range T idx /\ Is T f idx = Ok true)) /\
  (exists all, AllSet T f = Ok all /\
     (all = true <-> forall idx, in_range T idx -> Is T f idx = Ok true)).
Proof.
  intros Hf. pose proof Hf as Hv. unfold valueOf in Hv.
  pose proof (Size_pos T) as Hs.
  unfold AnySet, AllSet, anySet, allSet. cbn [length Z.of_nat Z.eqb]. split.
  - eexists. split; [reflexivity |]. rewrite negb_true_iff, Z.eqb_neq. split.
    + intros Hne. assert (Hpos : 0 < f) by lia.
      exists (Z.log2 f).
      assert (Hin : in_range T (Z.log2 f)).
      { unfold in_range. pose proof (Z.log2_nonneg f).
        assert (Z.log2 f < Size T) by (apply Z.log2_lt_pow2; lia). lia. }
      split; [exact Hin |]. rewrite Is_testbit by exact Hin.
      rewrite Z.bit_log2 by exact Hpos. reflexivity.
    + intros (idx & Hin & His) ->. rewrite Is_testbit in His by exact Hin.
      rewrite Z.bits_0 in His. discriminate.
  - eexists. split; [reflexivity |]. rewrite Z.eqb_eq. split.
    + intros -> idx Hin. rewrite Is_testbit, testbit_allOnes by exact Hin.
      reflexivity.
    + intros Hall. apply valueOf_bits in Hf as [H0 Hhigh].
      apply Z.bits_inj'. intros n Hn. rewrite allOnes_ones.
      destruct (Z.lt_ge_cases n (Size T)) as [Hlt | Hge].
      * rewrite Z.ones_spec_low by lia.
        assert (Hin : in_range T n) by (unfold in_range; lia).
        specialize (Hall n Hin). rewrite Is_testbit in Hall by exact Hin.
        injection Hall as ->. reflexivity.
      * rewrite Z.ones_spec_high by lia. apply Hhigh, Hge.
Qed.

Lemma AnySet_AllSet_meaning_witness :
  valueOf BitFlags8 4 /\
  AnySet BitFlags8 4 = Ok true /\
  exists idx, in_range BitFlags8 idx /\ Is BitFlags8 4 idx = Ok true.
Proof.
  assert (Hv : valueOf BitFlags8 4) by (unfold valueOf; cbn; lia).
  split; [exact Hv |]. split; [reflexivity |].
  destruct (AnySet_AllSet_meaning BitFlags8 4 Hv) as [(any & Hany & Hiff) _].
  apply Hiff. assert (E : AnySet BitFlags8 4 = Ok true) by reflexivity.
  rewrite E in Hany. injection Hany as <-. reflexivity.
Defined.

Lemma anySet_loop_eq T f idxs : forall acc,
  Forall (in_range T) idxs ->
  anySet_loop T f (Size T) idxs acc = Ok (acc || existsb (Z.testbit f) idxs).
Proof.
  induction idxs as [| i idxs IH]; intros acc H; cbn [anySet_loop existsb].
  - rewrite orb_false_r. reflexivity.
  - apply Forall_cons in H as [Hi H]. pose proof Hi as Hr. unfold in_range in Hr.
    rewrite validateBitIndex_in by lia. cbn. rewrite bit_in by exact Hi. cbn.
    rewrite land_pow2, IH by (lia || exact H).
    destruct (Z.testbit f i), acc; reflexivity.
Qed.

Lemma allSet_loop_eq T f idxs : forall acc,
  Forall (in_range T) idxs ->
  allSet_loop T f (Size T) idxs acc = Ok (acc && forallb (Z.testbit f) idxs).
Proof.
  induction idxs as [| i idxs IH]; intros acc H; cbn [allSet_loop forallb].
  - rewrite andb_true_r. reflexivity.
  - apply Forall_cons in H as [Hi H]. pose proof Hi as Hr. unfold in_range in Hr.
    rewrite validateBitIndex_in by lia. cbn. rewrite bit_in by exact Hi. cbn.
    pose proof (land_pow2 f i ltac:(lia)) as Hb.
    destruct (Z.land f (2 ^ i) =? 0); cbn in Hb; rewrite <- Hb, IH by exact H;
      destruct acc; reflexivity.
Qed.

(** X6.  With at least one index, all in the allowed range, [AnyOf] reports
    [true] exactly when [Is] does at one of them and [AllOf] exactly when
    [Is] does at each of them. *)
Theorem AnyOf_AllOf_meaning (T : Width) (f : Z) (idxs : list Z) :
  idxs <> [] -> Forall (in_range T) idxs ->
  (exists any, AnyOf T f idxs = Ok any /\
     (any = true <-> Exists (fun idx => Is T f idx = Ok true) idxs)) /\
  (exists all, AllOf T f idxs = Ok all /\
     (all = true <-> Forall (fun idx => Is T f idx = Ok true) idxs)).
Proof.
  intros Hne Hin. unfold AnyOf, AllOf, anySet, allSet.
  destruct idxs as [| i0 rest]; [contradiction |].
  replace (Z.of_nat (length (i0 :: rest)) =? 0) with false
    by (symmetry; apply Z.eqb_neq; cbn [length]; lia).
  rewrite anySet_loop_eq, allSet_loop_eq by exact Hin. cbn [orb andb].
  split; eexists; (split; [reflexivity |]).
  - rewrite existsb_exists, List.Exists_exists. split.
    + intros (idx & Hidx & Hb). exists idx. split; [exact Hidx |].
      rewrite Is_testbit, Hb; [reflexivity |].
      rewrite List.Forall_forall in Hin. apply Hin, Hidx.
    + intros (idx & Hidx & His). exists idx. split; [exact Hidx |].
      rewrite Is_testbit in His; [congruence |].
      rewrite List.Forall_forall in Hin. apply Hin, Hidx.
  - rewrite forallb_forall, List.Forall_forall. split.
    + intros Hall idx Hidx. rewrite Is_testbit, Hall; [reflexivity | exact Hidx |].
      rewrite List.Forall_forall in Hin. apply Hin, Hidx.
    + intros Hall idx Hidx. specialize (Hall idx Hidx).
      rewrite Is_testbit in Hall; [congruence |].
      rewrite List.Forall_forall in Hin. apply Hin, Hidx.
Qed.

Lemma AnyOf_AllOf_meaning_witness :
  ([0; 2] <> [] /\ Forall (in_range BitFlags8) [0; 2]) /\
  AllOf BitFlags8 5 [0; 2] = Ok true /\
  Forall (fun idx => Is BitFlags8 5 idx = Ok true) [0; 2].
Proof.
  assert (Hne : [0; 2] <> ([] : list Z)) by discriminate.
  assert (Hin : Forall (in_range BitFlags8) [0; 2])
    by (repeat constructor; cbn; lia).
  split; [auto |]. split; [reflexivity |].
  destruct (AnyOf_AllOf_meaning BitFlags8 5 [0; 2] Hne Hin) as [_ (all & Hall & Hiff)].
  apply Hiff. assert (E : AllOf BitFlags8 5 [0; 2] = Ok true) by reflexivity.
  rewrite E in Hall. injection Hall as <-. reflexivity.
Defined.

(** ** Printing *)

Lemma str_app_assoc (s t u : string) : (s +:+ t) +:+ u = s +:+ (t +:+ u).
Proof.
  induction s as [| c s IH]; [reflexivity |].
  rewrite !bytes_props.str_app_cons, IH. reflexivity.
Qed.

Lemma getBinaryString_loop_eq T f l : forall str,
  Forall (fun i => in_range T (Size T - i - 1)) l ->
  getBinaryString_loop T f (Size T) l str = Ok (str +:+ binaryDigits f (Size T) l).
Proof.
  induction l as [| i l IH]; intros str H; cbn [getBinaryString_loop binaryDigits].
  - rewrite bytes_props.str_app_nil_r. reflexivity.
  - apply Forall_cons in H as [Hi H]. rewrite bit_in by exact Hi. cbn.
    rewrite land_pow2 by (unfold in_range in Hi; lia). rewrite IH by exact H.
    unfold WriteByte, binaryDigit.
    destruct (Z.testbit f (Size T - i - 1)); rewrite str_app_assoc; reflexivity.
Qed.

Lemma seqZ_in_range T : Forall (fun i => in_range T (Size T - i - 1)) (seqZ 0 (Size T)).
Proof.
  apply Forall_forall. intros i Hi. apply elem_of_seqZ in Hi.
  unfold in_range. lia.
Qed.

Lemma getBinaryString_eq T f :
  getBinaryString T f = Ok (binaryDigits f (Size T) (seqZ 0 (Size T))).
Proof.
  unfold getBinaryString. rewrite getBinaryString_loop_eq by apply seqZ_in_range.
  reflexivity.
Qed.

Lemma length_binaryDigits f size l :
  String.length (binaryDigits f size l) = length l.
Proof. induction l as [| i l IH]; cbn; [reflexivity | rewrite IH; reflexivity]. Qed.

Lemma get_binaryDigits f size l : forall n,
  String.get n (binaryDigits f size l)
  = (fun i => binaryDigit (Z.testbit f (size - i - 1))) <$> l !! n.
Proof.
  induction l as [| i l IH]; intros [| n]; cbn; try reflexivity. apply IH.
Qed.

(** X7.  [String] returns as many binary digits as the type has bits, most
    significant bit first: the digit at position [i] is [1] exactly when
    [Is] reports [true] at the index [Size() - 1 - i]. *)
Theorem String_digits (T : Width) (f : Z) :
  exists s,
    String_ T f = Ok s /\
    Z.of_nat (String.length s) = Size T /\
    forall i b,
      0 <= i < Size T -> Is T f (Size T - 1 - i) = Ok b ->
      String.get (Z.to_nat i) s = Some (if b then "1" else "0")%char.
Proof.
  pose proof (Size_pos T) as Hs.
  exists (binaryDigits f (Size T) (seqZ 0 (Size T))). unfold String_.
  split; [apply getBinaryString_eq |].
  split; [rewrite length_binaryDigits, length_seqZ; lia |].
  intros i b Hi His.
  rewrite Is_testbit in His by (unfold in_range; lia). injection His as <-.
  rewrite get_binaryDigits, lookup_seqZ_lt by lia. cbn.
  replace (Size T - (0 + Z.of_nat (Z.to_nat i)) - 1) with (Size T - 1 - i) by lia.
  reflexivity.
Qed.

Lemma String_digits_witness :
  (0 <= 13 < Size BitFlags16 /\ Is BitFlags16 1092 (Size BitFlags16 - 1 - 13) = Ok true) /\
  String_ BitFlags16 1092 = Ok "0000010001000100" /\
  String.get 13 "0000010001000100" = Some "1"%char.
Proof.
  assert (Hi : 0 <= 13 < Size BitFlags16) by (cbn; lia).
  assert (His : Is BitFlags16 1092 (Size BitFlags16 - 1 - 13) = Ok true) by reflexivity.
  split; [auto |].
  destruct (String_digits BitFlags16 1092) as (s & Hs & _ & Hget).
  assert (E : String_ BitFlags16 1092 = Ok "0000010001000100") by reflexivity.
  rewrite E in Hs. injection Hs as <-. split; [exact E |].
  exact (Hget 13 true Hi His).
Defined.

Lemma parseBinary_digits f size (n : nat) : forall acc,
  0 <= size - Z.of_nat n ->
  parseBinary (binaryDigits f size (seqZ (size - Z.of_nat n) (Z.of_nat n))) acc
  = acc * 2 ^ Z.of_nat n + f mod 2 ^ Z.of_nat n.
Proof.
  induction n as [| n IH]; intros acc Hn.
  - change (Z.of_nat 0) with 0. change (seqZ (size - 0) 0) with (@nil Z).
    cbn [binaryDigits parseBinary]. rewrite Z.pow_0_r, Z.mod_1_r. lia.
  - rewrite seqZ_cons by lia. cbn [binaryDigits parseBinary].
    replace (Z.succ (size - Z.of_nat (S n))) with (size - Z.of_nat n) by lia.
    replace (Z.pred (Z.of_nat (S n))) with (Z.of_nat n) by lia.
    rewrite IH by lia.
    replace (size - (size - Z.of_nat (S n)) - 1) with (Z.of_nat n) by lia.
    replace (Z.of_nat (S n)) with (Z.of_nat n + 1) by lia.
    rewrite Z.pow_add_r, Z.pow_1_r by lia.
    rewrite (Z.rem_mul_r f (2 ^ Z.of_nat n) 2) by (try apply Z.pow_nonzero; lia).
    rewrite <- Z.testbit_spec' by lia.
    unfold binaryDigit. destruct (Z.testbit f (Z.of_nat n)); cbn [Ascii.eqb Z.b2z];
      cbn; lia.
Qed.

(** X8.  Reading the digits of [String] back as a binary number gives the
    flags. *)
Theorem String_round_trip (T : Width) (f : Z) :
  valueOf T f ->
  exists s, String_ T f = Ok s /\ parseBinary s 0 = f.
Proof.
  intros Hf. pose proof (Size_pos T) as Hs.
  exists (binaryDigits f (Size T) (seqZ 0 (Size T))). unfold String_.
  split; [apply getBinaryString_eq |].
  pose proof (parseBinary_digits f (Size T) (Z.to_nat (Size T)) 0 ltac:(lia)) as H.
  rewrite Z2Nat.id in H by lia.
  replace (Size T - Size T) with 0 in H by lia. rewrite H.
  rewrite Z.mod_small by exact Hf. lia.
Qed.

Lemma String_round_trip_witness :
  valueOf BitFlags16 1092 /\
  String_ BitFlags16 1092 = Ok "0000010001000100" /\
  parseBinary "0000010001000100" 0 = 1092.
Proof.
  assert (Hv : valueOf BitFlags16 1092) by (unfold valueOf; cbn; lia).
  split; [exact Hv |].
  destruct (String_round_trip BitFlags16 1092 Hv) as (s & Hs & Hp).
  assert (E : String_ BitFlags16 1092 = Ok "0000010001000100") by reflexivity.
  rewrite E in Hs. injection Hs as <-. auto.
Defined.

Lemma separator_cases size i :
  (i = size - 1 /\ separator size i = "") \/
  (i <> size - 1 /\
   exists c, separator size i = String.String c EmptyString /\
             c = (if (i + 1) mod 8 =? 0 then "_"%char else "|"%char)).
Proof.
  unfold separator. destruct (Z.eqb_spec i (size - 1)); [left; auto | right].
  split; [assumption |]. destruct ((i + 1) mod 8 =? 0); eauto.
Qed.

Lemma getPrettyString_loop_eq T f l : forall str,
  Forall (fun i => 0 <= i /\ in_range T (Size T - i - 1)) l ->
  getPrettyString_loop T f (Size T) l str = Ok (str +:+ prettyDigits f (Size T) l).
Proof.
  induction l as [| i l IH]; intros str H; cbn [getPrettyString_loop prettyDigits].
  - rewrite bytes_props.str_app_nil_r. reflexivity.
  - apply Forall_cons in H as [[H0 Hi] H]. rewrite bit_in by exact Hi. cbn.
    rewrite land_pow2 by (unfold in_range in Hi; lia). rewrite IH by exact H.
    rewrite Z.rem_mod_nonneg by lia.
    assert (Hsep : (if i =? Size T - 1 then ""
                    else if ((i + 1) mod 8 =? 0) && negb (i =? 0) then "_" else "|")
                   = separator (Size T) i).
    { unfold separator. destruct (i =? Size T - 1); [reflexivity |].
      destruct (Z.eqb_spec ((i + 1) mod 8) 0) as [Hm | Hm]; [| reflexivity].
      destruct (Z.eqb_spec i 0) as [-> | Hne]; [discriminate | reflexivity]. }
    rewrite <- Hsep. unfold WriteString, prettyDigit.
    destruct (Z.testbit f (Size T - i - 1)); cbn [negb];
      destruct (i =? Size T - 1);
      [| destruct (((i + 1) mod 8 =? 0) && negb (i =? 0)) |
       | destruct (((i + 1) mod 8 =? 0) && negb (i =? 0))];
      rewrite str_app_assoc; reflexivity.
Qed.

Lemma seqZ_pretty_range T :
  Forall (fun i => 0 <= i /\ in_range T (Size T - i - 1)) (seqZ 0 (Size T)).
Proof.
  apply Forall_forall. intros i Hi. apply elem_of_seqZ in Hi.
  unfold in_range. lia.
Qed.

Lemma getPrettyString_eq T f :
  getPrettyString T f = Ok (prettyDigits f (Size T) (seqZ 0 (Size T))).
Proof.
  unfold getPrettyString. rewrite getPrettyString_loop_eq by apply seqZ_pretty_range.
  reflexivity.
Qed.

Lemma plain_prettyDigits f size l :
  plain (prettyDigits f size l) = binaryDigits f size l.
Proof.
  induction l as [| i l IH]; [reflexivity |]. cbn [prettyDigits binaryDigits].
  assert (Hsep : plain (separator size i +:+ prettyDigits f size l)
                 = plain (prettyDigits f size l)).
  { destruct (separator_cases size i) as [[_ ->] | [_ (c & -> & ->)]]; [reflexivity |].
    destruct ((i + 1) mod 8 =? 0); reflexivity. }
  unfold prettyDigit, binaryDigit.
  destruct (Z.testbit f (size - i - 1)); cbn [plain Ascii.eqb Bool.eqb];
    rewrite Hsep, IH; reflexivity.
Qed.

(** The pretty digits of the indexes [m .. size-1]: length and positions. *)
Lemma prettyDigits_positions f size (k : nat) : forall m,
  m + Z.of_nat k = size ->
  let s := prettyDigits f size (seqZ m (Z.of_nat k)) in
  (Z.of_nat (String.length s) = if k is O then 0 else 2 * Z.of_nat k - 1) /\
  (forall i, m <= i < size ->
     String.get (Z.to_nat (2 * (i - m))) s
     = Some (prettyDigit (Z.testbit f (size - i - 1)))) /\
  (forall i, m <= i < size - 1 ->
     String.get (Z.to_nat (2 * (i - m) + 1)) s
     = Some (if (i + 1) mod 8 =? 0 then "_"%char else "|"%char)).
Proof.
  induction k as [| k IH]; intros m Hm.
  - change (Z.of_nat 0) with 0. change (seqZ m 0) with (@nil Z). cbn.
    split; [reflexivity |]. split; intros i Hi; lia.
  - cbn zeta. rewrite seqZ_cons by lia.
    replace (Z.pred (Z.of_nat (S k))) with (Z.of_nat k) by lia.
    destruct (IH (Z.succ m) ltac:(lia)) as (Hlen & Hdig & Hsep). cbn zeta in *.
    cbn [prettyDigits].
    destruct (separator_cases size m) as [[Hlast Hs] | [Hnot (c & Hs & Hc)]];
      rewrite Hs.
    + assert (k = 0%nat) by lia. subst k.
      change (Z.of_nat 0) with 0. change (seqZ (Z.succ m) 0) with (@nil Z). cbn.
      split; [reflexivity |]. split.
      * intros i Hi. assert (i = m) by lia. subst i.
        replace (2 * (m - m)) with 0 by lia. reflexivity.
      * intros i Hi. lia.
    + rewrite bytes_props.str_app_cons, bytes_props.str_app_nil_l.
      cbn [String.length]. split; [destruct k; lia |]. split.
      * intros i Hi. destruct (Z.eq_dec i m) as [-> | Hne].
        -- replace (2 * (m - m)) with 0 by lia. reflexivity.
        -- replace (Z.to_nat (2 * (i - m)))
             with (S (S (Z.to_nat (2 * (i - Z.succ m))))) by lia.
           cbn [String.get]. apply Hdig. lia.
      * intros i Hi. destruct (Z.eq_dec i m) as [-> | Hne].
        -- replace (2 * (m - m) + 1) with 1 by lia. cbn. rewrite Hc. reflexivity.
        -- replace (Z.to_nat (2 * (i - m) + 1))
             with (S (S (Z.to_nat (2 * (i - Z.succ m) + 1)))) by lia.
           cbn [String.get]. apply Hsep. lia.
Qed.

(** X9.  [PrettyString] returns [2 * Size() - 1] characters: at the even
    position [2 i], [I] or [O] as [Is] reports at the index
    [Size() - 1 - i]; at the odd position [2 i + 1], the separator [_] after
    every eighth bit and [|] elsewhere.  Without the separators and with
    [1] and [0] for [I] and [O], it is the result of [String]. *)
Theorem PrettyString_shape (T : Width) (f : Z) :
  exists s,
    PrettyString T f = Ok s /\
    Z.of_nat (String.length s) = 2 * Size T - 1 /\
    (forall i b,
       0 <= i < Size T -> Is T f (Size T - 1 - i) = Ok b ->
       String.get (Z.to_nat (2 * i)) s = Some (if b then "I"%char else "O"%char)) /\
    (forall i,
       0 <= i < Size T - 1 ->
       String.get (Z.to_nat (2 * i + 1)) s
       = Some (if (i + 1) mod 8 =? 0 then "_"%char else "|"%char)) /\
    String_ T f = Ok (plain s).
Proof.
  pose proof (Size_pos T) as Hs.
  exists (prettyDigits f (Size T) (seqZ 0 (Size T))). unfold PrettyString, String_.
  split; [apply getPrettyString_eq |].
  destruct (prettyDigits_positions f (Size T) (Z.to_nat (Size T)) 0 ltac:(lia))
    as (Hlen & Hdig & Hsep).
  cbn zeta in *. rewrite Z2Nat.id in * by lia.
  split; [rewrite Hlen; destruct (Z.to_nat (Size T)) eqn:E; lia |].
  split; [| split].
  - intros i b Hi His.
    rewrite Is_testbit in His by (unfold in_range; lia). injection His as <-.
    specialize (Hdig i Hi). rewrite Z.sub_0_r in Hdig. rewrite Hdig.
    replace (Size T - i - 1) with (Size T - 1 - i) by lia. reflexivity.
  - intros i Hi. specialize (Hsep i ltac:(lia)). rewrite Z.sub_0_r in Hsep.
    exact Hsep.
  - rewrite plain_prettyDigits. apply getBinaryString_eq.
Qed.

Lemma PrettyString_shape_witness :
  (0 <= 7 < Size BitFlags16 - 1 /\ 0 <= 5 < Size BitFlags16 /\
   Is BitFlags16 1092 (Size BitFlags16 - 1 - 5) = Ok true) /\
  PrettyString BitFlags16 1092 = Ok "O|O|O|O|O|I|O|O_O|I|O|O|O|I|O|O" /\
  String.get 15 "O|O|O|O|O|I|O|O_O|I|O|O|O|I|O|O" = Some "_"%char /\
  String.get 10 "O|O|O|O|O|I|O|O_O|I|O|O|O|I|O|O" = Some "I"%char.
Proof.
  assert (H7 : 0 <= 7 < Size BitFlags16 - 1) by (cbn; lia).
  assert (H5 : 0 <= 5 < Size BitFlags16) by (cbn; lia).
  assert (His : Is BitFlags16 1092 (Size BitFlags16 - 1 - 5) = Ok true) by reflexivity.
  split; [auto |].
  destruct (PrettyString_shape BitFlags16 1092) as (s & Hs & _ & Hdig & Hsep & _).
  assert (E : PrettyString BitFlags16 1092 = Ok "O|O|O|O|O|I|O|O_O|I|O|O|O|I|O|O")
    by reflexivity.
  rewrite E in Hs. injection Hs as <-. split; [exact E |].
  split; [exact (Hsep 7 H7) | exact (Hdig 5 true H5 His)].
Defined.

Lemma panicMessage_small T :
  forallb (panicMessage_check T) (seqZ (-99) 199) = true.
Proof. destruct T; vm_compute; reflexivity. Qed.

Lemma validateBitIndex_message T idx :
  out_of_range T idx ->
  validateBitIndex (Size T) idx = Panic (panicMessage T idx) /\
  len (panicMessage T idx) <= 30.
Proof.
  intros Hout. unfold out_of_range in Hout.
  destruct (Z_lt_dec (-100) idx) as [Hlo | Hlo];
    [destruct (Z_lt_dec idx 100) as [Hhi | Hhi] |].
  - pose proof (panicMessage_small T) as Hall.
    rewrite forallb_forall in Hall.
    specialize (Hall idx ltac:(apply list_elem_of_In, elem_of_seqZ; lia)).
    unfold panicMessage_check in Hall.
    replace ((idx <? 0) || (idx >=? Size T)) with true in Hall
      by (symmetry; apply orb_true_iff; lia).
    destruct (validateBitIndex (Size T) idx) as [| m |]; try discriminate.
    apply andb_true_iff in Hall as [Heq Hlen].
    apply String.eqb_eq in Heq. subst m. split; [reflexivity | lia].
  - unfold validateBitIndex, panicMessage, nSmalls.
    change (Z.opp 100) with (-100).
    replace ((idx <? 0) || (idx >=? Size T)) with true
      by (symmetry; apply orb_true_iff; destruct T; cbn; lia).
    replace (idx <? 100) with false by (symmetry; apply Z.ltb_ge; lia).
    rewrite !andb_false_r. destruct T; (split; [reflexivity | vm_compute; discriminate]).
  - unfold validateBitIndex, panicMessage, nSmalls.
    change (Z.opp 100) with (-100).
    replace ((idx <? 0) || (idx >=? Size T)) with true
      by (symmetry; apply orb_true_iff; lia).
    replace (-100 <? idx) with false by (symmetry; apply Z.ltb_ge; lia).
    cbn [andb]. destruct T; (split; [reflexivity | vm_compute; discriminate]).
Qed.

(** X10.  An index operation on an index out of range panics with the
    message [index <idx> out of range [0..<Size()-1>]], the index written in
    decimal, and left out when it is not between [-99] and [99]; the message
    fits the 30 bytes the code reserves for it. *)
Theorem out_of_range_panic_message (T : Width) (f idx : Z) (new : bool) :
  out_of_range T idx ->
  Is T f idx = Panic (panicMessage T idx) /\
  SetTo T f idx new = Panic (panicMessage T idx) /\
  Toggle T f idx = Panic (panicMessage T idx) /\
  AnyOf T f [idx] = Panic (panicMessage T idx) /\
  AllOf T f [idx] = Panic (panicMessage T idx) /\
  len (panicMessage T idx) <= 30.
Proof.
  intros Hout. destruct (validateBitIndex_message T idx Hout) as [Hv Hlen].
  unfold Is, SetTo, Toggle, AnyOf, AllOf, is_, set, toggle, anySet, allSet.
  cbn [length Z.of_nat Z.eqb Pos.of_succ_nat anySet_loop allSet_loop].
  rewrite Hv. repeat split; try reflexivity. exact Hlen.
Qed.

Lemma out_of_range_panic_message_witness :
  out_of_range BitFlags8 (-9) /\
  Is BitFlags8 5 (-9) = Panic "index -9 out of range [0..7]" /\
  Toggle BitFlags8 5 (-9) = Panic "index -9 out of range [0..7]".
Proof.
  assert (Hout : out_of_range BitFlags8 (-9)) by (unfold out_of_range; cbn; lia).
  split; [exact Hout |].
  destruct (out_of_range_panic_message BitFlags8 5 (-9) true Hout)
    as (His & _ & Htoggle & _).
  split; [exact His | exact Htoggle].
Defined.

End flagged_extra.

(** * Further properties of the generator *)

Module genflagged_extra.
Import genflagged bytes_spec genflagged_spec genflagged_props genflagged_run_spec.

Lemma sort_insert_perm less p l : Permutation (sort_insert less p l) (p :: l).
Proof.
  induction l as [| q l IH]; cbn; [reflexivity |].
  destruct (less q p); [| reflexivity].
  rewrite IH. apply perm_swap.
Qed.

Lemma sort_Slice_perm less l : Permutation (sort_Slice l less) l.
Proof.
  induction l as [| p l IH]; cbn; [reflexivity |].
  rewrite sort_insert_perm, IH. reflexivity.
Qed.

Lemma flagSize_fits n :
  1 <= n -> flagSize n <= 64 ->
  In (flagSize n) supportedWidths /\ n <= flagSize n.
Proof.
  intros H1 H64. destruct (flagSize_cases n) as (H8 & H16 & H32 & H64' & Hout).
  assert (Hn : n <= 64).
  { destruct (Z_le_gt_dec n 64); [assumption |]. rewrite Hout in H64 by lia. lia. }
  split; [apply flagSize_supported; lia |].
  assert (Hc : n <= 8 \/ 9 <= n <= 16 \/ 17 <= n <= 32 \/ 33 <= n) by lia.
  destruct Hc as [Hc | [Hc | [Hc | Hc]]];
    [rewrite H8 by lia | rewrite H16 by lia | rewrite H32 by lia | rewrite H64' by lia];
    lia.
Qed.

Lemma generateForStruct_wellFormed g T out f g' :
  supportedSize (pkg g) -> sized f -> isValidStructFile f = true ->
  generateForStruct g T out f = Ok g' ->
  exists t,
    g' = {| buf := buf g ++ [Body t]; pkg := pkg g |} /\
    wellFormedBody t /\ SourceTypeName t = T /\ OutTypeName t = out.
Proof.
  intros Hsize Hsized Hvalid Hgen.
  apply generateForStruct_Ok_inv in Hgen as (size & -> & H64 & Hcase).
  apply isValidStructFile_true in Hvalid. unfold sized in Hsized.
  rewrite Hsized in H64, Hcase.
  destruct (flagSize_fits _ Hvalid H64) as [Hin Hle].
  eexists. split; [reflexivity |]. unfold wellFormedBody. cbn.
  repeat split; try lia.
  change (In size supportedWidths).
  destruct Hcase as [[_ ->] | (Hne & -> & _)]; [exact Hin |].
  destruct Hsize as [H0 | Hw]; [contradiction | exact Hw].
Qed.

Lemma main_types_wellFormed in_ p names : forall g idx ft rt g' ft' rt',
  supportedSize (pkg g) ->
  main_types in_ p g idx names ft rt = Ok (g', ft', rt') ->
  exists cs,
    buf g' = buf g ++ cs /\ Forall isBody cs /\ ft' = ft ++ bodies cs.
Proof.
  induction names as [| T names IH]; intros g idx ft rt g' ft' rt' Hsize H;
    cbn [main_types] in H.
  - injection H as <- <- <-. exists []. rewrite !app_nil_r. auto.
  - apply bind_Ok_inv in H as (out & _ & H).
    apply bind_Ok_inv in H as ([f |] & Hfind & H); [| eauto].
    destruct (isValidStructFile f) eqn:Hvalid; cbn [negb] in H;
      [| destruct (foundSourceType f); discriminate].
    apply bind_Ok_inv in H as (g1 & Hgen & H).
    apply findStructTypeFile_found in Hfind as (_ & _ & Hsized).
    destruct (generateForStruct_wellFormed _ _ _ _ _ Hsize Hsized Hvalid Hgen)
      as (t & -> & Hwf & HT & _).
    apply IH in H as (cs & Hbuf & Hcs & Hft); [| exact Hsize].
    cbn [buf] in Hbuf. exists (Body t :: cs).
    rewrite Hbuf, Hft, <- !app_assoc. cbn. rewrite HT.
    split; [reflexivity |]. split; [| reflexivity].
    constructor; [exact Hwf | exact Hcs].
Qed.

Lemma wellFormedFile_cons p pkgs w :
  wellFormedFile pkgs w -> wellFormedFile (p :: pkgs) w.
Proof. intros (q & c & cs & Hin & H). exists q, c, cs. split; [right |]; auto. Qed.

Lemma main_pkgs_wellFormed pkgs : forall in_ disk disk' r,
  Forall supportedSize pkgs ->
  main_pkgs in_ pkgs disk = (disk', r) ->
  exists ws, disk' = disk ++ ws /\ Forall (wellFormedFile pkgs) ws.
Proof.
  induction pkgs as [| p pkgs IH]; intros in_ disk disk' r Hsizes H;
    cbn [main_pkgs] in H.
  - injection H as <- _. exists []. rewrite app_nil_r. auto.
  - apply Forall_cons in Hsizes as [Hp Hsizes].
    assert (Hnone : exists ws, disk = disk ++ ws /\ Forall (wellFormedFile (p :: pkgs)) ws)
      by (exists []; rewrite app_nil_r; auto).
    destruct (main_types in_ p _ 0 (sourceTypeNames in_) [] [])
      as [[[g ft] rt] | |] eqn:Htypes;
      try (injection H as <- _; exact Hnone).
    apply main_types_wellFormed in Htypes as (cs & Hbuf & Hcs & Hft); [| exact Hp].
    cbn in Hbuf, Hft.
    destruct ft as [| first ft].
    + apply IH in H as (ws & -> & Hws); [| exact Hsizes]. exists ws.
      split; [reflexivity |].
      eapply Forall_impl; [exact Hws |]. intros w. apply wellFormedFile_cons.
    + destruct (_ && _); [injection H as <- _; exact Hnone |].
      apply IH in H as (ws & -> & Hws); [| exact Hsizes].
      eexists (_ :: ws). rewrite <- app_assoc. split; [reflexivity |].
      constructor.
      * destruct cs as [| c cs]; [discriminate |].
        exists p, c, cs. cbn [src]. rewrite Hbuf. cbn. auto.
      * eapply Forall_impl; [exact Hws |]. intros w. apply wellFormedFile_cons.
Qed.

(** X11.  When the [-size] argument of every package is 0 or one of 8, 16,
    32 and 64, every file that a run writes, also a run that ends with an
    error, holds the header of one of the packages and then one type or
    more; each type has one of the four widths, at least one flag and at
    most as many flags as its width. *)
Theorem written_files_are_well_formed
    (in_ : input) (pkgs : list Package) (ws : list Written) (r : Result unit) :
  Forall supportedSize pkgs ->
  main in_ pkgs = (ws, r) ->
  Forall (wellFormedFile pkgs) ws.
Proof.
  intros Hsizes Hmain. unfold main in Hmain.
  destruct (main_pkgs in_ (sort_Slice pkgs pkgLess) []) as [disk r'] eqn:Hrun.
  injection Hmain as <- _.
  apply main_pkgs_wellFormed in Hrun as (ws & -> & Hws).
  - cbn. eapply Forall_impl; [exact Hws |].
    intros w (p & c & cs & Hin & H). exists p, c, cs. split; [| exact H].
    eapply Permutation_in; [apply sort_Slice_perm | exact Hin].
  - eapply Permutation_Forall; [symmetry; apply sort_Slice_perm | exact Hsizes].
Qed.

Lemma written_files_are_well_formed_witness :
  let in_ := testdata.newInput ["T"; "W"] [] "" in
  Forall supportedSize [testdata.x] /\
  snd (main in_ [testdata.x])
    = Fatal "error: no matching types found for names: %s" [AStr "W"] /\
  length (fst (main in_ [testdata.x])) = 1%nat /\
  Forall (wellFormedFile [testdata.x]) (fst (main in_ [testdata.x])).
Proof.
  intros in_.
  assert (Hs : Forall supportedSize [testdata.x])
    by (apply List.Forall_cons; [left; reflexivity | apply List.Forall_nil]).
  split; [exact Hs |].
  split; [vm_compute; reflexivity |]. split; [vm_compute; reflexivity |].
  apply (written_files_are_well_formed in_ [testdata.x] _
           (snd (main in_ [testdata.x])) Hs).
  apply surjective_pairing.
Defined.

(** ** The names that no package declares *)

Lemma filter_true {A} (l : list A) : List.filter (fun _ => true) l = l.
Proof. induction l as [| a l IH]; cbn; [| rewrite IH]; reflexivity. Qed.

Lemma filter_filter_andb {A} (f g : A -> bool) (l : list A) :
  List.filter g (List.filter f l) = List.filter (fun x => f x && g x) l.
Proof.
  induction l as [| a l IH]; cbn; [reflexivity |].
  destruct (f a); cbn; [destruct (g a) |]; rewrite IH; reflexivity.
Qed.

Lemma unresolved_filter pkgs : forall names,
  unresolved pkgs names = List.filter (declaredNowhere pkgs) names.
Proof.
  induction pkgs as [| p pkgs IH]; intros names; cbn [unresolved].
  - symmetry. apply filter_true.
  - rewrite IH, filter_filter_andb. reflexivity.
Qed.

Lemma declaredNowhere_spec pkgs T :
  declaredNowhere pkgs T = true <-> forall p, In p pkgs -> foundIn p T = false.
Proof.
  unfold declaredNowhere. rewrite forallb_forall. unfold notFoundIn.
  split; intros H p Hp; specialize (H p Hp); destruct (foundIn p T);
    (reflexivity || discriminate).
Qed.

Lemma declaredNowhere_perm l l' T :
  Permutation l l' -> declaredNowhere l T = declaredNowhere l' T.
Proof.
  intros Hperm. apply eq_true_iff_eq. rewrite !declaredNowhere_spec.
  split; intros H p Hp; apply H; [rewrite Hperm | rewrite <- Hperm]; exact Hp.
Qed.

(** X12.  When the loop over the packages comes to its end, the run
    succeeds if every requested name was declared by some package;
    otherwise it ends, after the files have been written, with the error
    that lists, in the order of the request and separated by commas, the
    names that no package declares. *)
Theorem names_declared_nowhere_are_reported
    (in_ : input) (pkgs : list Package) (ws : list Written) (in' : input) :
  main_pkgs in_ (sort_Slice pkgs pkgLess) [] = (ws, Ok in') ->
  let missing := List.filter (declaredNowhere pkgs) (sourceTypeNames in_) in
  main in_ pkgs =
    (ws,
     match missing with
     | [] => Ok tt
     | _ => Fatal "error: no matching types found for names: %s"
              [AStr (strings_Join missing ",")]
     end) /\
  (forall T, In T missing <->
             In T (sourceTypeNames in_) /\
             forall p, In p pkgs -> foundIn p T = false).
Proof.
  intros Hrun missing. split.
  - unfold main. rewrite Hrun.
    apply main_pkgs_spec in Hrun as (ws' & _ & _ & Hleft).
    rewrite unresolved_filter in Hleft.
    assert (Hmissing : sourceTypeNames in' = missing).
    { rewrite Hleft. apply filter_ext. intros T.
      apply declaredNowhere_perm, sort_Slice_perm. }
    cbn. rewrite Hmissing. destruct missing; reflexivity.
  - intros T. unfold missing. rewrite filter_In, declaredNowhere_spec. reflexivity.
Qed.

Lemma names_declared_nowhere_are_reported_witness :
  let in_ := testdata.newInput ["W"; "T"; "Z"] [] "" in
  let pkgs := [testdata.xExternal; testdata.x] in
  exists ws,
    main in_ pkgs =
      (ws, Fatal "error: no matching types found for names: %s" [AStr "W,Z"]) /\
    map emittedNames ws = [["T"]].
Proof.
  intros in_ pkgs.
  destruct (main_pkgs in_ (sort_Slice pkgs pkgLess) []) as [ws r] eqn:Hrun.
  assert (Hr : exists in', r = Ok in').
  { assert (H : snd (main_pkgs in_ (sort_Slice pkgs pkgLess) []) = r)
      by (rewrite Hrun; reflexivity).
    vm_compute in H. rewrite <- H. eexists. reflexivity. }
  destruct Hr as [in' ->].
  assert (Hws : map emittedNames ws = [["T"]]).
  { assert (H : fst (main_pkgs in_ (sort_Slice pkgs pkgLess) []) = ws)
      by (rewrite Hrun; reflexivity).
    rewrite <- H. vm_compute. reflexivity. }
  destruct (names_declared_nowhere_are_reported in_ pkgs ws in' Hrun) as [Hmain _].
  exists ws. split; [| exact Hws].
  rewrite Hmain. f_equal.
Defined.

(** ** A single output file *)

Lemma filter_all {A} (f : A -> bool) (l : list A) :
  List.filter (fun x => negb (f x)) l = [] -> List.filter f l = l.
Proof.
  induction l as [| a l IH]; cbn; [reflexivity |].
  destruct (f a); cbn; [| discriminate]. intros H. rewrite IH by exact H. reflexivity.
Qed.

Lemma main_pkgs_no_names pkgs : forall in_ disk,
  sourceTypeNames in_ = [] -> main_pkgs in_ pkgs disk = (disk, Ok in_).
Proof.
  induction pkgs as [| p pkgs IH]; intros in_ disk Hnames; cbn [main_pkgs];
    [reflexivity |].
  rewrite Hnames. cbn [main_types]. apply IH, Hnames.
Qed.

Lemma main_pkgs_outFile pkgs : forall in_ disk disk' r,
  outFile in_ <> "" ->
  main_pkgs in_ pkgs disk = (disk', r) ->
  (disk' = disk /\ (forall in', r = Ok in' -> in' = in_)) \/
  (exists w in',
     disk' = disk ++ [w] /\ outFileName w = Explicit (outFile in_) /\
     emittedNames w = sourceTypeNames in_ /\
     r = Ok in' /\ sourceTypeNames in' = []).
Proof.
  induction pkgs as [| p pkgs IH]; intros in_ disk disk' r Hout H;
    cbn [main_pkgs] in H.
  - injection H as <- <-. left. split; [reflexivity |]. intros in' [= <-]. reflexivity.
  - destruct (main_types in_ p _ 0 (sourceTypeNames in_) [] [])
      as [[[g ft] rt] | |] eqn:Htypes;
      try (injection H as <- <-; left; split; [reflexivity | discriminate]).
    apply main_types_spec in Htypes as (Hft & Hrt & Hbodies).
    cbn in Hft, Hrt, Hbodies.
    destruct ft as [| first ft]; [apply IH in H; assumption |].
    rewrite bool_decide_eq_false_2 in H by exact Hout. cbn [negb] in H.
    destruct rt as [| T rt]; cbn in H;
      [| injection H as <- <-; left; split; [reflexivity | discriminate]].
    rewrite bool_decide_eq_false_2 in H by exact Hout.
    rewrite main_pkgs_no_names in H by reflexivity.
    injection H as <- <-. right. eexists _, _.
    split; [reflexivity |]. split; [reflexivity |].
    split; [| split; reflexivity].
    unfold emittedNames. cbn [src]. rewrite Hbodies, <- Hft, Hft.
    apply filter_all. symmetry. exact Hrt.
Qed.

(** X13.  With [-outFile], a run writes all or nothing: either no file is
    written, and then the run does not succeed unless no type was
    requested; or the run succeeds and has written one file, under the
    given name, with all the requested types in the order of the
    request. *)
Theorem outFile_all_or_nothing
    (in_ : input) (pkgs : list Package) (ws : list Written) (r : Result unit) :
  outFile in_ <> "" ->
  main in_ pkgs = (ws, r) ->
  (ws = [] /\ (r = Ok tt -> sourceTypeNames in_ = [])) \/
  (exists w,
     ws = [w] /\ outFileName w = Explicit (outFile in_) /\
     emittedNames w = sourceTypeNames in_ /\ r = Ok tt).
Proof.
  intros Hout Hmain. unfold main in Hmain.
  destruct (main_pkgs in_ (sort_Slice pkgs pkgLess) []) as [disk r'] eqn:Hrun.
  injection Hmain as <- <-.
  apply main_pkgs_outFile in Hrun as [[-> Hsame] | (w & in' & -> & Hname & Hemit & -> & Hnone)];
    [| | exact Hout].
  - left. split; [reflexivity |]. intros Hok.
    destruct r' as [in' | |]; try discriminate.
    rewrite (Hsame in' eq_refl) in Hok. cbn in Hok.
    destruct (sourceTypeNames in_); [reflexivity | discriminate].
  - right. exists w. cbn. rewrite Hnone. auto.
Qed.

Lemma outFile_all_or_nothing_witness :
  let one := testdata.newInput ["T"] [] "out.go" in
  let two := testdata.newInput ["T"; "U"] [] "out.go" in
  let pkgs := [testdata.xExternal; testdata.xForTests; testdata.x] in
  (outFile one <> "" /\ outFile two <> "") /\
  (exists w, main one pkgs = ([w], Ok tt) /\ outFileName w = Explicit "out.go" /\
             emittedNames w = ["T"]) /\
  fst (main two pkgs) = [].
Proof.
  intros one two pkgs.
  assert (H1 : outFile one <> "") by discriminate.
  assert (H2 : outFile two <> "") by discriminate.
  split; [auto |]. split.
  - destruct (outFile_all_or_nothing one pkgs _ _ H1 (surjective_pairing _))
      as [[Hnil _] | (w & Hws & Hname & Hemit & Hr)].
    + vm_compute in Hnil. discriminate.
    + exists w. split; [| split; assumption].
      rewrite (surjective_pairing (main one pkgs)), Hws, Hr. reflexivity.
  - destruct (outFile_all_or_nothing two pkgs _ _ H2 (surjective_pairing _))
      as [[Hnil _] | (w & _ & _ & _ & Hr)]; [exact Hnil |].
    vm_compute in Hr. discriminate.
Defined.

(** ** The names of the generated types *)

Lemma chooseOutTypeName_Ok in_ idx T out :
  chooseOutTypeName in_ idx T = Ok out ->
  out = outTypeNameFor (outTypeNames in_) idx T.
Proof.
  unfold chooseOutTypeName, outTypeNameFor, defaultOutTypeName.
  destruct (outTypeNames in_) as [| o0 outs] eqn:Houts.
  - cbn. intros [= <-]. rewrite lookup_nil. reflexivity.
  - replace (Z.of_nat (length (o0 :: outs)) >? 0) with true
      by (symmetry; apply Z.gtb_lt; cbn [length]; lia).
    destruct ((o0 :: outs) !! idx) as [o |]; [| discriminate].
    destruct (bool_decide (o = "_")); cbn; [intros [= <-]; reflexivity |].
    destruct o as [| c o]; cbn; intros [= <-]; reflexivity.
Qed.

Lemma chooseOutTypeName_returns in_ idx T :
  outTypeNames in_ = [] \/ (idx < length (outTypeNames in_))%nat ->
  chooseOutTypeName in_ idx T = Ok (outTypeNameFor (outTypeNames in_) idx T).
Proof.
  intros H.
  destruct (chooseOutTypeName in_ idx T) as [out | m | fmt a] eqn:E.
  - apply chooseOutTypeName_Ok in E. rewrite E. reflexivity.
  - exfalso. revert E. unfold chooseOutTypeName.
    destruct H as [-> | Hlt]; [cbn; discriminate |].
    destruct (lookup_lt_is_Some_2 _ _ Hlt) as [o ->].
    destruct (_ >? 0); cbn; [destruct (bool_decide (o = "_")); cbn |];
      repeat match goal with |- context [if ?b then _ else _] => destruct b end;
      discriminate.
  - exfalso. revert E. unfold chooseOutTypeName.
    destruct (_ >? 0); cbn;
      [destruct (_ !! _) as [o |]; [destruct (bool_decide (o = "_")) |]; cbn |];
      repeat match goal with |- context [if ?b then _ else _] => destruct b end;
      discriminate.
Qed.

Lemma chunkPairs_app a b : chunkPairs (a ++ b) = chunkPairs a ++ chunkPairs b.
Proof. unfold chunkPairs. apply flat_map_app. Qed.

Lemma main_types_pairs in_ p names : forall g idx ft rt g' ft' rt',
  main_types in_ p g idx names ft rt = Ok (g', ft', rt') ->
  chunkPairs (buf g') =
  chunkPairs (buf g) ++
  List.filter (fun tp => foundIn p (fst tp))
    (requestedPairs (outTypeNames in_) idx names).
Proof.
  induction names as [| T names IH]; intros g idx ft rt g' ft' rt' H;
    cbn [main_types] in H.
  - injection H as <- _ _. cbn. rewrite app_nil_r. reflexivity.
  - apply bind_Ok_inv in H as (out & Hout & H).
    apply chooseOutTypeName_Ok in Hout.
    apply bind_Ok_inv in H as (found & Hfind & H).
    cbn [requestedPairs List.filter fst]. unfold foundIn at 1. rewrite Hfind.
    destruct found as [f |].
    + destruct (negb (isValidStructFile f));
        [destruct (foundSourceType f); discriminate |].
      apply bind_Ok_inv in H as (g1 & Hgen & H).
      apply IH in H as ->.
      apply generateForStruct_Ok_inv in Hgen as (size & -> & _).
      cbn [emit buf]. rewrite chunkPairs_app. cbn. rewrite <- app_assoc, Hout.
      reflexivity.
    + apply IH in H. exact H.
Qed.

Lemma main_types_wf_header in_ p names : forall g idx ft rt g' ft' rt',
  main_types in_ p g idx names ft rt = Ok (g', ft', rt') ->
  exists cs, buf g' = buf g ++ cs.
Proof.
  induction names as [| T names IH]; intros g idx ft rt g' ft' rt' H;
    cbn [main_types] in H.
  - injection H as <- _ _. exists []. rewrite app_nil_r. reflexivity.
  - apply bind_Ok_inv in H as (out & _ & H).
    apply bind_Ok_inv in H as ([f |] & _ & H); [| eauto].
    destruct (negb (isValidStructFile f));
      [destruct (foundSourceType f); discriminate |].
    apply bind_Ok_inv in H as (g1 & Hgen & H).
    apply IH in H as (cs & ->).
    apply generateForStruct_Ok_inv in Hgen as (size & -> & _).
    cbn [emit buf]. rewrite <- app_assoc. eauto.
Qed.

Lemma main_pkgs_extends pkgs : forall in_ disk disk' r,
  main_pkgs in_ pkgs disk = (disk', r) -> exists ws, disk' = disk ++ ws.
Proof.
  induction pkgs as [| p pkgs IH]; intros in_ disk disk' r H; cbn [main_pkgs] in H.
  - injection H as <- _. exists []. rewrite app_nil_r. reflexivity.
  - assert (Hnone : exists ws, disk = disk ++ ws)
      by (exists []; rewrite app_nil_r; reflexivity).
    destruct (main_types in_ p _ 0 (sourceTypeNames in_) [] [])
      as [[[g ft] rt] | |]; try (injection H as <- _; exact Hnone).
    destruct ft as [| first ft]; [eapply IH, H |].
    destruct (_ && _); [injection H as <- _; exact Hnone |].
    apply IH in H as (ws & ->). rewrite <- app_assoc. eauto.
Qed.

Lemma main_pkgs_first_file pkgs : forall in_ w ws r,
  main_pkgs in_ pkgs [] = (w :: ws, r) ->
  exists p cs,
    In p pkgs /\ src w = Header (name p) :: cs /\
    pairings w =
    List.filter (fun tp => foundIn p (fst tp))
      (requestedPairs (outTypeNames in_) 0 (sourceTypeNames in_)).
Proof.
  induction pkgs as [| p pkgs IH]; intros in_ w ws r H; cbn [main_pkgs] in H;
    [discriminate |].
  destruct (main_types in_ p _ 0 (sourceTypeNames in_) [] [])
    as [[[g ft] rt] | |] eqn:Htypes; try discriminate.
  destruct ft as [| first ft].
  - apply IH in H as (q & cs & Hin & H). exists q, cs. split; [right |]; auto.
  - destruct (_ && _); [discriminate |].
    pose proof (main_types_pairs _ _ _ _ _ _ _ _ _ _ Htypes) as Hpairs.
    apply main_types_wf_header in Htypes as (cs & Hbuf).
    apply main_pkgs_extends in H as Hext. destruct Hext as (ws' & Hext).
    rewrite app_nil_l in Hext. cbn [app] in Hext. injection Hext as -> _.
    exists p, cs. split; [left; reflexivity |]. cbn [src]. split; [exact Hbuf |].
    unfold pairings. cbn [src]. exact Hpairs.
Qed.

Lemma requestedPairs_lookup outs names : forall idx i T,
  names !! i = Some T ->
  requestedPairs outs idx names !! i = Some (T, outTypeNameFor outs (idx + i) T).
Proof.
  induction names as [| T0 names IH]; intros idx i T H; [discriminate |].
  destruct i as [| i]; cbn [requestedPairs].
  - injection H as ->. rewrite Nat.add_0_r. reflexivity.
  - replace (idx + S i)%nat with (S idx + i)%nat by lia.
    exact (IH (S idx) i T H).
Qed.

(** X14.  The first file that a run writes holds, of the requested types,
    those that its package declares, each one with the name at its own
    position of [-outType]; the default name [<type>BitFlags] is taken when
    [-outType] is not given, or has [_] or nothing at that position.  The
    name is chosen without a failure when [-outType] is not given or has as
    many names as [-type]. *)
Theorem first_file_pairs_types_by_position
    (in_ : input) (pkgs : list Package) (w : Written) (ws : list Written)
    (r : Result unit) :
  main in_ pkgs = (w :: ws, r) ->
  (exists p cs,
     In p pkgs /\ src w = Header (name p) :: cs /\
     pairings w =
     List.filter (fun tp => foundIn p (fst tp))
       (requestedPairs (outTypeNames in_) 0 (sourceTypeNames in_))) /\
  (forall i T,
     sourceTypeNames in_ !! i = Some T ->
     requestedPairs (outTypeNames in_) 0 (sourceTypeNames in_) !! i
     = Some (T, outTypeNameFor (outTypeNames in_) i T) /\
     (outTypeNames in_ = [] \/
      length (outTypeNames in_) = length (sourceTypeNames in_) ->
      chooseOutTypeName in_ i T = Ok (outTypeNameFor (outTypeNames in_) i T))).
Proof.
  intros Hmain. unfold main in Hmain.
  destruct (main_pkgs in_ (sort_Slice pkgs pkgLess) []) as [disk r'] eqn:Hrun.
  injection Hmain as -> _. split.
  - apply main_pkgs_first_file in Hrun as (p & cs & Hin & H).
    exists p, cs. split; [| exact H].
    eapply Permutation_in; [apply sort_Slice_perm | exact Hin].
  - intros i T Hi. split; [apply (requestedPairs_lookup _ _ 0%nat), Hi |].
    intros Hlen. apply chooseOutTypeName_returns.
    destruct Hlen as [Hnil | Hlen]; [left; exact Hnil | right].
    rewrite Hlen. apply lookup_lt_Some in Hi. exact Hi.
Qed.

Lemma first_file_pairs_types_by_position_witness :
  let in_ := testdata.newInput ["T"; "U"] ["TFlags"; "_"] "" in
  exists w ws,
    main in_ [testdata.xForTests] = (w :: ws, Ok tt) /\
    pairings w = [("T", "TFlags"); ("U", "UBitFlags")].
Proof.
  intros in_.
  destruct (fst (main in_ [testdata.xForTests])) as [| w ws] eqn:Hfst;
    [vm_compute in Hfst; discriminate |].
  assert (Hmain : main in_ [testdata.xForTests]
                  = (w :: ws, snd (main in_ [testdata.xForTests])))
    by (rewrite <- Hfst; apply surjective_pairing).
  destruct (first_file_pairs_types_by_position in_ _ w ws _ Hmain)
    as [(p & cs & Hin & _ & Hpairs) _].
  destruct Hin as [<- | []].
  exists w, ws. split; [rewrite Hmain at 1; f_equal |].
  rewrite Hpairs. vm_compute. reflexivity.
Defined.

(** ** The search for a type *)

Lemma genStructDecl_specs_declares pkg specs : forall f f',
  genStructDecl_specs pkg f specs = Ok f' ->
  (is_Some (foundSourceType f) -> is_Some (foundSourceType f')) /\
  (Exists (declares (sourceTypeName f)) specs -> is_Some (foundSourceType f')) /\
  (is_Some (foundSourceType f') ->
   is_Some (foundSourceType f) \/ Exists (declares (sourceTypeName f)) specs).
Proof.
  induction specs as [| spec specs IH]; intros f f' H; cbn [genStructDecl_specs] in H.
  - injection H as <-. split; [auto |]. split; [| auto].
    intros He. apply Exists_nil in He. contradiction.
  - destruct spec as [tname ttype |]; [| discriminate].
    destruct (bool_decide_reflect (sourceTypeName f = ast.Name tname)) as [Heq | Hne];
      cbn [negb] in H.
    + assert (Hhere : declares (sourceTypeName f) (ast.TypeSpec tname ttype))
        by (exists tname, ttype; auto).
      destruct (defs pkg !! ast.addr tname) as [found |]; [| discriminate].
      assert (Hsome : is_Some (foundSourceType f'));
        [| split; [auto |]; split; [auto |]; intros _; right; left; exact Hhere].
      destruct ttype as [id | fields |];
        [| apply bind_Ok_inv in H as (fvs & _ & H) |];
        apply IH in H as (H & _); apply H; cbn; eauto.
    + apply IH in H as (H1 & H2 & H3). split; [exact H1 |]. split.
      * intros He. apply Exists_cons in He as [(tn & tt & [= <- <-] & Hn) | He];
          [congruence | auto].
      * intros Hs. destruct (H3 Hs); [left | right; right]; assumption.
Qed.

Lemma visitDecls_declares pkg decls : forall f f',
  visitDecls pkg decls f = Ok f' ->
  (is_Some (foundSourceType f) -> is_Some (foundSourceType f')) /\
  (Exists (Exists (declares (sourceTypeName f))) decls ->
   is_Some (foundSourceType f')) /\
  (is_Some (foundSourceType f') ->
   is_Some (foundSourceType f) \/
   Exists (Exists (declares (sourceTypeName f))) decls).
Proof.
  induction decls as [| specs decls IH]; intros f f' H; cbn [visitDecls] in H.
  - injection H as <-. split; [auto |]. split; [| auto].
    intros He. apply Exists_nil in He. contradiction.
  - apply bind_Ok_inv in H as (f1 & H1 & H). unfold visitDecl in H1.
    apply bind_Ok_inv in H1 as (f0 & H0 & [= <-]).
    pose proof (genStructDecl_specs_sourceTypeName _ _ _ _ H0) as Hname.
    apply genStructDecl_specs_declares in H0 as (A1 & A2 & A3).
    apply IH in H as (B1 & B2 & B3). cbn in B1, B2, B3. rewrite Hname in B2, B3.
    split; [auto |]. split.
    + intros He. apply Exists_cons in He as [He | He]; auto.
    + intros Hs. destruct (B3 Hs) as [Hs0 | He]; [| right; right; exact He].
      destruct (A3 Hs0); [left | right; left]; assumption.
Qed.

Lemma scanFile_declares p T f0 f :
  scanFile p T f0 = Ok f -> (is_Some (foundSourceType f) <-> declaredIn T f0).
Proof.
  unfold scanFile, declaredIn. rewrite Inspect_typeDecls. cbn [file].
  intros H. apply visitDecls_declares in H as (_ & H2 & H3). cbn in H2, H3.
  split; [| exact H2].
  intros Hs. destruct (H3 Hs) as [[o Ho] | He]; [discriminate | exact He].
Qed.

Lemma findStructTypeFile_loop_declares p T fs : forall r,
  findStructTypeFile_loop p T fs = Ok r ->
  (is_Some r <-> Exists (declaredIn T) fs).
Proof.
  induction fs as [| f0 fs IH]; intros r H; cbn [findStructTypeFile_loop] in H.
  - injection H as <-. split; [intros [? [=]] | intros He].
    apply Exists_nil in He. contradiction.
  - apply bind_Ok_inv in H as (f & Hscan & H).
    apply (scanFile_declares p T f0 f) in Hscan.
    destruct (foundSourceType f) as [o |] eqn:Ho.
    + injection H as <-. split; [intros _ | eauto].
      left. apply Hscan. eauto.
    + apply IH in H. rewrite H. split; [right; assumption |].
      intros He. apply Exists_cons in He as [He | He]; [| exact He].
      apply Hscan in He. destruct He as [? [=]].
Qed.

(** X15.  When the search for the name [T] in a package comes to its end, it
    has found a file exactly when, in some file of the package, the walk
    reaches a declaration of a type named [T]: a declaration at package
    level or one in the body of a function, of a struct type or of any other
    type. *)
Theorem found_exactly_when_declared (p : Package) (T : string) (r : option File) :
  findStructTypeFile p T = Ok r ->
  (is_Some r <-> Exists (declaredIn T) (files p)).
Proof. apply findStructTypeFile_loop_declares. Qed.

Lemma found_exactly_when_declared_witness :
  Exists (declaredIn "T") (files testdata.shadowedPackage) /\
  ~ Exists (declaredIn "U") (files testdata.x).
Proof.
  assert (HT : findStructTypeFile testdata.shadowedPackage "T"
               = Ok (Some (testdata.scanned testdata.shadowedPackage "T")))
    by (vm_compute; reflexivity).
  assert (HU : findStructTypeFile testdata.x "U" = Ok None)
    by (vm_compute; reflexivity).
  split.
  - apply (found_exactly_when_declared _ _ _ HT). eauto.
  - intros He. apply (found_exactly_when_declared _ _ _ HU) in He.
    destruct He as [? [=]].
Defined.

(** ** The order of the packages *)

Ltac pkgLess_cases :=
  unfold pkgLess;
  repeat match goal with
  | |- context [HasSuffix (name ?p) "_test"] =>
      destruct (HasSuffix (name p) "_test")
  end; cbn [Bool.eqb negb];
  rewrite ?Z.ltb_lt, ?Z.ltb_ge; try discriminate; try reflexivity; try lia.

Lemma pkgLess_irrefl a : pkgLess a a = false.
Proof. pkgLess_cases. Qed.

Lemma pkgLess_trans a b c :
  pkgLess a b = true -> pkgLess b c = true -> pkgLess a c = true.
Proof. pkgLess_cases. Qed.

Lemma pkgLess_negative_trans a b c :
  pkgLess a b = false -> pkgLess b c = false -> pkgLess a c = false.
Proof. pkgLess_cases. Qed.

Lemma pkgLess_asym a b : pkgLess a b = true -> pkgLess b a = false.
Proof. pkgLess_cases. Qed.

Lemma pkgLess_test_last a b :
  isTest a = false -> isTest b = true -> pkgLess a b = true.
Proof. unfold isTest, pkgLess. intros -> ->. reflexivity. Qed.

Lemma sort_insert_ordered p l :
  ordered pkgLess l -> ordered pkgLess (sort_insert pkgLess p l).
Proof.
  induction l as [| a l IH]; cbn [sort_insert ordered]; [auto |].
  intros [Hall Hord]. destruct (pkgLess a p) eqn:Hap; cbn [ordered].
  - split; [| apply IH, Hord].
    eapply Permutation_Forall; [symmetry; apply sort_insert_perm |].
    constructor; [apply pkgLess_asym, Hap | exact Hall].
  - split; [| split; assumption].
    constructor; [exact Hap |].
    eapply Forall_impl; [exact Hall |]. cbn. intros b Hba.
    eapply pkgLess_negative_trans; eassumption.
Qed.

Lemma sort_Slice_ordered l : ordered pkgLess (sort_Slice l pkgLess).
Proof.
  induction l as [| p l IH]; cbn [sort_Slice]; [exact I |].
  apply sort_insert_ordered, IH.
Qed.

Lemma ordered_tests_last l :
  ordered pkgLess l ->
  exists l1 l2,
    l = l1 ++ l2 /\
    Forall (fun p => isTest p = false) l1 /\ Forall (fun p => isTest p = true) l2.
Proof.
  induction l as [| a l IH]; cbn [ordered].
  - intros _. exists [], []. auto.
  - intros [Hall Hord]. destruct (IH Hord) as (l1 & l2 & -> & H1 & H2).
    destruct (isTest a) eqn:Ha.
    + exists [], (a :: l1 ++ l2). split; [reflexivity |]. split; [constructor |].
      constructor; [exact Ha |].
      eapply Forall_impl; [exact Hall |]. cbn. intros b Hba.
      destruct (isTest b) eqn:Hb; [reflexivity |].
      rewrite (pkgLess_test_last b a Hb Ha) in Hba. discriminate.
    + exists (a :: l1), l2. split; [reflexivity |]. split; [| exact H2].
      constructor; assumption.
Qed.

(** X16.  The comparison that [main] gives to [sort.Slice] is a strict weak
    order, as sorting asks: no package is before itself, and being before,
    as well as not being before, carries over a middle package.  It puts a
    package that is not [_test] before every package [_test].  The packages
    are processed in an order without inversions, which is the loaded
    packages rearranged; in such an order, the packages [_test] come after
    all the others. *)
Theorem packages_are_ordered_tests_last :
  (forall a, pkgLess a a = false) /\
  (forall a b c, pkgLess a b = true -> pkgLess b c = true -> pkgLess a c = true) /\
  (forall a b c, pkgLess a b = false -> pkgLess b c = false -> pkgLess a c = false) /\
  (forall a b, isTest a = false -> isTest b = true ->
               pkgLess a b = true /\ pkgLess b a = false) /\
  (forall pkgs,
     Permutation (sort_Slice pkgs pkgLess) pkgs /\
     ordered pkgLess (sort_Slice pkgs pkgLess)) /\
  (forall l,
     ordered pkgLess l ->
     exists l1 l2,
       l = l1 ++ l2 /\
       Forall (fun p => isTest p = false) l1 /\
       Forall (fun p => isTest p = true) l2).
Proof.
  split; [exact pkgLess_irrefl |]. split; [exact pkgLess_trans |].
  split; [exact pkgLess_negative_trans |]. split.
  - intros a b Ha Hb. pose proof (pkgLess_test_last a b Ha Hb) as H.
    split; [exact H | apply pkgLess_asym, H].
  - split; [| exact ordered_tests_last].
    intros pkgs. split; [apply sort_Slice_perm | apply sort_Slice_ordered].
Qed.

Lemma packages_are_ordered_tests_last_witness :
  let pkgs := [testdata.xExternal; testdata.xForTests; testdata.x] in
  (isTest testdata.x = false /\ isTest testdata.xExternal = true) /\
  pkgLess testdata.x testdata.xExternal = true /\
  exists l1 l2,
    sort_Slice pkgs pkgLess = l1 ++ l2 /\
    Forall (fun p => isTest p = false) l1 /\
    Forall (fun p => isTest p = true) l2.
Proof.
  intros pkgs.
  destruct packages_are_ordered_tests_last as (_ & _ & _ & Hlast & Hsort & Hsplit).
  assert (Hx : isTest testdata.x = false) by reflexivity.
  assert (He : isTest testdata.xExternal = true) by reflexivity.
  split; [auto |]. split; [apply (Hlast _ _ Hx He) |].
  apply Hsplit, (Hsort pkgs).
Defined.

(** ** Flag names *)

Lemma byteZ_uint8 z : 0 <= z < 256 -> byteZ (uint8 z) = z.
Proof.
  intros H. unfold byteZ, uint8. rewrite Z.mod_small by lia.
  rewrite N_ascii_embedding by lia. lia.
Qed.

Lemma asciiUpper_not_lower c :
  ~ (97 <= byteZ (asciiUpper c) <= 122).
Proof.
  unfold asciiUpper. zcmp; try lia. rewrite byteZ_uint8 by lia. lia.
Qed.

(** X17.  When the name of a field, without the prefix and then without the
    suffix, starts with an ASCII byte, its flag name is that name with the
    first byte in upper case if it is a lower-case letter, and unchanged
    otherwise.  The flag name does not start with a lower-case ASCII
    letter, and it is its own flag name. *)
Theorem flagName_ascii_initial
    (name tp ts : string) (c : ascii) (rest : string) :
  TrimSuffix (TrimPrefix name tp) ts = String.String c rest ->
  byteZ c < 128 ->
  flagName name tp ts = Ok (String.String (asciiUpper c) rest) /\
  ~ (97 <= byteZ (asciiUpper c) <= 122) /\
  (~ (97 <= byteZ c <= 122) -> asciiUpper c = c) /\
  flagName (String.String (asciiUpper c) rest) "" ""
    = Ok (String.String (asciiUpper c) rest).
Proof.
  intros Htrim Hascii.
  assert (Hup : forall d, byteZ d < 128 ->
                  uint8 (unicode_ToUpper (byteZ d)) = asciiUpper d)
    by (intros d Hd; apply bytes_props.ToUpper_ascii, Hd).
  split; [rewrite flagName_trims, Htrim, Hup by exact Hascii; reflexivity |].
  split; [apply asciiUpper_not_lower |]. split.
  - intros Hnot. unfold asciiUpper. zcmp; try lia; reflexivity.
  - assert (Hsmall : byteZ (asciiUpper c) < 128).
    { unfold asciiUpper. zcmp; try lia. rewrite byteZ_uint8 by lia. lia. }
    unfold flagName. cbv zeta. change (len "" >? 0) with false. cbv iota.
    rewrite Hup by exact Hsmall. f_equal. f_equal.
    pose proof (asciiUpper_not_lower c) as Hnot.
    unfold asciiUpper at 1. zcmp; try lia; reflexivity.
Qed.

Lemma flagName_ascii_initial_witness :
  (TrimSuffix (TrimPrefix "optFlagEnabled" "opt") "Enabled" = "Flag" /\
   byteZ "F" < 128 /\ byteZ "v" < 128) /\
  flagName "optFlagEnabled" "opt" "Enabled" = Ok "Flag" /\
  flagName "verbose" "" "" = Ok "Verbose".
Proof.
  assert (H1 : TrimSuffix (TrimPrefix "optFlagEnabled" "opt") "Enabled" = "Flag")
    by reflexivity.
  assert (H2 : TrimSuffix (TrimPrefix "verbose" "") "" = "verbose") by reflexivity.
  assert (HF : byteZ "F" < 128) by (vm_compute; reflexivity).
  assert (Hv : byteZ "v" < 128) by (vm_compute; reflexivity).
  split; [auto |]. split.
  - exact (proj1 (flagName_ascii_initial _ _ _ _ _ H1 HF)).
  - exact (proj1 (flagName_ascii_initial _ _ _ _ _ H2 Hv)).
Defined.

(** ** Missing definitions *)

(** X20.  A name for which the type checker has recorded no object ends the
    run: the first field name of a declaration that is not blank and has no
    object, when the names before it have theirs, with the "no field
    definition found" error that names the field and the type; the first
    spec of a [type] declaration that declares the requested name and has
    no object, with the "no type definition found" error. *)
Theorem missing_definitions_are_fatal (pkg : Package) :
  (forall tspecName pre id post acc,
     Forall (declared pkg) pre ->
     Forall (fun id => returns (flagName (ast.Name id) (trimPrefix pkg) (trimSuffix pkg)))
       (List.filter (qualifies pkg) pre) ->
     ast.Name id <> "_" ->
     defs pkg !! ast.addr id = None ->
     genStructDecl_names pkg tspecName (pre ++ id :: post) acc =
     Fatal "error: no field definition found for field %s from type %s"
       [AStr (ast.Name id); AStr tspecName]) /\
  (forall f pre tname ttype post,
     Forall (declaresOther (sourceTypeName f)) pre ->
     ast.Name tname = sourceTypeName f ->
     defs pkg !! ast.addr tname = None ->
     genStructDecl_specs pkg f (pre ++ ast.TypeSpec tname ttype :: post) =
     Fatal "error: no type definition found for type %s" [AStr (ast.Name tname)]).
Proof.
  split.
  - intros t pre id post acc Hdecl Hflag Hblank Hnone.
    rewrite genStructDecl_names_app.
    destruct (genStructDecl_names_spec pkg t pre acc Hdecl Hflag) as (fvs & -> & _).
    cbn. rewrite bool_decide_eq_false_2 by exact Hblank. rewrite Hnone. reflexivity.
  - intros f pre tname ttype post Hpre Hname Hnone.
    rewrite genStructDecl_specs_skip by exact Hpre.
    cbn [genStructDecl_specs].
    rewrite bool_decide_eq_true_2 by (symmetry; exact Hname). cbn [negb].
    rewrite Hnone. reflexivity.
Qed.

Lemma missing_definitions_are_fatal_witness :
  let pkg := testdata.newPackage "p" (testdata.boolStructObjects 40 "T" ["A"]) []
               false "" "" 0 in
  let f := {| file := ast.OtherNode []; sourceTypeName := "U";
              foundSourceType := None; flagValues := []; flagsSize := 0 |} in
  genStructDecl_names pkg "T" [testdata.ident "A" 41; testdata.ident "B" 42] [] =
    Fatal "error: no field definition found for field %s from type %s"
      [AStr "B"; AStr "T"] /\
  genStructDecl_specs pkg f
    [ast.TypeSpec (testdata.ident "T" 40) ast.OtherExpr;
     ast.TypeSpec (testdata.ident "U" 50) ast.OtherExpr] =
    Fatal "error: no type definition found for type %s" [AStr "U"].
Proof.
  intros pkg f. destruct (missing_definitions_are_fatal pkg) as [Hfield Htype].
  split.
  - apply (Hfield "T" [testdata.ident "A" 41] (testdata.ident "B" 42) [] []).
    + apply List.Forall_cons; [| apply List.Forall_nil].
      right. vm_compute. eauto.
    + apply List.Forall_forall. intros id Hin.
      assert (Hid : id = testdata.ident "A" 41).
      { apply filter_In in Hin as [[<- | []] _]. reflexivity. }
      subst id. eexists. vm_compute. reflexivity.
    + discriminate.
    + vm_compute. reflexivity.
  - apply (Htype f [ast.TypeSpec (testdata.ident "T" 40) ast.OtherExpr]
             (testdata.ident "U" 50) ast.OtherExpr []).
    + apply List.Forall_cons; [| apply List.Forall_nil].
      exists (testdata.ident "T" 40), ast.OtherExpr. split; [reflexivity | discriminate].
    + reflexivity.
    + vm_compute. reflexivity.
Defined.

(** ** Types that are not supported *)



End genflagged_extra.

(** * Properties of the validation of the command line *)

Module validate_extra.
Import validate.

Lemma Outcome_bind_inv {A B} (r : Outcome A) (k : A -> Outcome B) b :
  r ≫= k = Return b -> exists a, r = Return a /\ k a = Return b.
Proof. destruct r; cbn; intros H; try discriminate. eauto. Qed.

Lemma Outcome_bind_Exit {A B} (r : Outcome A) (k : A -> Outcome B) code :
  r ≫= k = Exit code -> r = Exit code \/ exists a, r = Return a /\ k a = Exit code.
Proof.
  destruct r; cbn; intros H; try discriminate; [right; eauto | left; congruence].
Qed.

Lemma len_zero s : (len s =? 0) = true <-> s = "".
Proof.
  unfold len. destruct s; cbn; split; intros H;
    (reflexivity || discriminate || (apply Z.eqb_eq in H; lia)).
Qed.

Lemma len_zero_false s : (len s =? 0) = false <-> s <> "".
Proof.
  rewrite <- len_zero. destruct (len s =? 0); split; intros H;
    (reflexivity || discriminate || contradiction || auto).
Qed.

Lemma strings_Split_from_nonempty s sep : forall cur,
  strings_Split_from s sep cur <> [].
Proof.
  induction s as [| c s IH]; intros cur; cbn; [discriminate |].
  destruct (Ascii.eqb c sep); [discriminate | apply IH].
Qed.

Lemma strings_Join_cons e rest sep :
  rest <> [] -> strings_Join (e :: rest) sep = e +:+ sep +:+ strings_Join rest sep.
Proof. destruct rest; [contradiction | reflexivity]. Qed.

Lemma strings_Join_Split_from s sep : forall cur,
  strings_Join (strings_Split_from s sep cur) (String.String sep EmptyString)
  = cur +:+ s.
Proof.
  induction s as [| c s IH]; intros cur; cbn [strings_Split_from].
  - cbn. rewrite bytes_props.str_app_nil_r. reflexivity.
  - destruct (Ascii.eqb_spec c sep) as [-> | Hne].
    + rewrite strings_Join_cons by apply strings_Split_from_nonempty.
      rewrite IH, bytes_props.str_app_nil_l. reflexivity.
    + rewrite IH, flagged_extra.str_app_assoc, bytes_props.str_app_cons,
        bytes_props.str_app_nil_l. reflexivity.
Qed.

Lemma strings_Join_Split s sep :
  strings_Join (strings_Split s sep) (String.String sep EmptyString) = s.
Proof.
  unfold strings_Split. rewrite strings_Join_Split_from.
  apply bytes_props.str_app_nil_l.
Qed.

Section validated.

Variable IsIdentifier : string -> bool.
Variable Stat : string -> string + bool.
Variable Dir : string -> string.

Lemma validateTypeNames_None l :
  validateTypeNames IsIdentifier l = None <->
  Forall (fun n => IsIdentifier n = true) l.
Proof.
  induction l as [| n l IH]; cbn.
  - split; [constructor | reflexivity].
  - destruct (IsIdentifier n) eqn:Hn; cbn.
    + rewrite IH. split; [intros H; constructor; assumption |].
      intros H. apply Forall_cons in H as [_ H]. exact H.
    + split; [discriminate |]. intros H. apply Forall_cons in H as [H _].
      congruence.
Qed.

Lemma validateTypeNames_first pre bad post :
  Forall (fun n => IsIdentifier n = true) pre -> IsIdentifier bad = false ->
  validateTypeNames IsIdentifier (pre ++ bad :: post)
  = Some (Errorf "invalid type identifier %q" bad).
Proof.
  induction pre as [| n pre IH]; intros Hpre Hbad; cbn.
  - rewrite Hbad. reflexivity.
  - apply Forall_cons in Hpre as [Hn Hpre]. rewrite Hn. cbn. apply IH; assumption.
Qed.

Lemma getDirFromArgs_Return args tags d :
  getDirFromArgs Stat Dir args tags = Return d ->
  (exists a, args = [a] /\ Stat a = inr true /\ d = a) \/
  (tags = "" /\
   exists a rest, args = a :: rest /\ d = Dir a /\
                  (rest = [] -> Stat a = inr false)).
Proof.
  unfold getDirFromArgs. destruct args as [| a [| b rest]].
  - cbn. destruct (negb (len tags =? 0)); discriminate.
  - change (Z.of_nat (length [a]) =? 1) with true. cbn. unfold isDirectory.
    destruct (Stat a) as [err | [|]] eqn:Hstat; cbn;
      [discriminate | intros [= <-]; left; eauto |].
    destruct (len tags =? 0) eqn:Ht; cbn; [| discriminate].
    intros [= <-]. right. apply len_zero in Ht. split; [exact Ht |].
    exists a, []. auto.
  - replace (Z.of_nat (length (a :: b :: rest)) =? 1) with false
      by (symmetry; apply Z.eqb_neq; cbn [length]; lia).
    cbn. destruct (len tags =? 0) eqn:Ht; cbn; [| discriminate].
    intros [= <-]. right. apply len_zero in Ht. split; [exact Ht |].
    exists a, (b :: rest). split; [reflexivity |]. split; [reflexivity | discriminate].
Qed.

Lemma getDirFromArgs_no_Exit args tags code :
  getDirFromArgs Stat Dir args tags <> Exit code.
Proof.
  unfold getDirFromArgs. intros H.
  apply Outcome_bind_Exit in H as [H | (single & _ & H)].
  - destruct (_ =? 1); [| discriminate].
    apply Outcome_bind_Exit in H as [H | (a0 & _ & H)];
      [destruct args; discriminate |].
    unfold isDirectory in H. destruct (Stat a0); discriminate.
  - destruct single; [destruct args; discriminate |].
    destruct (negb _); [discriminate |]. destruct args; discriminate.
Qed.

(** X18.  The input that [validateFlags] returns: the [-type] argument is
    not empty, and the source type names are its parts between the commas,
    all of them identifiers; the names of [-outType], when it is given, are
    its parts, all of them identifiers and as many as the source type
    names; the size is 0, 8, 16, 32 or 64; the patterns are the arguments,
    or the current directory when there is none; the output directory is
    the only argument when that is a directory, and else the directory of
    the first argument, which is accepted only without [-tags]. *)
Theorem validateFlags_returns_checked_input (fl : flags) (in_ : input) :
  validateFlags IsIdentifier Stat Dir fl = Return in_ ->
  typeFlag fl <> "" /\
  (sourceTypeNames in_ <> [] /\
   strings_Join (sourceTypeNames in_) "," = typeFlag fl /\
   Forall (fun n => IsIdentifier n = true) (sourceTypeNames in_)) /\
  (outTypeFlag fl = "" /\ outTypeNames in_ = [] \/
   outTypeFlag fl <> "" /\
   strings_Join (outTypeNames in_) "," = outTypeFlag fl /\
   Forall (fun n => IsIdentifier n = true) (outTypeNames in_) /\
   length (outTypeNames in_) = length (sourceTypeNames in_)) /\
  (flagsSize in_ = sizeFlag fl /\ In (flagsSize in_) [0; 8; 16; 32; 64]) /\
  (trimPrefix in_ = trimprefixFlag fl /\ trimSuffix in_ = trimsuffixFlag fl /\
   outFile in_ = outFileFlag fl /\ buildTags in_ = buildTagsFlag fl) /\
  patterns in_ = (match Args fl with [] => ["."] | _ => Args fl end) /\
  ((exists a, patterns in_ = [a] /\ Stat a = inr true /\ outDir in_ = a) \/
   (buildTags in_ = "" /\
    exists a rest, patterns in_ = a :: rest /\ outDir in_ = Dir a /\
                   (rest = [] -> Stat a = inr false))).
Proof.
  unfold validateFlags. intros H.
  destruct (len (typeFlag fl) =? 0) eqn:Htype; [discriminate |].
  apply len_zero_false in Htype. split; [exact Htype |].
  destruct (validateTypeNames IsIdentifier (strings_Split (typeFlag fl) ","))
    eqn:Hnames; [discriminate |].
  apply validateTypeNames_None in Hnames.
  apply Outcome_bind_inv in H as (outs & Houts & H).
  apply Outcome_bind_inv in H as ([] & Hsize & H).
  apply Outcome_bind_inv in H as (dir & Hdir & [= <-]). cbn.
  split; [| split; [| split; [| split; [| split]]]].
  - split; [apply strings_Split_from_nonempty |].
    split; [apply strings_Join_Split | exact Hnames].
  - destruct (len (outTypeFlag fl) =? 0) eqn:Hout; cbn in Houts.
    + injection Houts as <-. apply len_zero in Hout. left. auto.
    + apply len_zero_false in Hout. right.
      destruct (validateTypeNames IsIdentifier (strings_Split (outTypeFlag fl) ","))
        eqn:Hvalid; [discriminate |].
      apply validateTypeNames_None in Hvalid.
      destruct (Z.eqb_spec
                  (Z.of_nat (length (strings_Split (outTypeFlag fl) ",")))
                  (Z.of_nat (length (strings_Split (typeFlag fl) ","))))
        as [Hlen | Hlen]; cbn in Houts; [| discriminate].
      injection Houts as <-.
      split; [exact Hout |]. split; [apply strings_Join_Split |].
      split; [exact Hvalid | lia].
  - split; [reflexivity |].
    destruct (Z.eqb_spec (sizeFlag fl) 0) as [-> | H0]; cbn in Hsize; [auto |].
    destruct (Z.eqb_spec (sizeFlag fl) 8) as [-> | H8]; [auto |].
    destruct (Z.eqb_spec (sizeFlag fl) 16) as [-> | H16]; [auto 6 |].
    destruct (Z.eqb_spec (sizeFlag fl) 32) as [-> | H32]; [auto 6 |].
    destruct (Z.eqb_spec (sizeFlag fl) 64) as [-> | H64]; [auto 8 |].
    discriminate.
  - auto.
  - destruct (Args fl); reflexivity.
  - apply getDirFromArgs_Return in Hdir. exact Hdir.
Qed.

(** X19.  The validation ends the program with the status 2 exactly when
    [-type] is empty.  Otherwise, the first part of [-type] that is not an
    identifier ends it with the "invalid type argument" error that quotes
    this part, whatever the other flags are; and when the parts of
    [-type] are identifiers, an [-outType] whose parts are identifiers but
    not as many ends it with the "doesn't match" error. *)
Theorem validateFlags_rejections (fl : flags) :
  (forall code,
     validateFlags IsIdentifier Stat Dir fl = Exit code <->
     typeFlag fl = "" /\ code = 2) /\
  (forall pre bad post,
     typeFlag fl <> "" ->
     strings_Split (typeFlag fl) "," = pre ++ bad :: post ->
     Forall (fun n => IsIdentifier n = true) pre ->
     IsIdentifier bad = false ->
     validateFlags IsIdentifier Stat Dir fl =
     LogFatalf "error: invalid type argument: %s"
       [VErr (Errorf "invalid type identifier %q" bad)]) /\
  (typeFlag fl <> "" -> outTypeFlag fl <> "" ->
   Forall (fun n => IsIdentifier n = true) (strings_Split (typeFlag fl) ",") ->
   Forall (fun n => IsIdentifier n = true) (strings_Split (outTypeFlag fl) ",") ->
   length (strings_Split (outTypeFlag fl) ",")
     <> length (strings_Split (typeFlag fl) ",") ->
   validateFlags IsIdentifier Stat Dir fl =
   LogFatalf "error: type argument doesn't match outType argument: %s"
     [VStr (outTypeFlag fl)]).
Proof.
  split; [| split].
  - intros code. unfold validateFlags.
    destruct (len (typeFlag fl) =? 0) eqn:Htype.
    + apply len_zero in Htype. split; [intros [= <-]; auto | intros [_ ->]; reflexivity].
    + apply len_zero_false in Htype. split; [| intros [H _]; contradiction].
      intros H. exfalso.
      destruct (validateTypeNames _ _); [discriminate |].
      apply Outcome_bind_Exit in H as [H | (outs & _ & H)].
      { destruct (negb _); [| discriminate].
        destruct (validateTypeNames _ _); [discriminate |].
        destruct (negb _); discriminate. }
      apply Outcome_bind_Exit in H as [H | ([] & _ & H)].
      { destruct (negb _); [destruct (_ || _) |]; discriminate. }
      apply Outcome_bind_Exit in H as [H | (d & _ & H)]; [| discriminate].
      exact (getDirFromArgs_no_Exit _ _ _ H).
  - intros pre bad post Htype Hsplit Hpre Hbad. unfold validateFlags.
    apply len_zero_false in Htype. rewrite Htype, Hsplit.
    rewrite validateTypeNames_first by assumption. reflexivity.
  - intros Htype Hout Hnames Houts Hlen. unfold validateFlags.
    apply len_zero_false in Htype. apply len_zero_false in Hout.
    rewrite Htype, Hout.
    apply validateTypeNames_None in Hnames. apply validateTypeNames_None in Houts.
    rewrite Hnames, Houts.
    replace (Z.of_nat (length (strings_Split (outTypeFlag fl) ","))
             =? Z.of_nat (length (strings_Split (typeFlag fl) ",")))
      with false by (symmetry; apply Z.eqb_neq; lia).
    reflexivity.
Qed.

End validated.

Lemma validateFlags_returns_checked_input_witness :
  let IsIdentifier := fun s : string => negb (String.eqb s "") in
  let Stat := fun n : string =>
    if String.eqb n "." then inr true else inl "no such file or directory" in
  let Dir := fun _ : string => "." in
  let fl := {| typeFlag := "T,U"; outTypeFlag := "TFlags,_"; outFileFlag := "";
               sizeFlag := 16; trimprefixFlag := "opt"; trimsuffixFlag := "";
               buildTagsFlag := "integration"; Args := [] |} in
  exists in_,
    validateFlags IsIdentifier Stat Dir fl = Return in_ /\
    sourceTypeNames in_ = ["T"; "U"] /\
    length (outTypeNames in_) = 2%nat /\
    patterns in_ = ["."] /\ outDir in_ = ".".
Proof.
  intros IsIdentifier Stat Dir fl.
  eexists. split; [reflexivity |].
  edestruct (validateFlags_returns_checked_input IsIdentifier Stat Dir fl _ eq_refl)
    as (_ & _ & Houts & _ & _ & Hpatterns & Hdir).
  split; [reflexivity |]. split.
  - destruct Houts as [[Hnone _] | (_ & _ & _ & Hlen)]; [discriminate | exact Hlen].
  - split; [exact Hpatterns |].
    destruct Hdir as [(a & _ & _ & Hdir) | (Htags & _)]; [| discriminate].
    reflexivity.
Defined.

Lemma validateFlags_rejections_witness :
  let IsIdentifier := fun s : string => negb (String.eqb s "") in
  let Stat := fun _ : string => @inr string bool true in
  let Dir := fun s : string => s in
  let withType := fun (t o : string) =>
    {| typeFlag := t; outTypeFlag := o; outFileFlag := "";
       sizeFlag := 7; trimprefixFlag := ""; trimsuffixFlag := "";
       buildTagsFlag := ""; Args := [] |} in
  validateFlags IsIdentifier Stat Dir (withType "" "") = Exit 2 /\
  validateFlags IsIdentifier Stat Dir (withType "T,,U" "") =
    LogFatalf "error: invalid type argument: %s"
      [VErr (Errorf "invalid type identifier %q" "")] /\
  validateFlags IsIdentifier Stat Dir (withType "T,U" "F") =
    LogFatalf "error: type argument doesn't match outType argument: %s" [VStr "F"].
Proof.
  intros IsIdentifier Stat Dir withType.
  split; [| split].
  - apply (validateFlags_rejections IsIdentifier Stat Dir (withType "" "")).
    split; reflexivity.
  - apply (proj1 (proj2 (validateFlags_rejections IsIdentifier Stat Dir
                           (withType "T,,U" ""))) ["T"] "" ["U"]).
    + discriminate.
    + reflexivity.
    + repeat constructor.
    + reflexivity.
  - apply (proj2 (proj2 (validateFlags_rejections IsIdentifier Stat Dir
                           (withType "T,U" "F")))).
    + discriminate.
    + discriminate.
    + repeat constructor.
    + repeat constructor.
    + cbn. lia.
Defined.

End validate_extra.
